(** * VeriWipe: device sanitisation with signed, hash-chained evidence

    A shallow embedding of the three core Python modules of the repository

      - [src/ai_engine/ai_wipe_engine.py]           (module [AIEngine])
      - [src/wipe_core/wipe_engine.py]              (module [WipeCore])
      - [src/certificate_engine/certificate_generator.py]
                                                    (modules [Json], [Logger], [Cert])

    together with the properties of the specification that concern them.

    Conventions of the embedding.

    - A Python [str] is a Rocq [string]; the characters are read as code
      points 0..255, and the texts the program inspects are ASCII.
    - A Python [float] is an exact rational [Q]: every finite binary64 value
      is one, and the few arithmetic steps of the program (multiplication by
      powers of two, floor division, comparison with literals) are exact on
      the sizes that occur.  NaN and the infinities are not represented.
    - A Python [int] is a [Z].  Where the program mixes the two numeric
      types the dynamic type is kept ([pynum]), because the I/O layer
      accepts only integers as file offsets.
    - Inside a JSON value a float is held by the text [repr] prints for
      it, which is the text [json.dumps] writes.
    - An exception is a value [Exc msg] of [result]; [try/except] is a
      [match] on it.  Everything the program learns from the outside
      (sub-process exit codes, clock readings, device contents, random
      identifiers) is read from an explicit record that is an argument of
      the function. *)

From Stdlib Require Import ZArith QArith Qround Lqa Lia Bool List.
From Stdlib Require Import Ascii String Strings.Byte DecimalString DecimalZ.
Import ListNotations.

Local Open Scope string_scope.
Local Open Scope Z_scope.

Set Implicit Arguments.

(* ================================================================== *)
(** * Python values shared by all modules *)
(* ================================================================== *)

Module Py.

Inductive result (A : Type) : Type :=
| Ok  (a : A)
| Exc (msg : string).
Arguments Ok {A} a.
Arguments Exc {A} msg.

(** [str.lower()] on ASCII text. *)
Definition lower_ascii (c : ascii) : ascii :=
  let n := nat_of_ascii c in
  if (Nat.leb 65 n && Nat.leb n 90)%bool then ascii_of_nat (n + 32) else c.

Fixpoint lower (s : string) : string :=
  match s with
  | EmptyString => EmptyString
  | String c s' => String (lower_ascii c) (lower s')
  end.

(** [sub in s] for strings. *)
Fixpoint str_in (sub s : string) : bool :=
  (prefix sub s ||
   match s with
   | EmptyString => false
   | String _ s' => str_in sub s'
   end)%bool.

(** [x in [a, b, ...]] for a list of strings. *)
Definition in_list (x : string) (l : list string) : bool :=
  existsb (String.eqb x) l.

(** [a < b] on floats. *)
Definition Qltb (a b : Q) : bool := negb (Qle_bool b a).

(** The two numeric types of Python, kept apart. *)
Inductive pynum : Type :=
| PInt   (z : Z)
| PFloat (q : Q).

(** [int(x)] for a float: truncation towards zero. *)
Definition int_of_float (q : Q) : Z := Z.quot (Qnum q) (Zpos (Qden q)).

(** [a // b] on floats ([b] non-zero): the floor of the quotient, a float. *)
Definition float_floordiv (a b : Q) : Q := inject_Z (Qfloor (a / b)).

(** [d[k] = v] on a dictionary with string keys. *)
Fixpoint dict_set {V : Type} (k : string) (v : V) (d : list (string * V))
  : list (string * V) :=
  match d with
  | [] => [(k, v)]
  | (k', v') :: d' =>
      if String.eqb k' k then (k, v) :: d' else (k', v') :: dict_set k v d'
  end.

Fixpoint dict_get {V : Type} (k : string) (d : list (string * V)) : option V :=
  match d with
  | [] => None
  | (k', v') :: d' => if String.eqb k' k then Some v' else dict_get k d'
  end.

(** [d.pop(k, default)]: the dictionary without the key. *)
Fixpoint dict_pop {V : Type} (k : string) (d : list (string * V))
  : list (string * V) :=
  match d with
  | [] => []
  | (k', v) :: d' =>
      if String.eqb k' k then d' else (k', v) :: dict_pop k d'
  end.

End Py.
Import Py.

(* ================================================================== *)
(** * ai_wipe_engine.py *)
(* ================================================================== *)

Module AIEngine.

Inductive DeviceType : Type :=
| HDD | SSD_SATA | SSD_NVME | EMMC | USB | UNKNOWN.

Definition DeviceType_value (t : DeviceType) : string :=
  match t with
  | HDD => "hdd" | SSD_SATA => "ssd_sata" | SSD_NVME => "ssd_nvme"
  | EMMC => "emmc" | USB => "usb" | UNKNOWN => "unknown"
  end.

Inductive WipeMethod : Type :=
| ATA_SECURE_ERASE
| NVME_SECURE_ERASE
| NVME_CRYPTO_ERASE
| MULTIPASS_OVERWRITE
| SINGLE_PASS_RANDOM
| CRYPTO_ERASE
| FACTORY_RESET.

Definition WipeMethod_value (m : WipeMethod) : string :=
  match m with
  | ATA_SECURE_ERASE => "ata_secure_erase"
  | NVME_SECURE_ERASE => "nvme_secure_erase"
  | NVME_CRYPTO_ERASE => "nvme_crypto_erase"
  | MULTIPASS_OVERWRITE => "multipass_overwrite"
  | SINGLE_PASS_RANDOM => "single_pass_random"
  | CRYPTO_ERASE => "crypto_erase"
  | FACTORY_RESET => "factory_reset"
  end.

(** [str(m)] of an enum member, as an f-string prints it. *)
Definition WipeMethod_str (m : WipeMethod) : string :=
  match m with
  | ATA_SECURE_ERASE => "WipeMethod.ATA_SECURE_ERASE"
  | NVME_SECURE_ERASE => "WipeMethod.NVME_SECURE_ERASE"
  | NVME_CRYPTO_ERASE => "WipeMethod.NVME_CRYPTO_ERASE"
  | MULTIPASS_OVERWRITE => "WipeMethod.MULTIPASS_OVERWRITE"
  | SINGLE_PASS_RANDOM => "WipeMethod.SINGLE_PASS_RANDOM"
  | CRYPTO_ERASE => "WipeMethod.CRYPTO_ERASE"
  | FACTORY_RESET => "WipeMethod.FACTORY_RESET"
  end.

(** [list(WipeMethod)]: the members in definition order. *)
Definition WipeMethod_list : list WipeMethod :=
  [ATA_SECURE_ERASE; NVME_SECURE_ERASE; NVME_CRYPTO_ERASE;
   MULTIPASS_OVERWRITE; SINGLE_PASS_RANDOM; CRYPTO_ERASE; FACTORY_RESET].

(** The dataclass [DeviceInfo].  The field [features] holds the raw probe
    texts; no function below reads it. *)
Record DeviceInfo : Type := {
  device_path : string;
  device_type : DeviceType;
  model : string;
  serial : string;
  size_gb : Q;
  interface : string;
  encryption_status : string;
  hpa_dco_present : bool;
  secure_erase_supported : bool;
  features : list (string * string)
}.

(** A fitted scikit-learn classifier, seen through the one call the engine
    makes: [predict([features])[0]] returns a class label or raises. *)
Record Classifier : Type := {
  predict : list Q -> result Z
}.

(** The engine object.  [method_selector] is [None] or a classifier.
    [py_hash] is the interpreter's [str.__hash__], salted per process. *)
Record AIWipeEngine : Type := {
  method_selector : option Classifier;
  py_hash : string -> Z
}.

Definition method_features (self : AIWipeEngine) (device_info : DeviceInfo)
  : list Q :=
  [ inject_Z (py_hash self (DeviceType_value (device_type device_info)) mod 10);
    size_gb device_info;
    (if String.eqb (encryption_status device_info) "None" then 0 else 1)%Q;
    (if secure_erase_supported device_info then 1 else 0)%Q;
    (if hpa_dco_present device_info then 1 else 0)%Q;
    inject_Z (py_hash self (interface device_info) mod 10) ].

Definition _rule_based_method_selection (device_info : DeviceInfo)
  : WipeMethod :=
  if in_list (encryption_status device_info) ["LUKS"; "BitLocker"] then
    CRYPTO_ERASE
  else
    match device_type device_info with
    | SSD_NVME =>
        if secure_erase_supported device_info
        then NVME_SECURE_ERASE else NVME_CRYPTO_ERASE
    | SSD_SATA | EMMC =>
        if secure_erase_supported device_info
        then ATA_SECURE_ERASE else SINGLE_PASS_RANDOM
    | HDD =>
        if secure_erase_supported device_info
        then ATA_SECURE_ERASE else MULTIPASS_OVERWRITE
    | USB | UNKNOWN => SINGLE_PASS_RANDOM
    end.

Definition select_optimal_wipe_method
  (self : AIWipeEngine) (device_info : DeviceInfo) : WipeMethod :=
  let features := method_features self device_info in
  match method_selector self with
  | Some clf =>
      match predict clf features with
      | Ok prediction =>
          if ((0 <=? prediction) &&
              (prediction <? Z.of_nat (List.length WipeMethod_list)))%bool
          then nth (Z.to_nat prediction) WipeMethod_list
                   (_rule_based_method_selection device_info)
          else _rule_based_method_selection device_info
      | Exc _ => _rule_based_method_selection device_info
      end
  | None => _rule_based_method_selection device_info
  end.

(** The dictionary returned by [diagnose_and_resolve_errors]. *)
Record Resolution : Type := {
  diagnosis : string;
  suggested_actions : list string;
  alternative_method : option WipeMethod;
  confidence : Q
}.

Definition diagnose_and_resolve_errors (error_message : string) : Resolution :=
  let error_lower := lower error_message in
  if str_in "permission denied" error_lower then
    {| diagnosis := "Insufficient permissions";
       suggested_actions :=
         ["Run as root/administrator"; "Check device permissions"];
       alternative_method := None;
       confidence := 9 # 10 |}
  else if (str_in "device busy" error_lower
           || str_in "resource busy" error_lower)%bool then
    {| diagnosis := "Device is mounted or in use";
       suggested_actions :=
         ["Unmount device"; "Stop processes using device";
          "Kill fuser processes"];
       alternative_method := None;
       confidence := 19 # 20 |}
  else if str_in "not supported" error_lower then
    {| diagnosis := "Operation not supported by device";
       suggested_actions := ["Try alternative wipe method"];
       alternative_method := Some SINGLE_PASS_RANDOM;
       confidence := 8 # 10 |}
  else if str_in "timeout" error_lower then
    {| diagnosis := "Operation timeout";
       suggested_actions :=
         ["Increase timeout"; "Check device health"; "Try slower method"];
       alternative_method := None;
       confidence := 7 # 10 |}
  else
    {| diagnosis := "Unknown error";
       suggested_actions := ["Check system logs"; "Retry operation"];
       alternative_method := None;
       confidence := 5 # 10 |}.

End AIEngine.
Import AIEngine.

(* ================================================================== *)
(** * wipe_engine.py *)
(* ================================================================== *)

Module WipeCore.

Inductive WipeStatus : Type :=
| NOT_STARTED | IN_PROGRESS | COMPLETED | FAILED | CANCELLED.

Definition WipeStatus_value (s : WipeStatus) : string :=
  match s with
  | NOT_STARTED => "not_started" | IN_PROGRESS => "in_progress"
  | COMPLETED => "completed" | FAILED => "failed" | CANCELLED => "cancelled"
  end.

(** The dataclass [WipeOperation]; [__post_init__] replaces the two [None]
    defaults by an empty list and an empty dictionary. *)
Record WipeOperation : Type := {
  device_info : DeviceInfo;
  method : WipeMethod;
  start_time : option Q;
  end_time : option Q;
  status : WipeStatus;
  progress : Q;
  error_message : option string;
  operation_log : list string;
  verification_hashes : list (string * string)
}.

Definition new_operation (d : DeviceInfo) (m : WipeMethod) : WipeOperation :=
  {| device_info := d; method := m;
     start_time := None; end_time := None;
     status := NOT_STARTED; progress := 0;
     error_message := None; operation_log := [];
     verification_hashes := [] |}.

(** ** What the outside world answers *)

(** [subprocess.run(cmd, timeout=...)]. *)
Inductive run_result : Type :=
| RunDone (returncode : Z) (stderr : string)
| RunTimeout (msg : string)      (* subprocess.TimeoutExpired *)
| RunError (msg : string).       (* any other exception *)

(** [subprocess.Popen(cmd)] followed by the polling loop and
    [communicate()]: one clock reading (seconds since the start) for each
    iteration in which [poll()] still returned [None]. *)
Record popen_result : Type := {
  polls : list Q;
  p_returncode : Z;
  p_stderr : string
}.

(** The three phase functions called inside the [try] of [execute_wipe]. *)
Inductive phase : Type := PreChecks | Sanitize | Verification.

Record World : Type := {
  clock_start : Q;                         (* time.time() on entry *)
  clock_end : Q;                           (* time.time() on completion *)
  path_exists : bool;                      (* os.path.exists(device_path) *)
  mount_stdout : result string;            (* subprocess.run(['mount']) *)
  unmount_done : result unit;              (* lsblk + umount calls *)
  hpa_dco_done : result unit;              (* the two hdparm calls *)
  pre_sample : result string;              (* sha256 of the first MiB *)
  post_sample : result string;
  ata_set_pass : run_result;
  ata_erase : result popen_result;
  nvme_list_ns : run_result;
  nvme_format : result popen_result;
  nvme_crypto_format : run_result;
  luks_erase : run_result;
  dd : result popen_result;
  device_size : result Z;                  (* seek to the end, tell() *)
  overwrite_fault : Z -> option (Z * string);
    (* pass number -> the write that raises (counted from 0) and its text;
       a negative index stands for a failing open() *)
  read_at : Z -> result (list byte);       (* open, seek(offset), read(512) *)
  escaping : phase -> nat -> option string
    (* an exception raised in a phase outside that phase's own try blocks,
       which therefore reaches [execute_wipe]: index 0 is the call in the
       try block, index 1 the call in the handler *)
}.

(** ** The operation under execution, with what the callbacks received *)

Record Run : Type := {
  op : WipeOperation;
  delivered : list (string * Q * string);  (* callback arguments, in order *)
  progress_writes : list Q                 (* values assigned to op.progress *)
}.

Definition M (A : Type) : Type := Run -> A * Run.

Definition ret {A : Type} (a : A) : M A := fun r => (a, r).

Definition bind {A B : Type} (c : M A) (k : A -> M B) : M B :=
  fun r => let (a, r') := c r in k a r'.

Declare Scope wipe_scope.
Delimit Scope wipe_scope with wipe.
Notation "x <- c ;; k" := (bind c (fun x => k))
  (at level 61, c at next level, right associativity) : wipe_scope.
Notation "c ;; k" := (bind c (fun _ => k))
  (at level 61, right associativity) : wipe_scope.
Local Open Scope wipe_scope.

Definition get_op : M WipeOperation := fun r => (op r, r).

Definition upd_op (f : WipeOperation -> WipeOperation) : M unit :=
  fun r => (tt, {| op := f (op r); delivered := delivered r;
                   progress_writes := progress_writes r |}).

(** [operation.operation_log.append(s)] *)
Definition log (s : string) : M unit :=
  upd_op (fun o =>
    {| device_info := device_info o; method := method o;
       start_time := start_time o; end_time := end_time o;
       status := status o; progress := progress o;
       error_message := error_message o;
       operation_log := operation_log o ++ [s];
       verification_hashes := verification_hashes o |}).

Definition set_error_message (s : string) : M unit :=
  upd_op (fun o =>
    {| device_info := device_info o; method := method o;
       start_time := start_time o; end_time := end_time o;
       status := status o; progress := progress o;
       error_message := Some s;
       operation_log := operation_log o;
       verification_hashes := verification_hashes o |}).

Definition set_status (s : WipeStatus) : M unit :=
  upd_op (fun o =>
    {| device_info := device_info o; method := method o;
       start_time := start_time o; end_time := end_time o;
       status := s; progress := progress o;
       error_message := error_message o;
       operation_log := operation_log o;
       verification_hashes := verification_hashes o |}).

Definition set_method (m : WipeMethod) : M unit :=
  upd_op (fun o =>
    {| device_info := device_info o; method := m;
       start_time := start_time o; end_time := end_time o;
       status := status o; progress := progress o;
       error_message := error_message o;
       operation_log := operation_log o;
       verification_hashes := verification_hashes o |}).

Definition set_start_time (t : Q) : M unit :=
  upd_op (fun o =>
    {| device_info := device_info o; method := method o;
       start_time := Some t; end_time := end_time o;
       status := status o; progress := progress o;
       error_message := error_message o;
       operation_log := operation_log o;
       verification_hashes := verification_hashes o |}).

Definition set_end_time (t : Q) : M unit :=
  upd_op (fun o =>
    {| device_info := device_info o; method := method o;
       start_time := start_time o; end_time := Some t;
       status := status o; progress := progress o;
       error_message := error_message o;
       operation_log := operation_log o;
       verification_hashes := verification_hashes o |}).

Definition set_hash (k v : string) : M unit :=
  upd_op (fun o =>
    {| device_info := device_info o; method := method o;
       start_time := start_time o; end_time := end_time o;
       status := status o; progress := progress o;
       error_message := error_message o;
       operation_log := operation_log o;
       verification_hashes := dict_set k v (verification_hashes o) |}).

(** [operation.progress = p]; the assignment is also recorded. *)
Definition set_progress (p : Q) : M unit :=
  fun r =>
    let o := op r in
    (tt, {| op := {| device_info := device_info o; method := method o;
                     start_time := start_time o; end_time := end_time o;
                     status := status o; progress := p;
                     error_message := error_message o;
                     operation_log := operation_log o;
                     verification_hashes := verification_hashes o |};
            delivered := delivered r;
            progress_writes := progress_writes r ++ [p] |}).

(** [self._notify_progress(device_path, progress, message)]: every
    registered callback receives the triple; an exception in a callback is
    logged and swallowed. *)
Definition _notify_progress (device_path : string) (p : Q) (message : string)
  : M unit :=
  fun r => (tt, {| op := op r;
                   delivered := delivered r ++ [(device_path, p, message)];
                   progress_writes := progress_writes r |}).

Definition z_str (z : Z) : string := NilZero.string_of_int (Z.to_int z).

(** [str(l)] for a list of strings free of quotes and escapes. *)
Definition py_list_repr (l : list string) : string :=
  "[" ++ String.concat ", " (map (fun s => "'" ++ s ++ "'") l) ++ "]".

(** [min(a, b)] *)
Definition py_min (a b : Q) : Q := if Qltb b a then b else a.

(** [a * b] on numbers: the result is an [int] only if both are. *)
Definition pynum_mul (a b : pynum) : pynum :=
  match a, b with
  | PInt x, PInt y => PInt (x * y)
  | PInt x, PFloat y => PFloat (inject_Z x * y)
  | PFloat x, PInt y => PFloat (x * inject_Z y)
  | PFloat x, PFloat y => PFloat (x * y)
  end.

(** ** Helper methods *)

Definition _is_device_mounted (w : World) (device_path : string) : bool :=
  match mount_stdout w with
  | Ok stdout => str_in device_path stdout
  | Exc _ => false
  end.

Definition _unmount_device (w : World) : bool :=
  match unmount_done w with Ok _ => true | Exc _ => false end.

Definition _remove_hpa_dco (w : World) : bool :=
  match hpa_dco_done w with Ok _ => true | Exc _ => false end.

Definition _get_device_size (w : World) : Z :=
  match device_size w with Ok n => n | Exc _ => 0 end.

Definition _take_pre_wipe_sample (w : World) : M unit :=
  match pre_sample w with
  | Ok digest => set_hash "pre_wipe_sample" digest
  | Exc e => log ("Could not take pre-wipe sample: " ++ e)
  end.

Definition _take_post_wipe_sample (w : World) : M unit :=
  match post_sample w with
  | Ok digest => set_hash "post_wipe_sample" digest
  | Exc e => log ("Could not take post-wipe sample: " ++ e)
  end.

(** [f.seek(sector * 512)] needs an integer: with a float argument it
    raises [TypeError], which the function's [except Exception] turns into
    [False], as it does a failing [open], [seek] or [read]. *)
Definition _verify_sector_wiped (w : World) (sector : pynum) : bool :=
  match pynum_mul sector (PInt 512) with
  | PFloat _ => false
  | PInt offset =>
      if offset <? 0 then false
      else match read_at w offset with
           | Ok data => Nat.leb (List.length (nodup byte_eq_dec data)) 2
           | Exc _ => false
           end
  end.

Definition chunk_size : Z := 1024 * 1024.

(** The [while written < device_size] loop of [_overwrite_device]; the
    result is the text of the exception that ended it, if any.  [n] counts
    the writes. *)
Fixpoint write_chunks (fuel : nat) (device_path : string)
    (fault : option (Z * string)) (device_size : Z) (progress_base : Q)
    (n written : Z) : M (option string) :=
  if written <? device_size then
    match fuel with
    | O => ret None
    | S fuel' =>
        match fault with
        | Some (k, msg) =>
            if k =? n then ret (Some msg)
            else
              let remaining := Z.min chunk_size (device_size - written) in
              let written' := written + remaining in
              _notify_progress device_path
                (progress_base
                 + (inject_Z written' / inject_Z device_size) * 20)%Q
                ("Writing pattern: " ++ z_str written' ++ "/"
                 ++ z_str device_size ++ " bytes") ;;
              write_chunks fuel' device_path fault device_size progress_base
                           (n + 1) written'
        | None =>
            let remaining := Z.min chunk_size (device_size - written) in
            let written' := written + remaining in
            _notify_progress device_path
              (progress_base
               + (inject_Z written' / inject_Z device_size) * 20)%Q
              ("Writing pattern: " ++ z_str written' ++ "/"
               ++ z_str device_size ++ " bytes") ;;
            write_chunks fuel' device_path fault device_size progress_base
                         (n + 1) written'
        end
    end
  else ret None.

(** One write per started chunk is enough fuel for the loop. *)
Definition chunks_of (device_size : Z) : nat :=
  Z.to_nat ((device_size + chunk_size - 1) / chunk_size).

Definition _overwrite_device (w : World) (device_path : string)
    (pass_num : Z) (device_size : Z) (progress_base : Q) : M bool :=
  match overwrite_fault w pass_num with
  | Some (k, msg) =>
      if k <? 0 then
        log ("Pattern overwrite failed: " ++ msg) ;; ret false
      else
        r <- write_chunks (chunks_of device_size) device_path
               (Some (k, msg)) device_size progress_base 0 0 ;;
        match r with
        | Some e => log ("Pattern overwrite failed: " ++ e) ;; ret false
        | None => ret true
        end
  | None =>
      r <- write_chunks (chunks_of device_size) device_path
             None device_size progress_base 0 0 ;;
      match r with
      | Some e => log ("Pattern overwrite failed: " ++ e) ;; ret false
      | None => ret true
      end
  end.

(** The loop of [_monitor_dd_progress], once per poll of the running [dd]. *)
Fixpoint _monitor_dd_progress (device_path : string) (polls : list Q)
  : M unit :=
  match polls with
  | [] => ret tt
  | _ :: polls' =>
      o <- get_op ;;
      (if Qltb (progress o) 80 then
         set_progress (progress o + 2)%Q ;;
         o' <- get_op ;;
         _notify_progress device_path (progress o')
                          "Random overwrite in progress"
       else ret tt) ;;
      _monitor_dd_progress device_path polls'
  end.

(** ** The wipe methods *)

(** The estimating loop [while process.poll() is None] shared by the two
    secure-erase drivers; the result is the text of the exception that
    ended it, if any. *)
Fixpoint poll_progress (device_path : string) (estimated_duration : Q)
    (message : string) (elapsed : list Q) : M (option string) :=
  match elapsed with
  | [] => ret None
  | e :: rest =>
      if Qeq_bool estimated_duration 0 then
        ret (Some "float division by zero")
      else
        _notify_progress device_path
          (py_min (30 + (e / estimated_duration) * 60) 90)%Q message ;;
        poll_progress device_path estimated_duration message rest
  end.

Definition _ata_secure_erase (w : World) : M bool :=
  o <- get_op ;;
  let device_path := device_path (device_info o) in
  log "Starting ATA Secure Erase" ;;
  match ata_set_pass w with
  | RunTimeout _ => log "ATA Secure Erase timed out" ;; ret false
  | RunError e => log ("ATA Secure Erase error: " ++ e) ;; ret false
  | RunDone returncode stderr =>
      if negb (returncode =? 0) then
        log ("Failed to set security password: " ++ stderr) ;; ret false
      else
        _notify_progress device_path 30 "Security password set" ;;
        match ata_erase w with
        | Exc e => log ("ATA Secure Erase error: " ++ e) ;; ret false
        | Ok process =>
            let estimated_duration := (size_gb (device_info o) * 2)%Q in
            r <- poll_progress device_path estimated_duration
                   "ATA Secure Erase in progress" (polls process) ;;
            match r with
            | Some e => log ("ATA Secure Erase error: " ++ e) ;; ret false
            | None =>
                if p_returncode process =? 0 then
                  log "ATA Secure Erase completed successfully" ;;
                  _notify_progress device_path 90
                                   "ATA Secure Erase completed" ;;
                  ret true
                else
                  log ("ATA Secure Erase failed: " ++ p_stderr process) ;;
                  ret false
            end
        end
  end.

Definition _nvme_secure_erase (w : World) : M bool :=
  o <- get_op ;;
  let device_path := device_path (device_info o) in
  log "Starting NVMe Secure Erase" ;;
  match nvme_list_ns w with
  | RunTimeout e | RunError e =>
      log ("NVMe Secure Erase error: " ++ e) ;; ret false
  | RunDone returncode _ =>
      if negb (returncode =? 0) then
        log "Failed to list NVMe namespaces" ;; ret false
      else
        _notify_progress device_path 30 "NVMe namespace identified" ;;
        match nvme_format w with
        | Exc e => log ("NVMe Secure Erase error: " ++ e) ;; ret false
        | Ok process =>
            let estimated_duration := (size_gb (device_info o) * (1 # 2))%Q in
            r <- poll_progress device_path estimated_duration
                   "NVMe Secure Erase in progress" (polls process) ;;
            match r with
            | Some e => log ("NVMe Secure Erase error: " ++ e) ;; ret false
            | None =>
                if p_returncode process =? 0 then
                  log "NVMe Secure Erase completed successfully" ;;
                  _notify_progress device_path 90
                                   "NVMe Secure Erase completed" ;;
                  ret true
                else
                  log ("NVMe Secure Erase failed: " ++ p_stderr process) ;;
                  ret false
            end
        end
  end.

Definition _nvme_crypto_erase (w : World) : M bool :=
  o <- get_op ;;
  let device_path := device_path (device_info o) in
  log "Starting NVMe Crypto Erase" ;;
  match nvme_crypto_format w with
  | RunTimeout e | RunError e =>
      log ("NVMe Crypto Erase error: " ++ e) ;; ret false
  | RunDone returncode stderr =>
      if returncode =? 0 then
        log "NVMe Crypto Erase completed successfully" ;;
        _notify_progress device_path 90 "NVMe Crypto Erase completed" ;;
        ret true
      else
        log ("NVMe Crypto Erase failed: " ++ stderr) ;; ret false
  end.

(** The [for pass_num, pattern in enumerate(patterns, 1)] loop. *)
Fixpoint overwrite_passes (w : World) (device_path : string)
    (device_size : Z) (passes : list Z) : M bool :=
  match passes with
  | [] =>
      log "Multi-pass overwrite completed successfully" ;; ret true
  | pass_num :: rest =>
      log ("Starting pass " ++ z_str pass_num ++ "/3") ;;
      let progress_base := (30 + inject_Z (pass_num - 1) * 20)%Q in
      ok <- _overwrite_device w device_path pass_num device_size
                              progress_base ;;
      if negb ok then ret false
      else
        _notify_progress device_path (progress_base + 20)%Q
          ("Pass " ++ z_str pass_num ++ " completed") ;;
        overwrite_passes w device_path device_size rest
  end.

Definition _multipass_overwrite (w : World) : M bool :=
  o <- get_op ;;
  let device_path := device_path (device_info o) in
  log "Starting multi-pass overwrite (3 passes)" ;;
  let device_size := _get_device_size w in
  if device_size =? 0 then
    log "Could not determine device size" ;; ret false
  else overwrite_passes w device_path device_size [1; 2; 3].

Definition _single_pass_random (w : World) : M bool :=
  o <- get_op ;;
  let device_path := device_path (device_info o) in
  log "Starting single-pass random overwrite" ;;
  match dd w with
  | Exc e => log ("Single-pass overwrite error: " ++ e) ;; ret false
  | Ok process =>
      _monitor_dd_progress device_path (polls process) ;;
      if p_returncode process =? 0 then
        log "Single-pass random overwrite completed successfully" ;;
        _notify_progress device_path 90 "Random overwrite completed" ;;
        ret true
      else
        log ("Single-pass overwrite failed: " ++ p_stderr process) ;;
        ret false
  end.

Definition _crypto_erase (w : World) : M bool :=
  o <- get_op ;;
  let device_path := device_path (device_info o) in
  let encryption_type := encryption_status (device_info o) in
  log ("Starting crypto erase for " ++ encryption_type) ;;
  if String.eqb encryption_type "LUKS" then
    match luks_erase w with
    | RunTimeout e | RunError e =>
        log ("Crypto erase error: " ++ e) ;; ret false
    | RunDone returncode stderr =>
        if returncode =? 0 then
          log "LUKS header destroyed successfully" ;;
          _notify_progress device_path 90 "LUKS crypto erase completed" ;;
          ret true
        else
          log ("LUKS erase failed: " ++ stderr) ;; ret false
    end
  else if String.eqb encryption_type "BitLocker" then
    log "BitLocker crypto erase not implemented in Linux environment" ;;
    ret false
  else
    log "No encryption detected, falling back to overwrite" ;;
    _single_pass_random w.

(** ** The phases *)

Definition _pre_wipe_checks (w : World) : M bool :=
  o <- get_op ;;
  let device_path := device_path (device_info o) in
  log "Starting pre-wipe checks" ;;
  if negb (path_exists w) then
    set_error_message ("Device " ++ device_path ++ " does not exist") ;;
    ret false
  else
    unmounted <-
      (if _is_device_mounted w device_path then
         log ("Device " ++ device_path
              ++ " is mounted, attempting to unmount") ;;
         if negb (_unmount_device w) then
           set_error_message ("Failed to unmount " ++ device_path) ;;
           ret false
         else ret true
       else ret true) ;;
    if negb unmounted then ret false
    else
      (if hpa_dco_present (device_info o) then
         log "Removing HPA/DCO" ;;
         if negb (_remove_hpa_dco w) then
           log "Warning: Could not remove HPA/DCO"
         else ret tt
       else ret tt) ;;
      _take_pre_wipe_sample w ;;
      log "Pre-wipe checks completed" ;;
      _notify_progress device_path 10 "Pre-wipe checks completed" ;;
      ret true.

(** The drivers contain their own [try/except] and return a boolean, so
    the [except] of the dispatcher has nothing to catch. *)
Definition _execute_wipe_method (w : World) : M bool :=
  o <- get_op ;;
  log ("Executing wipe method: " ++ WipeMethod_value (method o)) ;;
  match method o with
  | ATA_SECURE_ERASE => _ata_secure_erase w
  | NVME_SECURE_ERASE => _nvme_secure_erase w
  | NVME_CRYPTO_ERASE => _nvme_crypto_erase w
  | MULTIPASS_OVERWRITE => _multipass_overwrite w
  | SINGLE_PASS_RANDOM => _single_pass_random w
  | CRYPTO_ERASE => _crypto_erase w
  | FACTORY_RESET =>
      set_error_message
        ("Unsupported wipe method: " ++ WipeMethod_str (method o)) ;;
      ret false
  end.

(** [sample_count = min(100, int(size_gb))] *)
Definition sample_count_of (size_gb : Q) : Z :=
  Z.min 100 (int_of_float size_gb).

(** The sector of sample [i]:
    [i * (size_gb * 1024 * 1024 * 1024 // 512 // sample_count)];
    [size_gb] is a float, and so is every intermediate value. *)
Definition sample_sector (size_gb : Q) (sample_count i : Z) : pynum :=
  pynum_mul (PInt i)
    (PFloat (float_floordiv
               (float_floordiv (size_gb * 1024 * 1024 * 1024) 512)
               (inject_Z sample_count))).

(** The [for i in range(sample_count)] loop; the result is
    [verification_passed]. *)
Fixpoint verify_samples (w : World) (device_path : string) (size_gb : Q)
    (sample_count : Z) (indices : list Z) : M bool :=
  match indices with
  | [] => ret true
  | i :: rest =>
      if negb (_verify_sector_wiped w (sample_sector size_gb sample_count i))
      then ret false
      else
        (if i mod 10 =? 0 then
           _notify_progress device_path
             (90 + (inject_Z i / inject_Z sample_count) * 10)%Q
             "Verifying wipe completion"
         else ret tt) ;;
        verify_samples w device_path size_gb sample_count rest
  end.

(** [range(n)] *)
Definition py_range (n : Z) : list Z := map Z.of_nat (seq 0 (Z.to_nat n)).

Definition _post_wipe_verification (w : World) : M bool :=
  o <- get_op ;;
  let device_path := device_path (device_info o) in
  log "Starting post-wipe verification" ;;
  let sample_count := sample_count_of (size_gb (device_info o)) in
  verification_passed <-
    verify_samples w device_path (size_gb (device_info o)) sample_count
                   (py_range sample_count) ;;
  if verification_passed then
    log "Post-wipe verification passed" ;;
    _take_post_wipe_sample w ;;
    ret true
  else
    log "Post-wipe verification failed - data remnants detected" ;;
    ret false.

(** ** [execute_wipe] *)

(** The guard of the handler on a resolution:
    [resolution.get('alternative_method') and resolution['confidence'] > 0.7]. *)
Definition fallback_of (r : Resolution) : option WipeMethod :=
  match alternative_method r with
  | Some m => if Qltb (7 # 10) (confidence r) then Some m else None
  | None => None
  end.

(** A call of a phase function: it raises if the world injects an
    exception outside the phase's own guards, otherwise it runs. *)
Definition call_phase {A : Type} (fault : option string) (body : M A)
  : Run -> result A * Run :=
  fun r =>
    match fault with
    | Some e => (Exc e, r)
    | None => let (a, r') := body r in (Ok a, r')
    end.

(** The [try] block.  [Ok b] is the value the function goes on to return
    ([return False], [return True], or falling through to the final
    [return False]); [Exc e] enters the handler. *)
Definition try_block (w : World) : Run -> result bool * Run :=
  fun r =>
    match call_phase (escaping w PreChecks 0) (_pre_wipe_checks w) r with
    | (Exc e, r1) => (Exc e, r1)
    | (Ok false, r1) => let (_, r2) := set_status FAILED r1 in (Ok false, r2)
    | (Ok true, r1) =>
        match call_phase (escaping w Sanitize 0) (_execute_wipe_method w) r1
        with
        | (Exc e, r2) => (Exc e, r2)
        | (Ok false, r2) =>
            let (_, r3) := set_status FAILED r2 in (Ok false, r3)
        | (Ok true, r2) =>
            match call_phase (escaping w Verification 0)
                             (_post_wipe_verification w) r2 with
            | (Exc e, r3) => (Exc e, r3)
            | (Ok true, r3) =>
                let (_, r4) :=
                  (set_status COMPLETED ;;
                   set_end_time (clock_end w) ;;
                   set_progress 100 ;;
                   _notify_progress (device_path (device_info (op r3))) 100
                                    "Wipe completed successfully") r3 in
                (Ok true, r4)
            | (Ok false, r3) =>
                let (_, r4) :=
                  (set_status FAILED ;;
                   set_error_message "Post-wipe verification failed") r3 in
                (Ok false, r4)
            end
        end
    end.

(** The [except Exception as e] handler.  Its last statement returns the
    result of the second [_execute_wipe_method] call as it is. *)
Definition handler (w : World) (e : string) : Run -> result bool * Run :=
  fun r =>
    let resolution := diagnose_and_resolve_errors e in
    let (_, r1) :=
      (set_status FAILED ;;
       set_error_message e ;;
       log ("Error diagnosis: " ++ diagnosis resolution) ;;
       log ("Suggested actions: "
            ++ py_list_repr (suggested_actions resolution))) r in
    match fallback_of resolution with
    | Some m =>
        let (_, r2) :=
          (log ("Trying alternative method: " ++ WipeMethod_str m) ;;
           set_method m) r1 in
        call_phase (escaping w Sanitize 1) (_execute_wipe_method w) r2
    | None => (Ok false, r1)
    end.

(** The body of [execute_wipe] once the operation has been found. *)
Definition execute_operation (w : World) : Run -> result bool * Run :=
  fun r =>
    let (_, r0) :=
      (set_start_time (clock_start w) ;; set_status IN_PROGRESS) r in
    match try_block w r0 with
    | (Ok b, r1) => (Ok b, r1)
    | (Exc e, r1) => handler w e r1
    end.

(** The [WipeCore] object: the engine and the prepared operations. *)
Record WipeCoreObj : Type := {
  ai_engine : AIWipeEngine;
  current_operations : list (string * WipeOperation)
}.

Definition prepare_wipe_operation (self : WipeCoreObj)
    (device_info : DeviceInfo) : WipeOperation * WipeCoreObj :=
  let method := select_optimal_wipe_method (ai_engine self) device_info in
  let operation :=
    snd ((log ("Operation prepared for " ++ device_path device_info) ;;
          log ("Selected method: " ++ WipeMethod_value method))
           {| op := new_operation device_info method;
              delivered := []; progress_writes := [] |}) in
  (op operation,
   {| ai_engine := ai_engine self;
      current_operations :=
        dict_set (device_path device_info) (op operation)
                 (current_operations self) |}).

(** [execute_wipe(device_path)]: the returned value (or the exception that
    leaves the function), the object afterwards, and what the progress
    callbacks received. *)
Definition execute_wipe (w : World) (self : WipeCoreObj)
    (device_path : string)
  : result bool * WipeCoreObj * list (string * Q * string) :=
  match dict_get device_path (current_operations self) with
  | None => (Ok false, self, [])
  | Some operation =>
      let (res, r) :=
        execute_operation w
          {| op := operation; delivered := []; progress_writes := [] |} in
      (res,
       {| ai_engine := ai_engine self;
          current_operations :=
            dict_set device_path (op r) (current_operations self) |},
       delivered r)
  end.

End WipeCore.
Import WipeCore.

(* ================================================================== *)
(** * Library primitives used by certificate_generator.py *)
(* ================================================================== *)

(** [hashlib.sha256(s.encode()).hexdigest()] *)
Class Hashlib : Type := {
  sha256_hex : string -> string
}.

(** [float.__repr__], which both f-strings and [json.dumps] use. *)
Class FloatRepr : Type := {
  float_repr : Q -> string
}.

(** [base64.b64encode(b).decode()] and [base64.b64decode(s)]; the latter
    raises on malformed input ([None]). *)
Class Base64 : Type := {
  b64encode : string -> string;
  b64decode : string -> option string
}.

(** The P-256 keys of the [cryptography] package.  Signing draws a fresh
    nonce; verification raises [InvalidSignature] ([false]) or returns. *)
Class Ecdsa : Type := {
  private_key_t : Type;
  public_key_t : Type;
  public_key_of : private_key_t -> public_key_t;
  public_bytes_der : public_key_t -> string;
  ec_sign : private_key_t -> Z -> string -> string;
  ec_verify : public_key_t -> string -> string -> bool
    (* public_key.verify(signature, data, ECDSA(SHA256)) *)
}.

(* ================================================================== *)
(** * json.dumps(value, sort_keys=True, separators=(',', ':')) *)
(* ================================================================== *)

Module Json.

(** The values [json.load] produces and [json.dumps] accepts here: the
    keys of every dictionary are strings.  A float is held by its
    [repr], the shortest decimal text that reads back as the same value;
    this is the text [json.dumps] prints for it. *)
#[local] Unset Elimination Schemes.
Inductive json : Type :=
| JNull
| JBool (b : bool)
| JInt (z : Z)
| JFloat (repr : string)
| JStr (s : string)
| JList (l : list json)
| JDict (d : list (string * json)).
#[local] Set Elimination Schemes.

Definition quote : ascii := ascii_of_nat 34.
Definition backslash : ascii := ascii_of_nat 92.

Definition hex_digit (n : nat) : ascii :=
  nth n ["0"; "1"; "2"; "3"; "4"; "5"; "6"; "7"; "8"; "9";
         "a"; "b"; "c"; "d"; "e"; "f"]%char "0"%char.

(** [ESCAPE_DCT] and the [\uXXXX] fallback of [py_encode_basestring_ascii]:
    everything outside the printable ASCII range is escaped. *)
Definition escape_char (c : ascii) : string :=
  let n := nat_of_ascii c in
  if Nat.eqb n 34 then String backslash (String quote "")
  else if Nat.eqb n 92 then String backslash (String backslash "")
  else if Nat.eqb n 10 then String backslash "n"
  else if Nat.eqb n 13 then String backslash "r"
  else if Nat.eqb n 9 then String backslash "t"
  else if Nat.eqb n 8 then String backslash "b"
  else if Nat.eqb n 12 then String backslash "f"
  else if (Nat.leb 32 n && Nat.leb n 126)%bool then String c ""
  else String backslash
         (String "u" (String "0" (String "0"
           (String (hex_digit (Nat.div n 16))
             (String (hex_digit (Nat.modulo n 16)) ""))))).

Fixpoint escape (s : string) : string :=
  match s with
  | EmptyString => EmptyString
  | String c s' => escape_char c ++ escape s'
  end.

Definition encode_str (s : string) : string :=
  String quote (escape s ++ String quote "").

(** [sorted(items)] on (key, text) pairs with distinct keys: insertion by
    key, in the order of the code points. *)
Fixpoint insert_item {V : Type} (x : string * V) (l : list (string * V))
  : list (string * V) :=
  match l with
  | [] => [x]
  | y :: l' =>
      if String.leb (fst x) (fst y) then x :: y :: l'
      else y :: insert_item x l'
  end.

Fixpoint sort_items {V : Type} (l : list (string * V)) : list (string * V) :=
  match l with
  | [] => []
  | x :: l' => insert_item x (sort_items l')
  end.

Definition render_item (kv : string * string) : string :=
  encode_str (fst kv) ++ ":" ++ snd kv.

Fixpoint dumps (v : json) : string :=
  match v with
  | JNull => "null"
  | JBool true => "true"
  | JBool false => "false"
  | JInt z => z_str z
  | JFloat repr => repr
  | JStr s => encode_str s
  | JList l =>
      "[" ++ String.concat ","
               ((fix each (l : list json) : list string :=
                   match l with
                   | [] => []
                   | x :: r => dumps x :: each r
                   end) l)
          ++ "]"
  | JDict d =>
      "{" ++ String.concat ","
               (map render_item
                  (sort_items
                     ((fix each (d : list (string * json))
                         : list (string * string) :=
                         match d with
                         | [] => []
                         | (k, x) :: r => (k, dumps x) :: each r
                         end) d)))
          ++ "}"
  end.

(** Equality of Python values, through a normal form: a dictionary
    compares equal whatever the order of its items. *)
Fixpoint norm (v : json) : json :=
  match v with
  | JList l => JList (map norm l)
  | JDict d =>
      JDict (sort_items
               ((fix each (d : list (string * json)) : list (string * json) :=
                   match d with
                   | [] => []
                   | (k, x) :: r => (k, norm x) :: each r
                   end) d))
  | _ => v
  end.

Definition py_eq (a b : json) : Prop := norm a = norm b.

End Json.
Import Json.

(* ================================================================== *)
(** * certificate_generator.py: the hash-chained log *)
(* ================================================================== *)

Module Logger.

Record LogEntry : Type := {
  timestamp : Q;
  entry_id : string;
  message : string;
  level : string;
  previous_hash : string;
  entry_hash : string
}.

Definition genesis_hash : string :=
  "0000000000000000000000000000000000000000000000000000000000000000".

Record TamperProofLogger : Type := {
  log_chain : list LogEntry
}.

Section WithPrimitives.
Context {HL : Hashlib} {FR : FloatRepr}.

(** The text that is hashed:
    [f"{timestamp}{entry_id}{message}{level}{previous_hash}"]. *)
Definition hash_data (e : LogEntry) : string :=
  float_repr (timestamp e) ++ entry_id e ++ message e ++ level e
  ++ previous_hash e.

Definition calculate_hash (e : LogEntry) : string :=
  sha256_hex (hash_data e).

(** The constructor with [__post_init__]: an empty [entry_hash] is
    replaced by the computed one. *)
Definition LogEntry_new (timestamp : Q)
    (entry_id message level previous_hash entry_hash : string) : LogEntry :=
  let e := {| timestamp := timestamp; entry_id := entry_id;
              message := message; level := level;
              previous_hash := previous_hash; entry_hash := entry_hash |} in
  if String.eqb entry_hash "" then
    {| timestamp := timestamp; entry_id := entry_id;
       message := message; level := level;
       previous_hash := previous_hash; entry_hash := calculate_hash e |}
  else e.

(** [self.log_chain[-1].entry_hash if self.log_chain else self.genesis_hash] *)
Definition chain_tail_hash (chain : list LogEntry) : string :=
  match rev chain with
  | [] => genesis_hash
  | e :: _ => entry_hash e
  end.

(** [add_entry(message, level)]; [now] is [time.time()] and [uuid] is
    [str(uuid.uuid4())].  The file written by [_save_log] is a copy of the
    chain and is not modelled. *)
Definition add_entry (self : TamperProofLogger) (now : Q) (uuid : string)
    (message level : string) : string * TamperProofLogger :=
  let previous_hash := chain_tail_hash (log_chain self) in
  let entry := LogEntry_new now uuid message level previous_hash "" in
  (uuid, {| log_chain := log_chain self ++ [entry] |}).

(** The loop of [verify_chain_integrity]. *)
Fixpoint walk_chain (expected_previous : string) (chain : list LogEntry)
  : bool :=
  match chain with
  | [] => true
  | entry :: rest =>
      if negb (String.eqb (previous_hash entry) expected_previous) then false
      else if negb (String.eqb (entry_hash entry) (calculate_hash entry))
      then false
      else walk_chain (entry_hash entry) rest
  end.

Definition verify_chain_integrity (self : TamperProofLogger) : bool :=
  match log_chain self with
  | [] => true
  | _ => walk_chain genesis_hash (log_chain self)
  end.

End WithPrimitives.

End Logger.

(* ================================================================== *)
(** * certificate_generator.py: signer, builder and verifier *)
(* ================================================================== *)

Module Cert.

Record CertificateData : Type := {
  certificate_id : string;
  timestamp : string;
  device_info : list (string * json);
  wipe_operation : list (string * json);
  verification_hashes : list (string * json);
  operation_log : list json;
  tool_info : list (string * json);
  compliance_info : list (string * json);
  signature : string;
  blockchain_anchor : option string
}.

Definition opt_json {A : Type} (f : A -> json) (o : option A) : json :=
  match o with Some a => f a | None => JNull end.

(** A float as a JSON value. *)
Definition jfloat {FR : FloatRepr} (q : Q) : json := JFloat (float_repr q).

(** [dataclasses.asdict]: the fields in declaration order. *)
Definition asdict (c : CertificateData) : list (string * json) :=
  [ ("certificate_id", JStr (certificate_id c));
    ("timestamp", JStr (timestamp c));
    ("device_info", JDict (device_info c));
    ("wipe_operation", JDict (wipe_operation c));
    ("verification_hashes", JDict (verification_hashes c));
    ("operation_log", JList (operation_log c));
    ("tool_info", JDict (tool_info c));
    ("compliance_info", JDict (compliance_info c));
    ("signature", JStr (signature c));
    ("blockchain_anchor", opt_json JStr (blockchain_anchor c)) ].

Definition with_signature (c : CertificateData) (s : string)
  : CertificateData :=
  {| certificate_id := certificate_id c; timestamp := timestamp c;
     device_info := device_info c; wipe_operation := wipe_operation c;
     verification_hashes := verification_hashes c;
     operation_log := operation_log c; tool_info := tool_info c;
     compliance_info := compliance_info c;
     signature := s; blockchain_anchor := blockchain_anchor c |}.

(** What [verify_certificate] returns: the dictionary with the verdict, or
    the one with ["valid": False] and the text of an exception. *)
Inductive report : Type :=
| Report (valid : bool) (certificate_id timestamp signer_fingerprint
                          blockchain_anchor : option json)
| ReportError (error : string).

Definition report_valid (r : report) : bool :=
  match r with
  | Report v _ _ _ _ => v
  | ReportError _ => false
  end.

(** [os.path.join(output_dir, filename)] for a relative file name. *)
Definition path_join (output_dir filename : string) : string :=
  if String.eqb output_dir "" then filename
  else match get (String.length output_dir - 1) output_dir with
       | Some "/"%char => output_dir ++ filename
       | _ => output_dir ++ "/" ++ filename
       end.

Section WithPrimitives.
Context {HL : Hashlib} {FR : FloatRepr} {B64 : Base64} {EC : Ecdsa}.

Record CryptographicSigner : Type := {
  private_key : option private_key_t;
  public_key : option public_key_t
}.

(** [sign_data(data)]; [nonce] is the randomness of the ECDSA signature. *)
Definition sign_data (self : CryptographicSigner) (nonce : Z) (data : string)
  : result string :=
  match private_key self with
  | None => Exc "No private key available for signing"
  | Some sk => Ok (b64encode (ec_sign sk nonce data))
  end.

(** [verify_signature(data, signature)]: any exception, among them the
    [TypeError] of [b64decode] on a value that is not a string, gives
    [False]. *)
Definition verify_signature (self : CryptographicSigner) (data : string)
    (signature : json) : bool :=
  match public_key self with
  | None => false
  | Some pk =>
      match signature with
      | JStr s =>
          match b64decode s with
          | Some signature_bytes => ec_verify pk signature_bytes data
          | None => false
          end
      | _ => false
      end
  end.

Definition get_public_key_fingerprint (self : CryptographicSigner) : string :=
  match public_key self with
  | None => ""
  | Some pk => substring 0 16 (sha256_hex (public_bytes_der pk))
  end.

Record CertificateGenerator : Type := {
  logger : Logger.TamperProofLogger;
  signer : CryptographicSigner
}.

Definition _get_nist_classification (wipe_method : WipeMethod) : string :=
  match wipe_method with
  | ATA_SECURE_ERASE => "Purge"
  | NVME_SECURE_ERASE => "Purge"
  | NVME_CRYPTO_ERASE => "Purge"
  | CRYPTO_ERASE => "Purge"
  | MULTIPASS_OVERWRITE => "Purge"
  | SINGLE_PASS_RANDOM => "Clear"
  | FACTORY_RESET => "Clear"
  end.

(** A float is falsy when it is zero. *)
Definition float_truthy (o : option Q) : bool :=
  match o with
  | Some q => negb (Qeq_bool q 0)
  | None => false
  end.

(** [_prepare_certificate_data(wipe_operation)]; [uuid] is
    [str(uuid.uuid4())] and [now_iso] is
    [datetime.now(timezone.utc).isoformat()]. *)
Definition _prepare_certificate_data (self : CertificateGenerator)
    (uuid now_iso : string) (wipe_operation : WipeOperation)
  : CertificateData :=
  let d := WipeCore.device_info wipe_operation in
  let device_info :=
    [ ("device_path_hash",
        JStr (substring 0 16 (sha256_hex (device_path d))));
      ("device_type", JStr (DeviceType_value (device_type d)));
      ("model", JStr (model d));
      ("serial_hash", JStr (substring 0 16 (sha256_hex (serial d))));
      ("size_gb", jfloat (size_gb d));
      ("interface", JStr (interface d));
      ("encryption_status", JStr (encryption_status d));
      ("hpa_dco_present", JBool (hpa_dco_present d));
      ("secure_erase_supported", JBool (secure_erase_supported d)) ] in
  let wipe_op_data :=
    [ ("method", JStr (WipeMethod_value (method wipe_operation)));
      ("status", JStr (WipeStatus_value (status wipe_operation)));
      ("start_time", opt_json jfloat (start_time wipe_operation));
      ("end_time", opt_json jfloat (end_time wipe_operation));
      ("duration_seconds",
        match start_time wipe_operation, end_time wipe_operation with
        | Some s, Some e =>
            if (float_truthy (Some e) && float_truthy (Some s))%bool
            then jfloat (e - s) else JNull
        | _, _ => JNull
        end);
      ("progress", jfloat (progress wipe_operation));
      ("error_message", opt_json JStr (error_message wipe_operation)) ] in
  let operation_log :=
    map (fun entry =>
           JDict [ ("timestamp", jfloat (Logger.timestamp entry));
                   ("entry_id", JStr (Logger.entry_id entry));
                   ("message", JStr (Logger.message entry));
                   ("level", JStr (Logger.level entry));
                   ("entry_hash", JStr (Logger.entry_hash entry)) ])
        (Logger.log_chain (logger self)) in
  let tool_info :=
    [ ("name", JStr "VeriWipe");
      ("version", JStr "1.0.0");
      ("build_hash", JStr "development");
      ("signer_fingerprint",
        JStr (get_public_key_fingerprint (signer self))) ] in
  let compliance_info :=
    [ ("standards", JList [JStr "NIST SP 800-88"]);
      ("method_classification",
        JStr (_get_nist_classification (method wipe_operation)));
      ("verification_level",
        JStr (match WipeCore.verification_hashes wipe_operation with
              | [] => "None"
              | _ => "Basic"
              end)) ] in
  {| certificate_id := uuid;
     timestamp := now_iso;
     device_info := device_info;
     wipe_operation := wipe_op_data;
     verification_hashes :=
       map (fun kv => (fst kv, JStr (snd kv)))
           (WipeCore.verification_hashes wipe_operation);
     operation_log := operation_log;
     tool_info := tool_info;
     compliance_info := compliance_info;
     signature := "";
     blockchain_anchor := None |}.

(** The canonical form: the dictionary without [signature] and
    [blockchain_anchor], keys sorted, compact separators. *)
Definition canonical_json (cert_dict : list (string * json)) : string :=
  dumps (JDict (dict_pop "blockchain_anchor" (dict_pop "signature" cert_dict))).

Definition _sign_certificate (self : CertificateGenerator) (nonce : Z)
    (certificate_data : CertificateData) : result string :=
  sign_data (signer self) nonce (canonical_json (asdict certificate_data)).

(** What one [generate_certificate] call takes from outside: the random
    and clock values it draws, and the exceptions of the three steps
    whose outcome is not computed here.  [prepare_fault] is an exception
    raised in [_prepare_certificate_data], such as the [AttributeError]
    of [serial.encode()] for a device that carries [None] as its serial,
    which the record [DeviceInfo] cannot hold; [json_fault] is one raised
    by [open] or [json.dump] in [_generate_json_certificate]; [pdf_fault]
    is one raised while the PDF is rendered. *)
Record Draws : Type := {
  log_time_1 : Q; log_uuid_1 : string;
  cert_uuid : string; cert_now_iso : string;
  sign_nonce : Z;
  log_time_2 : Q; log_uuid_2 : string;
  prepare_fault : option string;
  json_fault : option string;
  pdf_fault : option string
}.

(** [generate_certificate(wipe_operation, output_dir)]: the JSON document
    written to the certificate file, and the generator afterwards.  An
    exception of a step leaves the function: the first log entry has been
    appended by then, the second has not.  The content of the PDF is not
    modelled. *)
Definition generate_certificate (self : CertificateGenerator) (dr : Draws)
    (wipe_operation : WipeOperation) (output_dir : string)
  : result json * CertificateGenerator :=
  let (_, logger1) :=
    Logger.add_entry (logger self) (log_time_1 dr) (log_uuid_1 dr)
      ("Starting certificate generation for "
       ++ device_path (WipeCore.device_info wipe_operation)) "INFO" in
  let self1 := {| logger := logger1; signer := signer self |} in
  match prepare_fault dr with
  | Some e => (Exc e, self1)
  | None =>
      let certificate_data :=
        _prepare_certificate_data self1 (cert_uuid dr) (cert_now_iso dr)
                                  wipe_operation in
      match _sign_certificate self1 (sign_nonce dr) certificate_data with
      | Exc e => (Exc e, self1)
      | Ok s =>
          let certificate_data := with_signature certificate_data s in
          let json_path :=
            path_join output_dir
              ("veriwipe_certificate_" ++ certificate_id certificate_data
               ++ ".json") in
          match json_fault dr with
          | Some e => (Exc e, self1)
          | None =>
              let pdf_path :=
                path_join output_dir
                  ("veriwipe_certificate_" ++ certificate_id certificate_data
                   ++ ".pdf") in
              match pdf_fault dr with
              | Some e => (Exc e, self1)
              | None =>
                  let (_, logger2) :=
                    Logger.add_entry logger1 (log_time_2 dr) (log_uuid_2 dr)
                      ("Certificate generation completed: " ++ json_path
                       ++ ", " ++ pdf_path) "INFO" in
                  (Ok (JDict (asdict certificate_data)),
                   {| logger := logger2; signer := signer self |})
              end
          end
      end
  end.

(** [verify_certificate(certificate_path)]; [file] is what
    [json.load(f)] yields for the file, a value or an exception. *)
Definition verify_certificate (self : CertificateGenerator)
    (file : result json) : report :=
  match file with
  | Exc e => ReportError e
  | Ok (JDict cert_data) =>
      let signature :=
        match dict_get "signature" cert_data with
        | Some s => s
        | None => JStr ""
        end in
      let blockchain_anchor :=
        dict_get "blockchain_anchor" (dict_pop "signature" cert_data) in
      let cert_data' :=
        dict_pop "blockchain_anchor" (dict_pop "signature" cert_data) in
      let signature_valid :=
        verify_signature (signer self) (dumps (JDict cert_data')) signature in
      match dict_get "tool_info" cert_data' with
      | None =>
          Report signature_valid
                 (dict_get "certificate_id" cert_data')
                 (dict_get "timestamp" cert_data')
                 None blockchain_anchor
      | Some (JDict tool_info) =>
          Report signature_valid
                 (dict_get "certificate_id" cert_data')
                 (dict_get "timestamp" cert_data')
                 (dict_get "signer_fingerprint" tool_info)
                 blockchain_anchor
      | Some _ => ReportError "object has no attribute 'get'"
      end
  | Ok _ => ReportError "object has no attribute 'pop'"
  end.

End WithPrimitives.

End Cert.

(* ================================================================== *)
(** * The selector of the specification *)
(* ================================================================== *)

(** Section 3 and section 4.2 of the specification, in its own words: the
    device facts the selector reads and the rule ladder. *)
Module Spec.

Inductive media_class : Type :=
| hdd | ssd_sata | ssd_nvme | emmc | usb | unknown.

Inductive encryption : Type :=
| enc_none | luks | bitlocker | enc_unknown.

Inductive WipeStrategy : Type :=
| ata_secure_erase
| nvme_secure_erase
| nvme_crypto_erase
| crypto_erase_luks
| multipass_overwrite
| single_pass_random
| factory_reset.

Record DeviceFacts : Type := {
  media : media_class;
  encrypted : encryption;
  supports_secure_erase : bool
}.

Definition select (facts : DeviceFacts) : WipeStrategy :=
  match encrypted facts with
  | luks | bitlocker => crypto_erase_luks
  | enc_none | enc_unknown =>
      match media facts with
      | ssd_nvme =>
          if supports_secure_erase facts
          then nvme_secure_erase else nvme_crypto_erase
      | ssd_sata | emmc =>
          if supports_secure_erase facts
          then ata_secure_erase else single_pass_random
      | hdd =>
          if supports_secure_erase facts
          then ata_secure_erase else multipass_overwrite
      | usb | unknown => single_pass_random
      end
  end.

End Spec.

(** How the program's values read as the specification's. *)
Definition media_of (t : DeviceType) : Spec.media_class :=
  match t with
  | HDD => Spec.hdd | SSD_SATA => Spec.ssd_sata | SSD_NVME => Spec.ssd_nvme
  | EMMC => Spec.emmc | USB => Spec.usb | UNKNOWN => Spec.unknown
  end.

Definition encryption_of (s : string) : Spec.encryption :=
  if String.eqb s "LUKS" then Spec.luks
  else if String.eqb s "BitLocker" then Spec.bitlocker
  else if String.eqb s "None" then Spec.enc_none
  else Spec.enc_unknown.

Definition facts_of (d : DeviceInfo) : Spec.DeviceFacts :=
  {| Spec.media := media_of (device_type d);
     Spec.encrypted := encryption_of (encryption_status d);
     Spec.supports_secure_erase := secure_erase_supported d |}.

Definition strategy_of (m : WipeMethod) : Spec.WipeStrategy :=
  match m with
  | ATA_SECURE_ERASE => Spec.ata_secure_erase
  | NVME_SECURE_ERASE => Spec.nvme_secure_erase
  | NVME_CRYPTO_ERASE => Spec.nvme_crypto_erase
  | MULTIPASS_OVERWRITE => Spec.multipass_overwrite
  | SINGLE_PASS_RANDOM => Spec.single_pass_random
  | CRYPTO_ERASE => Spec.crypto_erase_luks
  | FACTORY_RESET => Spec.factory_reset
  end.

(** What the classifier of an engine answers on a device, if there is a
    classifier. *)
Definition prediction (self : AIWipeEngine) (d : DeviceInfo)
  : option (result Z) :=
  match method_selector self with
  | Some clf => Some (predict clf (method_features self d))
  | None => None
  end.

(** The engine has no classifier, or the call raises, or the label is no
    index into [list(WipeMethod)]. *)
Definition no_usable_prediction (self : AIWipeEngine) (d : DeviceInfo)
  : Prop :=
  match prediction self d with
  | None => True
  | Some (Exc _) => True
  | Some (Ok p) => p < 0 \/ 7 <= p
  end.

(* ================================================================== *)
(** * Concrete devices, engines and worlds *)
(* ================================================================== *)

Module Examples.

(** A 256 GB SATA hard disk with secure erase, not encrypted. *)
Definition disk : DeviceInfo :=
  {| device_path := "/dev/sdb"; device_type := HDD;
     model := "WDC WD2500"; serial := "WD-1234";
     size_gb := 256; interface := "sata";
     encryption_status := "None"; hpa_dco_present := false;
     secure_erase_supported := true; features := [] |}.

(** A process-wide string hash, and a second one of another process. *)
Definition hash_a (s : string) : Z := Z.of_nat (String.length s).
Definition hash_b (s : string) : Z := Z.of_nat (String.length s) + 1.

(** No model file and no scikit-learn: the selector is [None]. *)
Definition engine_rules : AIWipeEngine :=
  {| method_selector := None; py_hash := hash_a |}.

(** Two fitted forests that differ in their training data: on this
    device one votes for class 6, the other for class 0. *)
Definition forest_6 : Classifier := {| predict := fun _ => Ok 6 |}.
Definition forest_0 : Classifier := {| predict := fun _ => Ok 0 |}.

(** A forest that splits on the first feature, the hashed device type. *)
Definition forest_split : Classifier :=
  {| predict := fun x =>
       match x with
       | f0 :: _ => if Qle_bool f0 3 then Ok 4 else Ok 3
       | [] => Exc "empty feature vector"
       end |}.

Definition engine_6 : AIWipeEngine :=
  {| method_selector := Some forest_6; py_hash := hash_a |}.
Definition engine_0 : AIWipeEngine :=
  {| method_selector := Some forest_0; py_hash := hash_a |}.
Definition engine_split_a : AIWipeEngine :=
  {| method_selector := Some forest_split; py_hash := hash_a |}.
Definition engine_split_b : AIWipeEngine :=
  {| method_selector := Some forest_split; py_hash := hash_b |}.

End Examples.

(* ================================================================== *)
(** * Relations between the states of an operation *)
(* ================================================================== *)

(** A computation keeps a relation between the state before and after. *)
Definition keeps {A : Type} (R : Run -> Run -> Prop) (c : M A) : Prop :=
  forall r, R r (snd (c r)).

(** The fields no wipe method touches. *)
Definition frame (r r' : Run) : Prop :=
  WipeCore.device_info (op r') = WipeCore.device_info (op r)
  /\ method (op r') = method (op r)
  /\ status (op r') = status (op r)
  /\ error_message (op r') = error_message (op r)
  /\ start_time (op r') = start_time (op r)
  /\ end_time (op r') = end_time (op r).

(** The fields the phases never touch. *)
Definition frame0 (r r' : Run) : Prop :=
  WipeCore.device_info (op r') = WipeCore.device_info (op r)
  /\ method (op r') = method (op r)
  /\ status (op r') = status (op r)
  /\ start_time (op r') = start_time (op r)
  /\ end_time (op r') = end_time (op r).

(** The error texts for which the diagnosis offers an alternative method
    with a confidence above the threshold of [execute_wipe]. *)
Definition unsupported_error (e : string) : bool :=
  let l := lower e in
  (negb (str_in "permission denied" l)
   && negb (str_in "device busy" l || str_in "resource busy" l)
   && str_in "not supported" l)%bool.

(** [execute_wipe] between its first two assignments and the [try]. *)
Definition started (w : World) (r : Run) : Run :=
  snd ((set_start_time (clock_start w) ;; set_status IN_PROGRESS)%wipe r).

(** The same world with other device contents. *)
Definition with_read_at (w : World) (f : Z -> result (list byte)) : World :=
  {| clock_start := clock_start w; clock_end := clock_end w;
     path_exists := path_exists w; mount_stdout := mount_stdout w;
     unmount_done := unmount_done w; hpa_dco_done := hpa_dco_done w;
     pre_sample := pre_sample w; post_sample := post_sample w;
     ata_set_pass := ata_set_pass w; ata_erase := ata_erase w;
     nvme_list_ns := nvme_list_ns w; nvme_format := nvme_format w;
     nvme_crypto_format := nvme_crypto_format w;
     luks_erase := luks_erase w; dd := dd w;
     device_size := device_size w;
     overwrite_fault := overwrite_fault w;
     read_at := f;
     escaping := escaping w |}.

(** No exception leaves a phase. *)
Definition nothing_escapes (w : World) : Prop :=
  forall p n, escaping w p n = None.

Module Scenario.

(** A 256 GB SATA solid-state drive with secure erase (scenario 3 of the
    specification). *)
Definition ssd : DeviceInfo :=
  {| device_path := "/dev/sdc"; device_type := SSD_SATA;
     model := "Samsung SSD 850"; serial := "S21N-0001";
     size_gb := 256; interface := "sata";
     encryption_status := "None"; hpa_dco_present := false;
     secure_erase_supported := true; features := [] |}.

(** A 512 MB USB stick. *)
Definition stick : DeviceInfo :=
  {| device_path := "/dev/sdd"; device_type := USB;
     model := "Flash Disk"; serial := "0001";
     size_gb := 1 # 2; interface := "usb";
     encryption_status := "None"; hpa_dco_present := false;
     secure_erase_supported := false; features := [] |}.


Definition core : WipeCoreObj :=
  {| ai_engine := Examples.engine_rules; current_operations := [] |}.

Definition fresh (d : DeviceInfo) : Run :=
  {| op := fst (prepare_wipe_operation core d);
     delivered := []; progress_writes := [] |}.

Definition quiet : popen_result :=
  {| polls := []; p_returncode := 0; p_stderr := "" |}.

(** A [dd] that is polled three times before it ends with success. *)
Definition dd_three_polls : popen_result :=
  {| polls := [5; 10; 15]%Q; p_returncode := 0; p_stderr := "" |}.

(** A device that reads back zeros everywhere; the tools answer as the
    arguments say and everything else succeeds. *)
Definition world (set_pass : run_result) (dd_run : popen_result)
    (exceptions : phase -> nat -> option string) : World :=
  {| clock_start := 1000; clock_end := 1600;
     path_exists := true;
     mount_stdout := Ok "/dev/sda1 on / type ext4 (rw)";
     unmount_done := Ok tt; hpa_dco_done := Ok tt;
     pre_sample := Ok "5f70bf18a086007016e948b04aed3b82";
     post_sample := Ok "30e14955ebf1352266dc2ff8067e6810";
     ata_set_pass := set_pass;
     ata_erase := Ok quiet;
     nvme_list_ns := RunDone 0 "";
     nvme_format := Ok quiet;
     nvme_crypto_format := RunDone 0 "";
     luks_erase := RunDone 0 "";
     dd := Ok dd_run;
     device_size := Ok (256 * 1024 * 1024 * 1024);
     overwrite_fault := fun _ => None;
     read_at := fun _ => Ok (repeat x00 512);
     escaping := exceptions |}.

Definition no_exception : phase -> nat -> option string := fun _ _ => None.

(** The drive refuses the security command: [hdparm] exits with 1. *)
Definition world_unsupported : World :=
  world (RunDone 1 "security-set-pass: Operation not supported")
        quiet no_exception.


(** An exception leaves the sanitize phase on its first call. *)
Definition raising (e : string) : phase -> nat -> option string :=
  fun p n =>
    match p, n with
    | Sanitize, O => Some e
    | _, _ => None
    end.

Definition world_raises (e : string) : World :=
  world (RunDone 0 "") quiet (raising e).

Definition world_all_fine : World :=
  world (RunDone 0 "") dd_three_polls no_exception.

(** A sector of residual data: 512 bytes with 16 distinct values. *)
Definition residue : list byte :=
  List.concat (repeat [x00; x01; x02; x03; x04; x05; x06; x07;
                  x08; x09; x0a; x0b; x0c; x0d; x0e; x0f] 32).

(** Everything succeeds, but the device still holds the old data. *)
Definition world_residue : World :=
  with_read_at world_all_fine (fun _ => Ok residue).

End Scenario.

(** Pre-flight and sanitisation go through: no exception leaves a phase
    and both phase functions return [True]. *)
Definition sanitized (w : World) (r : Run) : Prop :=
  nothing_escapes w
  /\ fst (_pre_wipe_checks w (started w r)) = true
  /\ fst (_execute_wipe_method w (snd (_pre_wipe_checks w (started w r))))
     = true.

(* ================================================================== *)
(** * Tampering with the log *)
(* ================================================================== *)

(** Two texts of the same length that differ in exactly one byte. *)
Inductive one_byte_changed : string -> string -> Prop :=
| changed_here (c c' : ascii) (s : string) :
    c <> c' -> one_byte_changed (String c s) (String c' s)
| changed_later (c : ascii) (s s' : string) :
    one_byte_changed s s' -> one_byte_changed (String c s) (String c s').

Inductive log_field : Type :=
| F_message | F_timestamp | F_level | F_prev_hash.

Section LogTampering.
Context {HL : Hashlib} {FR : FloatRepr}.

(** [n] calls of [add_entry], each with its clock reading, identifier,
    message and level. *)
Definition append_all (start : Logger.TamperProofLogger)
    (appends : list (Q * string * string * string))
  : Logger.TamperProofLogger :=
  fold_left
    (fun lg a =>
       match a with
       | (now, uuid, message, level) =>
           snd (Logger.add_entry lg now uuid message level)
       end)
    appends start.

(** [e'] is [e] with one byte of one field changed; every other field,
    the stored [entry_hash] among them, is as before.  The bytes of the
    timestamp are those of its text. *)
Definition tampered (f : log_field) (e e' : Logger.LogEntry) : Prop :=
  Logger.entry_id e' = Logger.entry_id e
  /\ Logger.entry_hash e' = Logger.entry_hash e
  /\ match f with
     | F_message =>
         one_byte_changed (Logger.message e) (Logger.message e')
         /\ Logger.timestamp e' = Logger.timestamp e
         /\ Logger.level e' = Logger.level e
         /\ Logger.previous_hash e' = Logger.previous_hash e
     | F_timestamp =>
         one_byte_changed (float_repr (Logger.timestamp e))
                          (float_repr (Logger.timestamp e'))
         /\ Logger.message e' = Logger.message e
         /\ Logger.level e' = Logger.level e
         /\ Logger.previous_hash e' = Logger.previous_hash e
     | F_level =>
         one_byte_changed (Logger.level e) (Logger.level e')
         /\ Logger.timestamp e' = Logger.timestamp e
         /\ Logger.message e' = Logger.message e
         /\ Logger.previous_hash e' = Logger.previous_hash e
     | F_prev_hash =>
         one_byte_changed (Logger.previous_hash e) (Logger.previous_hash e')
         /\ Logger.timestamp e' = Logger.timestamp e
         /\ Logger.message e' = Logger.message e
         /\ Logger.level e' = Logger.level e
     end.

(** The two hashed texts are no SHA-256 collision. *)
Definition no_collision (e e' : Logger.LogEntry) : Prop :=
  sha256_hex (Logger.hash_data e') = sha256_hex (Logger.hash_data e) ->
  Logger.hash_data e' = Logger.hash_data e.

End LogTampering.

(** The hash the next link has to carry. *)
Fixpoint tail_from (expected : string) (chain : list Logger.LogEntry) : string :=
  match chain with
  | [] => expected
  | e :: rest => tail_from (Logger.entry_hash e) rest
  end.


(* ================================================================== *)
(** * Stand-ins for the library primitives *)
(* ================================================================== *)

(** To run the certificate functions on concrete inputs the primitives
    need values.  These stand-ins keep the laws the libraries have (a
    digest of 64 characters would only shorten the texts below). *)
Module StandIn.

Fixpoint fraction_digits (fuel : nat) (rem d : Z) : string :=
  match fuel with
  | O => ""
  | S fuel' =>
      if rem =? 0 then ""
      else z_str (rem * 10 / d) ++ fraction_digits fuel' (rem * 10 mod d) d
  end.

(** Fixed-point decimal text, as [repr] prints a float of moderate size
    with a short expansion: [256.0], [0.5], [1000.25]. *)
Definition decimal_repr (q : Q) : string :=
  let n := Qnum (Qred q) in
  let d := Zpos (Qden (Qred q)) in
  let a := Z.abs n in
  (if n <? 0 then "-" else "")
  ++ z_str (a / d) ++ "."
  ++ (if a mod d =? 0 then "0" else fraction_digits 17 (a mod d) d).

Definition float_repr_decimal : FloatRepr :=
  {| float_repr := decimal_repr |}.

(** A digest that is the text itself between two marks. *)
Definition hashlib_plain : Hashlib :=
  {| sha256_hex := fun s => "sha256(" ++ s ++ ")" |}.

Definition base64_plain : Base64 :=
  {| b64encode := fun s => s; b64decode := fun s => Some s |}.

(** A signature that is the key and the signed text. *)
Definition ecdsa_plain : Ecdsa :=
  {| private_key_t := string;
     public_key_t := string;
     public_key_of := fun sk => sk;
     public_bytes_der := fun pk => pk;
     ec_sign := fun sk _ data => sk ++ ":" ++ data;
     ec_verify := fun pk sig data => String.eqb sig (pk ++ ":" ++ data) |}.

End StandIn.

(** A log of two entries and a tampered copy of its first entry. *)
Module LogExample.

Definition two_appends : list (Q * string * string * string) :=
  [ (1700000000, "3f2b8c1e-0001", "Wipe started", "INFO");
    (1700000600 + (1 # 2), "3f2b8c1e-0002", "Wipe completed", "INFO") ]%Q.

Definition chain : list Logger.LogEntry :=
  Logger.log_chain
    (append_all (HL := StandIn.hashlib_plain)
                (FR := StandIn.float_repr_decimal)
                {| Logger.log_chain := [] |} two_appends).

Definition first_entry : Logger.LogEntry :=
  Eval vm_compute in
    nth 0 chain (Logger.Build_LogEntry 0 "" "" "" "" "").

Definition second_entry : Logger.LogEntry :=
  Eval vm_compute in
    nth 1 chain (Logger.Build_LogEntry 0 "" "" "" "" "").

(** The message reads "Wipe startad" instead of "Wipe started". *)
Definition first_entry_tampered : Logger.LogEntry :=
  {| Logger.timestamp := Logger.timestamp first_entry;
     Logger.entry_id := Logger.entry_id first_entry;
     Logger.message := "Wipe startad";
     Logger.level := Logger.level first_entry;
     Logger.previous_hash := Logger.previous_hash first_entry;
     Logger.entry_hash := Logger.entry_hash first_entry |}.

End LogExample.

(** A generator over the stand-ins, a completed operation, and the draws
    of two builds. *)
Module CertExample.

#[local] Existing Instance StandIn.hashlib_plain.
#[local] Existing Instance StandIn.float_repr_decimal.
#[local] Existing Instance StandIn.base64_plain.
#[local] Existing Instance StandIn.ecdsa_plain.

Definition signer : Cert.CryptographicSigner :=
  {| Cert.private_key := Some "key-1"; Cert.public_key := Some "key-1" |}.

Definition generator : Cert.CertificateGenerator :=
  {| Cert.logger := {| Logger.log_chain := LogExample.chain |};
     Cert.signer := signer |}.

(** The operation of the module's self-test: a completed secure erase. *)
Definition operation : WipeOperation :=
  {| WipeCore.device_info := Scenario.ssd;
     method := ATA_SECURE_ERASE;
     start_time := Some 1700000000%Q;
     end_time := Some 1700000300%Q;
     status := COMPLETED;
     progress := 100;
     error_message := None;
     operation_log := [];
     WipeCore.verification_hashes :=
       [ ("pre_wipe_sample", "abc123"); ("post_wipe_sample", "def456") ] |}.

Definition draws_1 : Cert.Draws :=
  {| Cert.log_time_1 := 1700000301; Cert.log_uuid_1 := "3f2b8c1e-0003";
     Cert.cert_uuid := "9a1c0000-0000-4000-8000-000000000001";
     Cert.cert_now_iso := "2023-11-14T22:18:21+00:00";
     Cert.sign_nonce := 17;
     Cert.log_time_2 := 1700000302; Cert.log_uuid_2 := "3f2b8c1e-0004";
     Cert.prepare_fault := None; Cert.json_fault := None;
     Cert.pdf_fault := None |}.

(** A second build from the same state: it draws its own identifiers. *)
Definition draws_2 : Cert.Draws :=
  {| Cert.log_time_1 := 1700000301; Cert.log_uuid_1 := "3f2b8c1e-0003";
     Cert.cert_uuid := "9a1c0000-0000-4000-8000-000000000002";
     Cert.cert_now_iso := "2023-11-14T22:18:21+00:00";
     Cert.sign_nonce := 17;
     Cert.log_time_2 := 1700000302; Cert.log_uuid_2 := "3f2b8c1e-0004";
     Cert.prepare_fault := None; Cert.json_fault := None;
     Cert.pdf_fault := None |}.

(** A build that repeats the draws that enter the certificate and differs
    in the others. *)
Definition draws_3 : Cert.Draws :=
  {| Cert.log_time_1 := 1700000301; Cert.log_uuid_1 := "3f2b8c1e-0003";
     Cert.cert_uuid := "9a1c0000-0000-4000-8000-000000000001";
     Cert.cert_now_iso := "2023-11-14T22:18:21+00:00";
     Cert.sign_nonce := 99;
     Cert.log_time_2 := 1700000400; Cert.log_uuid_2 := "3f2b8c1e-0005";
     Cert.prepare_fault := None; Cert.json_fault := None;
     Cert.pdf_fault := None |}.

(** The dictionary of a generated document. *)
Definition document (dr : Cert.Draws) : list (string * json) :=
  match fst (Cert.generate_certificate generator dr operation "/tmp") with
  | Ok (JDict d) => d
  | _ => []
  end.

End CertExample.

(* ================================================================== *)
(** * Reading a canonical form back *)
(* ================================================================== *)

Fixpoint string_forallb (p : ascii -> bool) (s : string) : bool :=
  match s with
  | EmptyString => true
  | String c s' => (p c && string_forallb p s')%bool
  end.

Definition is_digit (c : ascii) : bool :=
  let n := nat_of_ascii c in (Nat.leb 48 n && Nat.leb n 57)%bool.

(** The characters of an integer literal. *)
Definition int_char (c : ascii) : bool :=
  (is_digit c || Ascii.eqb c "-")%bool.

(** The characters of a float as [json.dumps] prints it: digits, signs,
    the point, the exponent mark, and the letters of [NaN] and
    [Infinity]. *)
Definition float_char (c : ascii) : bool :=
  existsb (Ascii.eqb c) (list_ascii_of_string "0123456789+-.eINaftiy").

(** A text that can be the [repr] of a float: not empty, made of float
    characters, and not an integer literal. *)
Definition float_text (t : string) : bool :=
  (negb (String.eqb t "")
   && string_forallb float_char t
   && negb (string_forallb int_char t))%bool.

(** Every float of the value is held by such a text. *)
Fixpoint wf_json (v : json) : bool :=
  match v with
  | JFloat t => float_text t
  | JList l =>
      (fix all (l : list json) : bool :=
         match l with
         | [] => true
         | x :: r => (wf_json x && all r)%bool
         end) l
  | JDict d =>
      (fix all (d : list (string * json)) : bool :=
         match d with
         | [] => true
         | (_, x) :: r => (wf_json x && all r)%bool
         end) d
  | _ => true
  end.

(** The characters that end a value inside a list or a dictionary. *)
Definition delim (c : ascii) : bool :=
  (Ascii.eqb c "," || Ascii.eqb c "]" || Ascii.eqb c "}")%bool.

(** The characters of [null], [true], [false] and the numbers: no
    delimiter and no opening mark of a string, list or dictionary. *)
Definition tok_char (c : ascii) : bool :=
  negb (delim c || Ascii.eqb c quote || Ascii.eqb c "[" || Ascii.eqb c "{")%bool.

Definition starts_delim (r : string) : Prop :=
  match r with
  | EmptyString => True
  | String c _ => delim c = true
  end.

Definition hex_value (c : ascii) : option nat :=
  (fix find (n : nat) (l : list ascii) : option nat :=
     match l with
     | [] => None
     | h :: l' => if Ascii.eqb c h then Some n else find (S n) l'
     end) O (list_ascii_of_string "0123456789abcdef").

(** The inverse of [escape_char] at the head of a text; a bare quote ends
    the string and decodes to nothing. *)
Definition unescape_head (s : string) : option (ascii * string) :=
  match s with
  | EmptyString => None
  | String c rest =>
      if Ascii.eqb c quote then None
      else if Ascii.eqb c backslash then
        match rest with
        | String e rest' =>
            if Ascii.eqb e quote then Some (quote, rest')
            else if Ascii.eqb e backslash then Some (backslash, rest')
            else if Ascii.eqb e "n" then Some (ascii_of_nat 10, rest')
            else if Ascii.eqb e "r" then Some (ascii_of_nat 13, rest')
            else if Ascii.eqb e "t" then Some (ascii_of_nat 9, rest')
            else if Ascii.eqb e "b" then Some (ascii_of_nat 8, rest')
            else if Ascii.eqb e "f" then Some (ascii_of_nat 12, rest')
            else if Ascii.eqb e "u" then
              match rest' with
              | String _ (String _ (String h (String l rest''))) =>
                  match hex_value h, hex_value l with
                  | Some a, Some b => Some (ascii_of_nat (16 * a + b), rest'')
                  | _, _ => None
                  end
              | _ => None
              end
            else None
        | EmptyString => None
        end
      else Some (c, rest)
  end.

(** The text of a value that is neither a string, a list nor a
    dictionary. *)
Definition scalar_text (v : json) : option string :=
  match v with
  | JNull => Some "null"
  | JBool true => Some "true"
  | JBool false => Some "false"
  | JInt z => Some (z_str z)
  | JFloat t => Some t
  | _ => None
  end.

(** Induction over JSON values, through lists and dictionaries. *)
Section JsonInduction.
Variable P : json -> Prop.
Hypothesis Hnull : P JNull.
Hypothesis Hbool : forall b, P (JBool b).
Hypothesis Hint : forall z, P (JInt z).
Hypothesis Hfloat : forall t, P (JFloat t).
Hypothesis Hstr : forall s, P (JStr s).
Hypothesis Hlist : forall l, Forall P l -> P (JList l).
Hypothesis Hdict : forall d, Forall (fun kv => P (snd kv)) d -> P (JDict d).

Fixpoint json_induction (v : json) : P v :=
  match v with
  | JNull => Hnull
  | JBool b => Hbool b
  | JInt z => Hint z
  | JFloat t => Hfloat t
  | JStr s => Hstr s
  | JList l =>
      Hlist
        ((fix go (l : list json) : Forall P l :=
            match l with
            | [] => Forall_nil P
            | x :: r => Forall_cons x (json_induction x) (go r)
            end) l)
  | JDict d =>
      Hdict
        ((fix go (d : list (string * json))
            : Forall (fun kv => P (snd kv)) d :=
            match d with
            | [] => Forall_nil _
            | kv :: r =>
                Forall_cons kv (json_induction (snd kv)) (go r)
            end) d)
  end.

End JsonInduction.

(** The keys of a certificate that enter its canonical form. *)
Definition signed_key (k : string) : Prop :=
  k <> "signature" /\ k <> "blockchain_anchor".

(** The four ways a canonical form can begin. *)
Definition shape (v : json) : nat :=
  match v with
  | JStr _ => 1
  | JList _ => 2
  | JDict _ => 3
  | _ => 0
  end%nat.

Definition head_class (c : ascii) : nat :=
  (if Ascii.eqb c quote then 1
   else if Ascii.eqb c "[" then 2
   else if Ascii.eqb c "{" then 3
   else 0)%nat.

(** Items separated by commas and closed by a bracket. *)
Section ItemSequences.
Variables (A B : Type) (render : A -> string) (N : A -> B) (ok : A -> Prop).
Variable close : ascii.

(** An item can be read back from the front of a text: what is read
    determines the item, up to [N], and the rest. *)
Definition readable (x : A) : Prop :=
  forall y r1 r2,
    ok y -> starts_delim r1 -> starts_delim r2 ->
    render x ++ r1 = render y ++ r2 -> N x = N y /\ r1 = r2.

(** What follows the first item. *)
Definition tail_text (l : list A) (r : string) : string :=
  match l with
  | [] => String close r
  | _ => String "," (String.concat "," (map render l) ++ String close r)
  end.

End ItemSequences.

(** An item of a dictionary as it is printed, and as it is compared. *)
Definition render_pair (kv : string * json) : string :=
  encode_str (fst kv) ++ ":" ++ dumps (snd kv).

Definition norm_pair (kv : string * json) : string * json :=
  (fst kv, norm (snd kv)).


(** Scenario 4 of the specification: the certificate of [CertExample]
    with one character of the device model changed. *)
Module TamperExample.

Definition device_info : json :=
  match dict_get "device_info" (CertExample.document CertExample.draws_1) with
  | Some v => v
  | None => JNull
  end.

Definition device_info_tampered : json :=
  match device_info with
  | JDict d => JDict (dict_set "model" (JStr "Samsung SSD 851") d)
  | v => v
  end.

Definition verifier : Cert.CertificateGenerator
                        (EC := StandIn.ecdsa_plain) :=
  {| Cert.logger := {| Logger.log_chain := [] |};
     Cert.signer := CertExample.signer |}.

End TamperExample.

(* ================================================================== *)
(** * Progress *)
(* ================================================================== *)

(** A percentage. *)
Definition pct (p : Q) : Prop := (0 <= p /\ p <= 100)%Q.

(** The progress values of callback invocations. *)
Definition values (ds : list (string * Q * string)) : list Q :=
  map (fun t => snd (fst t)) ds.

(** [a <= p1 <= ... <= pn] and [pn] is [b] ([a] is [b] when there is no
    [p]). *)
Fixpoint ascending (a : Q) (ps : list Q) (b : Q) : Prop :=
  match ps with
  | [] => a = b
  | p :: ps' => (a <= p)%Q /\ ascending p ps' b
  end.

Fixpoint nondecreasing (l : list Q) : Prop :=
  match l with
  | a :: ((b :: _) as rest) => (a <= b)%Q /\ nondecreasing rest
  | _ => True
  end.

(** The clock does not run backwards while a tool is polled. *)
Definition clock_sane (w : World) : Prop :=
  (forall p, ata_erase w = Ok p -> Forall (fun e => 0 <= e)%Q (polls p))
  /\ (forall p, nvme_format w = Ok p -> Forall (fun e => 0 <= e)%Q (polls p)).

(** From [r] to [r'] the device is the same, the stored progress does not
    decrease and stays a percentage, and the callbacks received
    percentages. *)
Definition progresses (d : DeviceInfo) (r r' : Run) : Prop :=
  WipeCore.device_info (op r) = d -> pct (progress (op r)) ->
  WipeCore.device_info (op r') = d
  /\ pct (progress (op r'))
  /\ exists ds ps,
       delivered r' = (delivered r ++ ds)%list
       /\ Forall pct (values ds)
       /\ progress_writes r' = (progress_writes r ++ ps)%list
       /\ ascending (progress (op r)) ps (progress (op r')).

(* ================================================================== *)
(** * What an execution keeps of an operation *)
(* ================================================================== *)

(** The operation is about the same device and its log has only grown:
    what was logged before is still there, in the same order. *)
Definition log_grows (r r' : Run) : Prop :=
  WipeCore.device_info (op r') = WipeCore.device_info (op r)
  /\ exists added,
       operation_log (op r') = (operation_log (op r) ++ added)%list.

(** The run that [execute_wipe] starts for an operation taken from
    [current_operations]. *)
Definition run_of (o : WipeOperation) : Run :=
  {| op := o; delivered := []; progress_writes := [] |}.

(** The three results of [execute_wipe], by name. *)
Definition returned {A B C : Type} (x : A * B * C) : A := fst (fst x).
Definition core_after {A B C : Type} (x : A * B * C) : B := snd (fst x).
Definition notified {A B C : Type} (x : A * B * C) : C := snd x.

(** [self.current_operations.get(device_path)] *)
Definition operation_of (self : WipeCoreObj) (device_path : string)
  : option WipeOperation :=
  dict_get device_path (current_operations self).

(** Pre-flight goes through in this world: the device node exists and, if
    the device is mounted, the unmount helper does not raise. *)
Definition preflight_passes (w : World) (device_path : string) : bool :=
  (path_exists w
   && (negb (_is_device_mounted w device_path) || _unmount_device w))%bool.

(** Devices and engines for the cases below. *)
Module Cases.

(** A 500 GB hard disk that carries a BitLocker volume. *)
Definition bitlocker_disk : DeviceInfo :=
  {| device_path := "/dev/sdf"; device_type := HDD;
     model := "TOSHIBA MQ01ABF050"; serial := "Y5-0003";
     size_gb := 500; interface := "sata";
     encryption_status := "BitLocker"; hpa_dco_present := false;
     secure_erase_supported := true; features := [] |}.

(** A disk that [lsblk] listed with its size in bytes: the size parser
    found no unit and returned 0.0. *)
Definition unsized_disk : DeviceInfo :=
  {| device_path := "/dev/sdg"; device_type := SSD_SATA;
     model := "CT500MX500SSD1"; serial := "1904-0004";
     size_gb := 0; interface := "sata";
     encryption_status := "None"; hpa_dco_present := false;
     secure_erase_supported := true; features := [] |}.

(** The engine whose forest votes for class 6, in a core without
    prepared operations. *)
Definition core_6 : WipeCoreObj :=
  {| ai_engine := Examples.engine_6; current_operations := [] |}.

(** A secure erase that is still running when it is polled after five
    seconds, and then ends with success. *)
Definition erase_polled_once : popen_result :=
  {| polls := [5]%Q; p_returncode := 0; p_stderr := "" |}.

Definition world_erase_polled : World :=
  {| clock_start := 1000; clock_end := 1600;
     path_exists := true;
     mount_stdout := Ok "/dev/sda1 on / type ext4 (rw)";
     unmount_done := Ok tt; hpa_dco_done := Ok tt;
     pre_sample := Ok "5f70bf18a086007016e948b04aed3b82";
     post_sample := Ok "30e14955ebf1352266dc2ff8067e6810";
     ata_set_pass := RunDone 0 "";
     ata_erase := Ok erase_polled_once;
     nvme_list_ns := RunDone 0 "";
     nvme_format := Ok erase_polled_once;
     nvme_crypto_format := RunDone 0 "";
     luks_erase := RunDone 0 "";
     dd := Ok Scenario.quiet;
     device_size := Ok 0;
     overwrite_fault := fun _ => None;
     read_at := fun _ => Ok (repeat x00 512);
     escaping := Scenario.no_exception |}.

End Cases.

(** If the pre-wipe sample hash is [h] before, it is [h] afterwards. *)
Definition pre_sample_kept (h : string) (r r' : Run) : Prop :=
  dict_get "pre_wipe_sample" (WipeCore.verification_hashes (op r)) = Some h ->
  dict_get "pre_wipe_sample" (WipeCore.verification_hashes (op r')) = Some h.

(** The entry of ["verification_level"] in the compliance section of a
    certificate. *)
Definition verification_level (c : Cert.CertificateData) : option json :=
  dict_get "verification_level" (Cert.compliance_info c).

(** The same certificate with another anchor. *)
Definition with_anchor (doc : list (string * json)) (anchor : json)
  : list (string * json) :=
  dict_set "blockchain_anchor" anchor doc.

(** A report with another anchor. *)
Definition report_with_anchor (r : Cert.report) (anchor : json)
  : Cert.report :=
  match r with
  | Cert.Report v c t f _ => Cert.Report v c t f (Some anchor)
  | Cert.ReportError e => Cert.ReportError e
  end.

(* ================================================================== *)
(** * certificate_generator.py: the summary of the log *)
(* ================================================================== *)

(** The dictionary returned by [get_log_summary]. *)
Record LogSummary : Type := {
  total_entries : Z;
  first_entry_timestamp : option Q;
  last_entry_timestamp : option Q;
  chain_hash : string;
  integrity_verified : bool
}.

Definition get_log_summary {HL : Hashlib} {FR : FloatRepr}
    (self : Logger.TamperProofLogger) : LogSummary :=
  {| total_entries := Z.of_nat (List.length (Logger.log_chain self));
     first_entry_timestamp :=
       match Logger.log_chain self with
       | [] => None
       | e :: _ => Some (Logger.timestamp e)
       end;
     last_entry_timestamp :=
       match rev (Logger.log_chain self) with
       | [] => None
       | e :: _ => Some (Logger.timestamp e)
       end;
     chain_hash :=
       match rev (Logger.log_chain self) with
       | [] => Logger.genesis_hash
       | e :: _ => Logger.entry_hash e
       end;
     integrity_verified := Logger.verify_chain_integrity self |}.

(* ================================================================== *)
(** * wipe_engine.py: what an overwrite pass writes *)
(* ================================================================== *)

Module Overwrite.

(** [pattern * n] on [bytes]. *)
Fixpoint bytes_mul (pattern : list byte) (n : nat) : list byte :=
  match n with
  | O => []
  | S n' => pattern ++ bytes_mul pattern n'
  end.

(** The argument of one [f.write]:
    [(pattern * (remaining // len(pattern) + 1))[:remaining]].  The
    division raises [ZeroDivisionError] for an empty pattern ([None]). *)
Definition chunk_of (pattern : list byte) (remaining : Z)
  : option (list byte) :=
  match pattern with
  | [] => None
  | _ =>
      Some (firstn (Z.to_nat remaining)
              (bytes_mul pattern
                 (Z.to_nat (remaining / Z.of_nat (List.length pattern) + 1))))
  end.

(** The arguments of [f.write] in the [while written < device_size] loop
    of [_overwrite_device], in order, when no write fails; [None] when
    the loop raises. *)
Fixpoint written_chunks (fuel : nat) (pattern : list byte)
    (device_size written : Z) : option (list (list byte)) :=
  if written <? device_size then
    match fuel with
    | O => Some []
    | S fuel' =>
        let remaining := Z.min chunk_size (device_size - written) in
        match chunk_of pattern remaining with
        | None => None
        | Some chunk =>
            match written_chunks fuel' pattern device_size
                                 (written + remaining) with
            | None => None
            | Some rest => Some (chunk :: rest)
            end
        end
    end
  else Some [].

(** What a pass leaves on the device: the file is opened with ['wb'] and
    written from its first byte on. *)
Definition overwrite_image (pattern : list byte) (device_size : Z)
  : option (list byte) :=
  match written_chunks (chunks_of device_size) pattern device_size 0 with
  | None => None
  | Some chunks => Some (List.concat chunks)
  end.

(** The patterns of [_multipass_overwrite] as the source spells them.
    Every backslash of the three literals is doubled, so a pattern is the
    text of an escape and not the byte it names: the first one is the
    four characters backslash, x, 0, 0. *)
Definition patterns : list (list byte) :=
  [ list_byte_of_string "\x00";
    list_byte_of_string "\xff";
    list_byte_of_string "\x92\x49\x24" ].

(** [f.seek(sector * 512); f.read(512)] on a device that holds [image]. *)
Definition read_sector (image : list byte) (sector : Z) : list byte :=
  firstn 512 (skipn (Z.to_nat (sector * 512)) image).

(** The test of [_verify_sector_wiped] on the data read:
    [len(set(data)) <= 2]. *)
Definition looks_wiped (data : list byte) : bool :=
  Nat.leb (List.length (nodup byte_eq_dec data)) 2.

(** A device of 1000 bytes after the third pass, and a world in which it
    reads back what was written. *)
Definition small_image : list byte :=
  match overwrite_image (list_byte_of_string "\x92\x49\x24") 1000 with
  | Some image => image
  | None => []
  end.

Definition world_after_third_pass : World :=
  with_read_at Scenario.world_all_fine
    (fun offset => Ok (firstn 512 (skipn (Z.to_nat offset) small_image))).

End Overwrite.

(* ================================================================== *)
(** * verification/: the two stand-alone verifiers *)
(* ================================================================== *)

(** [datetime.fromisoformat(s)] on a string: it returns ([true]) or
    raises [ValueError] ([false]). *)
Class IsoFormat : Type := {
  fromisoformat_ok : string -> bool
}.

Module Verification.

(** The truth value of a value loaded from JSON ([not x], [if x]).  A
    float is held by its [repr]; the two zeros print as [0.0] and
    [-0.0]. *)
Definition truthy (v : json) : bool :=
  match v with
  | JNull => false
  | JBool b => b
  | JInt z => negb (z =? 0)
  | JFloat t => negb (String.eqb t "0.0" || String.eqb t "-0.0")
  | JStr s => negb (String.eqb s "")
  | JList l => match l with [] => false | _ => true end
  | JDict d => match d with [] => false | _ => true end
  end.

(** [s.replace('Z', '+00:00')] *)
Fixpoint replace_Z (s : string) : string :=
  match s with
  | EmptyString => EmptyString
  | String c s' =>
      if Ascii.eqb c "Z" then "+00:00" ++ replace_Z s'
      else String c (replace_Z s')
  end.

(** [d.get(k, default)] *)
Definition get_or (d : list (string * json)) (k : string) (default : json)
  : json :=
  match dict_get k d with
  | Some v => v
  | None => default
  end.

Definition required_fields : list string :=
  [ "certificate_id"; "timestamp"; "device_info";
    "wipe_operation"; "tool_info"; "compliance_info" ].

(** ** cli_verifier.py *)

(** What [open] and [json.load] yield for the certificate path: one of
    the exceptions the function tells apart, or the loaded value. *)
Inductive loaded : Type :=
| FileNotFoundError
| JSONDecodeError
| OtherException (e : string)
| Loaded (v : json).

(** The dictionary [verify_certificate_simple] returns.  The constant
    note of the valid report is left out.  An exception that the
    interpreter raises inside the function (a value of the wrong type) is
    reported with the interpreter's text after "Verification error: ";
    that text is not modelled. *)
Inductive cli_report : Type :=
| CliValid (certificate_id timestamp : option json)
           (device_info wipe_operation tool_info compliance_info : json)
           (signature_present : bool)
| CliInvalid (error : string)
| CliTypeError.

Definition cli_valid (r : cli_report) : bool :=
  match r with
  | CliValid _ _ _ _ _ _ _ => true
  | _ => false
  end.

(** [field in cert_data]: membership in a dictionary is by key, in a list
    by element, in a string by substring; any other value is not a
    container and the test raises [TypeError] ([None]). *)
Definition py_contains (cert_data : json) (field : string) : option bool :=
  match cert_data with
  | JDict d =>
      Some (match dict_get field d with Some _ => true | None => false end)
  | JList l =>
      Some (existsb (fun x => match x with
                              | JStr s => String.eqb s field
                              | _ => false
                              end) l)
  | JStr s => Some (str_in field s)
  | _ => None
  end.

(** The loop that collects [missing_fields]. *)
Fixpoint missing_fields (cert_data : json) (fields : list string)
  : option (list string) :=
  match fields with
  | [] => Some []
  | field :: rest =>
      match py_contains cert_data field with
      | None => None
      | Some present =>
          match missing_fields cert_data rest with
          | None => None
          | Some missing =>
              Some (if present then missing else field :: missing)
          end
      end
  end.

Definition verify_certificate_simple {ISO : IsoFormat}
    (certificate_path : string) (file : loaded) : cli_report :=
  match file with
  | FileNotFoundError =>
      CliInvalid ("Certificate file not found: " ++ certificate_path)
  | JSONDecodeError => CliInvalid "Invalid JSON format"
  | OtherException e => CliInvalid ("Verification error: " ++ e)
  | Loaded cert_data =>
      match missing_fields cert_data required_fields with
      | None => CliTypeError
      | Some (m :: ms) =>
          CliInvalid ("Missing required fields: "
                      ++ String.concat ", " (m :: ms))
      | Some [] =>
          match cert_data with
          | JDict d =>
              match get_or d "timestamp" (JStr "") with
              | JStr timestamp =>
                  if negb (fromisoformat_ok (replace_Z timestamp)) then
                    CliInvalid "Invalid timestamp format"
                  else
                    let signature := get_or d "signature" (JStr "") in
                    if negb (truthy signature) then
                      CliInvalid "No digital signature found"
                    else
                      CliValid (dict_get "certificate_id" d)
                               (dict_get "timestamp" d)
                               (get_or d "device_info" (JDict []))
                               (get_or d "wipe_operation" (JDict []))
                               (get_or d "tool_info" (JDict []))
                               (get_or d "compliance_info" (JDict []))
                               (truthy signature)
              | _ => CliTypeError     (* no method [replace] *)
              end
          | _ => CliTypeError         (* no method [get] *)
          end
      end
  end.

(** ** web_verifier.py *)

(** The dictionary [CertificateVerifier.verify_certificate] returns:
    the full report, one of the refusals with a text of the program, the
    refusal after an exception of the signature check other than
    [InvalidSignature], or the refusal after an exception that the
    interpreter raised elsewhere (the last two carry the text of the
    exception, which is not modelled). *)
Inductive web_report : Type :=
| WebReport (valid signature_valid structure_valid : bool)
            (certificate_id timestamp : option json)
            (device_info wipe_operation tool_info compliance_info : json)
            (errors : list string)
| WebRefused (error : string)
| WebSignatureError
| WebVerificationError.

Definition web_valid (r : web_report) : bool :=
  match r with
  | WebReport v _ _ _ _ _ _ _ _ _ => v
  | _ => false
  end.

(** [status not in ['completed', 'failed']], negated. *)
Definition status_known (status : option json) : bool :=
  match status with
  | Some (JStr s) => (String.eqb s "completed" || String.eqb s "failed")%bool
  | _ => false
  end.

Definition truthy_opt (v : option json) : bool :=
  match v with
  | Some x => truthy x
  | None => false
  end.

(** [_validate_certificate_structure(cert_data)]: the verdict and the
    list of errors, or [None] when a value of the wrong type makes the
    interpreter raise ([replace] or [get] on something that is no string
    or no dictionary). *)
Definition _validate_certificate_structure {ISO : IsoFormat}
    (cert_data : list (string * json)) : option (bool * list string) :=
  let missing :=
    flat_map (fun field =>
                match dict_get field cert_data with
                | Some _ => []
                | None => ["Missing required field: " ++ field]
                end) required_fields in
  match get_or cert_data "timestamp" (JStr "") with
  | JStr timestamp =>
      let bad_time :=
        if fromisoformat_ok (replace_Z timestamp) then []
        else ["Invalid timestamp format"] in
      match get_or cert_data "wipe_operation" (JDict []) with
      | JDict wipe_op =>
          let bad_status :=
            if status_known (dict_get "status" wipe_op) then []
            else ["Invalid wipe operation status"] in
          match get_or cert_data "device_info" (JDict []) with
          | JDict device_info =>
              let no_type :=
                if truthy_opt (dict_get "device_type" device_info) then []
                else ["Missing device type information"] in
              let errors :=
                (missing ++ bad_time ++ bad_status ++ no_type)%list in
              Some (match errors with [] => true | _ => false end, errors)
          | _ => None
          end
      | _ => None
      end
  | _ => None
  end.

Section WithPrimitives.
Context {B64 : Base64} {EC : Ecdsa} {ISO : IsoFormat}.

(** The verifier object: [load_public_key] leaves [None] when the key
    file is missing or cannot be read. *)
Record CertificateVerifier : Type := {
  public_key : option public_key_t
}.

Definition verify_certificate (self : CertificateVerifier)
    (certificate_data : json) : web_report :=
  match certificate_data with
  | JDict d =>
      let signature := get_or d "signature" (JStr "") in
      if negb (truthy signature) then WebRefused "No signature found"
      else
        let cert_copy := dict_pop "blockchain_anchor" (dict_pop "signature" d) in
        let canonical_json := dumps (JDict cert_copy) in
        match public_key self with
        | None => WebRefused "Public key not available"
        | Some pk =>
            match signature with
            | JStr s =>
                match b64decode s with
                | None => WebSignatureError
                | Some signature_bytes =>
                    let signature_valid :=
                      ec_verify pk signature_bytes canonical_json in
                    match _validate_certificate_structure d with
                    | None => WebVerificationError
                    | Some (structure_valid, errors) =>
                        WebReport (signature_valid && structure_valid)
                                  signature_valid structure_valid
                                  (dict_get "certificate_id" d)
                                  (dict_get "timestamp" d)
                                  (get_or d "device_info" (JDict []))
                                  (get_or d "wipe_operation" (JDict []))
                                  (get_or d "tool_info" (JDict []))
                                  (get_or d "compliance_info" (JDict []))
                                  errors
                    end
                end
            | _ => WebSignatureError  (* b64decode of a value that is no string *)
            end
        end
  | _ => WebVerificationError         (* no method [get] *)
  end.

End WithPrimitives.

End Verification.

(** An operation that an execution has ended. *)
Definition finished (s : WipeStatus) : bool :=
  match s with
  | COMPLETED | FAILED => true
  | _ => false
  end.

(** A stand-in for [datetime.fromisoformat]: a date, a [T] and more. *)
Definition iso_plain : IsoFormat :=
  {| fromisoformat_ok := fun s =>
       match get 10 s with
       | Some "T"%char =>
           (string_forallb
              (fun c => (is_digit c || Ascii.eqb c "-")%bool)
              (substring 0 10 s)
            && Nat.ltb 10 (String.length s))%bool
       | _ => false
       end |}.

(** A verifier of the web service that holds the key of [CertExample]. *)
Definition web_verifier_example
  : Verification.CertificateVerifier (EC := StandIn.ecdsa_plain) :=
  {| Verification.public_key :=
       Some ("key-1" : @public_key_t StandIn.ecdsa_plain) |}.

(* ================================================================== *)
(** * ai_wipe_engine.py: device detection *)
(* ================================================================== *)

(** Rounding to the nearest binary64 value: what [float(text)] does to
    the decimal value of a numeral and what a product of two floats does
    to the exact product. *)
Class Binary64 : Type := {
  fl : Q -> Q
}.

Module Detection.

(** [str.upper()] on ASCII text. *)
Definition upper_ascii (c : ascii) : ascii :=
  let n := nat_of_ascii c in
  if (Nat.leb 97 n && Nat.leb n 122)%bool then ascii_of_nat (n - 32) else c.

Fixpoint upper (s : string) : string :=
  match s with
  | EmptyString => EmptyString
  | String c s' => String (upper_ascii c) (upper s')
  end.

(** The character class [[\d.]]. *)
Definition num_char (c : ascii) : bool :=
  (is_digit c || Ascii.eqb c ".")%bool.

Fixpoint take_while (p : ascii -> bool) (s : string) : string :=
  match s with
  | EmptyString => EmptyString
  | String c s' => if p c then String c (take_while p s') else EmptyString
  end.

(** [re.findall(r'[\d.]+', s)], its first element if there is one: the
    first maximal run of digits and points. *)
Fixpoint first_number (s : string) : option string :=
  match s with
  | EmptyString => None
  | String c s' =>
      if num_char c then Some (take_while num_char s) else first_number s'
  end.

(** The value of a run of digits, read after [acc]. *)
Fixpoint digits_value (acc : Z) (s : string) : Z :=
  match s with
  | EmptyString => acc
  | String c s' => digits_value (10 * acc + Z.of_nat (nat_of_ascii c - 48)) s'
  end.

Fixpoint count_points (s : string) : nat :=
  match s with
  | EmptyString => O
  | String c s' =>
      ((if Ascii.eqb c "." then 1 else 0) + count_points s')%nat
  end.

Fixpoint without_points (s : string) : string :=
  match s with
  | EmptyString => EmptyString
  | String c s' =>
      if Ascii.eqb c "." then without_points s'
      else String c (without_points s')
  end.

(** The digits after the point. *)
Fixpoint after_point (s : string) : string :=
  match s with
  | EmptyString => EmptyString
  | String c s' => if Ascii.eqb c "." then s' else after_point s'
  end.

(** The decimal value of a text of digits and points, if the text is a
    float literal: at most one point and at least one digit.  [float]
    raises [ValueError] on the others ([None]). *)
Definition decimal_value (t : string) : option Q :=
  if (Nat.leb (count_points t) 1
      && negb (String.eqb (without_points t) ""))%bool
  then Some (inject_Z (digits_value 0 (without_points t))
             / inject_Z (10 ^ Z.of_nat (String.length (after_point t))))%Q
  else None.

Section WithRounding.
Context {B : Binary64}.

(** [float(number) * multiplier] for the four entries of [multipliers],
    which iterates in the order K, M, G, T.  The multiplier of G is the
    integer 1, and 1e3 is a double. *)
Definition scaled (unit : ascii) (x : Q) : Q :=
  if Ascii.eqb unit "K" then fl (x * fl (1 # 1000000))
  else if Ascii.eqb unit "M" then fl (x * fl (1 # 1000))
  else if Ascii.eqb unit "G" then x
  else fl (x * 1000).

(** The loop over the units. *)
Fixpoint parse_with (units : list ascii) (size_str : string) : result Q :=
  match units with
  | [] => Ok 0%Q
  | unit :: rest =>
      if str_in (String unit "") size_str then
        match first_number size_str with
        | Some number =>
            match decimal_value number with
            | Some x => Ok (scaled unit (fl x))
            | None =>
                Exc ("could not convert string to float: '" ++ number ++ "'")
            end
        | None => parse_with rest size_str
        end
      else parse_with rest size_str
  end.

Definition _parse_size_to_gb (size_str : string) : result Q :=
  parse_with ["K"; "M"; "G"; "T"]%char (upper size_str).

End WithRounding.

(** ** Classification by rules *)

(** [features.get(k, '')] *)
Definition feature (features : list (string * string)) (k : string)
  : string :=
  match dict_get k features with
  | Some v => v
  | None => ""
  end.

Definition _rule_based_device_classification
    (features : list (string * string)) : DeviceType :=
  let smart_data := lower (feature features "smart_data") in
  let hdparm_info := lower (feature features "hdparm_info") in
  let nvme_info := lower (feature features "nvme_info") in
  if (negb (String.eqb nvme_info "") || str_in "nvme" smart_data)%bool
  then SSD_NVME
  else if (str_in "solid state" smart_data || str_in "ssd" hdparm_info)%bool
  then SSD_SATA
  else if (str_in "emmc" smart_data || str_in "mmc" hdparm_info)%bool
  then EMMC
  else if str_in "usb" smart_data then USB
  else if (str_in "rotating" smart_data || str_in "disk" hdparm_info)%bool
  then HDD
  else UNKNOWN.

(** [list(DeviceType)]: the members in definition order. *)
Definition DeviceType_list : list DeviceType :=
  [HDD; SSD_SATA; SSD_NVME; EMMC; USB; UNKNOWN].

(** ** The feature vector *)

(** [\s] on text: the characters for which [str.isspace] holds, among
    the code points below 256. *)
Definition is_space (c : ascii) : bool :=
  let n := nat_of_ascii c in
  ((Nat.leb 9 n && Nat.leb n 13) || (Nat.leb 28 n && Nat.leb n 32)
   || Nat.eqb n 133 || Nat.eqb n 160)%bool.

Fixpoint drop_while (p : ascii -> bool) (s : string) : string :=
  match s with
  | EmptyString => EmptyString
  | String c s' => if p c then drop_while p s' else s
  end.

(** The rest of [s] after the literal [lit], if [s] starts with it. *)
Fixpoint after_literal (lit s : string) : option string :=
  match lit, s with
  | EmptyString, _ => Some s
  | String a lit', String b s' =>
      if Ascii.eqb a b then after_literal lit' s' else None
  | String _ _, EmptyString => None
  end.

(** [.]: one character that is not a line feed. *)
Definition after_any (s : string) : option string :=
  match s with
  | EmptyString => None
  | String c s' => if Ascii.eqb c "010" then None else Some s'
  end.

(** [.*?(\d+)]: the first digit of the line starts the group, which
    takes the whole run of digits. *)
Fixpoint lazy_digits (s : string) : option string :=
  match s with
  | EmptyString => None
  | String c s' =>
      if is_digit c then Some (take_while is_digit s)
      else if Ascii.eqb c "010" then None
      else lazy_digits s'
  end.

Definition and_then {A C : Type} (o : option A) (f : A -> option C)
  : option C :=
  match o with
  | Some a => f a
  | None => None
  end.

(** [(\d+)\s*rpm] at the start of [s]: group 1 of the match. *)
Definition rpm_at (s : string) : option string :=
  match take_while is_digit s with
  | EmptyString => None
  | digits =>
      match after_literal "rpm"
              (drop_while is_space (drop_while is_digit s)) with
      | Some _ => Some digits
      | None => None
      end
  end.

(** [power.on.hours.*?(\d+)] at the start of [s]. *)
Definition power_hours_at (s : string) : option string :=
  and_then (after_literal "power" s) (fun s1 =>
  and_then (after_any s1) (fun s2 =>
  and_then (after_literal "on" s2) (fun s3 =>
  and_then (after_any s3) (fun s4 =>
  and_then (after_literal "hours" s4) lazy_digits)))).

(** [temperature.*?(\d+)] at the start of [s]. *)
Definition temperature_at (s : string) : option string :=
  and_then (after_literal "temperature" s) lazy_digits.

(** [re.search]: the match at the leftmost position that has one. *)
Fixpoint re_search (at_start : string -> option string) (s : string)
  : option string :=
  match at_start s with
  | Some group => Some group
  | None =>
      match s with
      | EmptyString => None
      | String _ s' => re_search at_start s'
      end
  end.

Section WithRounding.
Context {B : Binary64}.

(** [float(m.group(1))] for a group of digits. *)
Definition float_of_digits (digits : string) : Q :=
  fl (inject_Z (digits_value 0 digits)).

(** [_extract_feature_vector]: five entries are appended, so the padding
    loop does nothing and the slice keeps them all. *)
Definition _extract_feature_vector (features : list (string * string))
  : list Q :=
  let smart_data := feature features "smart_data" in
  let hdparm_info := feature features "hdparm_info" in
  let rotation_speed :=
    match re_search rpm_at (lower smart_data) with
    | Some group => float_of_digits group
    | None => 0%Q
    end in
  let trim_support := if str_in "trim" (lower hdparm_info) then 1%Q else 0%Q in
  let interface_speed :=
    if str_in "sata 6" (lower smart_data) then 6%Q
    else if str_in "sata 3" (lower smart_data) then 3%Q
    else if str_in "nvme" (lower smart_data) then 32%Q
    else 0%Q in
  let power_hours :=
    match re_search power_hours_at (lower smart_data) with
    | Some group => float_of_digits group
    | None => 0%Q
    end in
  let temperature :=
    match re_search temperature_at (lower smart_data) with
    | Some group => float_of_digits group
    | None => 25%Q
    end in
  [rotation_speed; trim_support; interface_speed; power_hours; temperature].

End WithRounding.

(** The part of the engine object that detection reads:
    [device_classifier] is [None] or a fitted classifier, which is
    truthy. *)
Record DetectionEngine : Type := {
  device_classifier : option Classifier
}.

Section WithRounding.
Context {B : Binary64}.

Definition _classify_device_type (self : DetectionEngine)
    (features : list (string * string)) : DeviceType :=
  let feature_vector := _extract_feature_vector features in
  match device_classifier self with
  | Some clf =>
      if Nat.leb 5 (List.length feature_vector) then
        match predict clf feature_vector with
        | Ok prediction =>
            if ((0 <=? prediction) &&
                (prediction <? Z.of_nat (List.length DeviceType_list)))%bool
            then nth (Z.to_nat prediction) DeviceType_list
                     (_rule_based_device_classification features)
            else _rule_based_device_classification features
        | Exc _ => _rule_based_device_classification features
        end
      else _rule_based_device_classification features
  | None => _rule_based_device_classification features
  end.

End WithRounding.

(** ** The probes *)

(** What the tools answer for a device path: the standard output of a
    [subprocess.run] (or its exit code), or the exception the call
    raises, for instance when the tool is not installed.  A tool that is
    asked twice for the same path answers the same. *)
Record Probes : Type := {
  smartctl_a : string -> result string;
  hdparm_I : string -> result string;
  nvme_id_ctrl : string -> result string;
  cryptsetup_isLuks : string -> result Z;
  mount : result string;
  hdparm_N : string -> result string
}.

(** [_get_device_features]: the dictionary is filled entry by entry, and
    an exception ends the filling. *)
Definition _get_device_features (pr : Probes) (device_path : string)
  : list (string * string) :=
  match smartctl_a pr device_path with
  | Exc _ => []
  | Ok smart =>
      let f1 := dict_set "smart_data" smart [] in
      match hdparm_I pr device_path with
      | Exc _ => f1
      | Ok hdparm =>
          let f2 := dict_set "hdparm_info" hdparm f1 in
          if str_in "nvme" device_path then
            match nvme_id_ctrl pr device_path with
            | Exc _ => f2
            | Ok nvme => dict_set "nvme_info" nvme f2
            end
          else f2
      end
  end.

Definition _check_encryption (pr : Probes) (device_path : string) : string :=
  match cryptsetup_isLuks pr device_path with
  | Exc _ => "Unknown"
  | Ok returncode =>
      if returncode =? 0 then "LUKS"
      else
        match mount pr with
        | Exc _ => "Unknown"
        | Ok stdout =>
            if (str_in device_path stdout
                && str_in "bitlocker" (lower stdout))%bool
            then "BitLocker" else "None"
        end
  end.

Definition _check_hpa_dco (pr : Probes) (device_path : string) : bool :=
  match hdparm_N pr device_path with
  | Exc _ => false
  | Ok stdout =>
      let output := lower stdout in
      (str_in "hpa" output || str_in "dco" output
       || str_in "protected" output)%bool
  end.

Definition _check_secure_erase_support (pr : Probes) (device_path : string)
    (device_type : DeviceType) : bool :=
  match device_type with
  | SSD_NVME =>
      match nvme_id_ctrl pr device_path with
      | Exc _ => false
      | Ok stdout => str_in "format" (lower stdout)
      end
  | _ =>
      match hdparm_I pr device_path with
      | Exc _ => false
      | Ok stdout => str_in "erase_unit_max" (lower stdout)
      end
  end.

(** ** The rows of [lsblk] *)

(** A column of a row of [lsblk -J]: the key is missing, or its value is
    [null], or it is a string ([lsblk] prints the six columns asked for as
    strings or [null]). *)
Inductive column : Type :=
| Absent
| Null
| Text (s : string).

Record lsblk_row : Type := {
  r_name : column;
  r_type : column;
  r_size : column;
  r_model : column;
  r_serial : column;
  r_tran : column
}.

(** [device_data.get(k, default)]: [None] stands for Python's [None]. *)
Definition column_or (c : column) (default : string) : option string :=
  match c with
  | Absent => Some default
  | Null => None
  | Text s => Some s
  end.

(** The [DeviceInfo] that [_analyze_device] builds.  Its three fields
    read from nullable columns hold a string or [None]. *)
Record DetectedDevice : Type := {
  dd_device_path : string;
  dd_device_type : DeviceType;
  dd_model : option string;
  dd_serial : option string;
  dd_size_gb : Q;
  dd_interface : option string;
  dd_encryption_status : string;
  dd_hpa_dco_present : bool;
  dd_secure_erase_supported : bool;
  dd_features : list (string * string)
}.

(** The detected device as the [DeviceInfo] of the other modules, when
    its three string fields hold strings. *)
Definition as_DeviceInfo (d : DetectedDevice) : option DeviceInfo :=
  match dd_model d, dd_serial d, dd_interface d with
  | Some model, Some serial, Some interface =>
      Some {| device_path := dd_device_path d;
              device_type := dd_device_type d;
              model := model; serial := serial;
              size_gb := dd_size_gb d; interface := interface;
              encryption_status := dd_encryption_status d;
              hpa_dco_present := dd_hpa_dco_present d;
              secure_erase_supported := dd_secure_erase_supported d;
              features := dd_features d |}
  | _, _, _ => None
  end.

Section WithRounding.
Context {B : Binary64}.

(** [_analyze_device(device_data)]: [None] when an exception is raised,
    which only three places can do: the lookup of the name ([KeyError]),
    [upper] on a size that is [null] ([AttributeError]) and [float] on a
    malformed number ([ValueError]). *)
Definition _analyze_device (self : DetectionEngine) (pr : Probes)
    (device_data : lsblk_row) : option DetectedDevice :=
  match r_name device_data with
  | Absent => None
  | name =>
      let device_path :=
        "/dev/" ++ match name with Text s => s | _ => "None" end in
      match column_or (r_size device_data) "0B" with
      | None => None
      | Some size_str =>
          match _parse_size_to_gb size_str with
          | Exc _ => None
          | Ok size_gb =>
              let features := _get_device_features pr device_path in
              let device_type := _classify_device_type self features in
              Some {| dd_device_path := device_path;
                      dd_device_type := device_type;
                      dd_model := column_or (r_model device_data) "Unknown";
                      dd_serial := column_or (r_serial device_data) "Unknown";
                      dd_size_gb := size_gb;
                      dd_interface := column_or (r_tran device_data) "unknown";
                      dd_encryption_status := _check_encryption pr device_path;
                      dd_hpa_dco_present := _check_hpa_dco pr device_path;
                      dd_secure_erase_supported :=
                        _check_secure_erase_support pr device_path device_type;
                      dd_features := features |}
          end
      end
  end.

(** [detect_devices()]; [lsblk] is what [subprocess.run] with
    [check=True] and [json.loads] yield: the rows under [blockdevices],
    or an exception. *)
Definition detect_devices (self : DetectionEngine) (pr : Probes)
    (lsblk : result (list lsblk_row)) : list DetectedDevice :=
  match lsblk with
  | Exc _ => []
  | Ok rows =>
      flat_map
        (fun device =>
           match r_type device with
           | Text t =>
               if String.eqb t "disk" then
                 match _analyze_device self pr device with
                 | Some device_info => [device_info]
                 | None => []
                 end
               else []
           | _ => []
           end) rows
  end.

End WithRounding.

(** ** Examples *)

(** Exact arithmetic in the place of the rounding. *)
Definition exact : Binary64 := {| fl := fun q => q |}.

(** A machine on which none of the probing tools is installed. *)
Definition no_tools : Probes :=
  {| smartctl_a := fun _ => Exc "No such file or directory: 'smartctl'";
     hdparm_I := fun _ => Exc "No such file or directory: 'hdparm'";
     nvme_id_ctrl := fun _ => Exc "No such file or directory: 'nvme'";
     cryptsetup_isLuks :=
       fun _ => Exc "No such file or directory: 'cryptsetup'";
     mount := Exc "No such file or directory: 'mount'";
     hdparm_N := fun _ => Exc "No such file or directory: 'hdparm'" |}.

Definition rules_only : DetectionEngine := {| device_classifier := None |}.

Definition row_sdb : lsblk_row :=
  {| r_name := Text "sdb"; r_type := Text "disk"; r_size := Text "238.5G";
     r_model := Text "Samsung SSD 850"; r_serial := Text "S21N-0001";
     r_tran := Text "sata" |}.

(** A disk whose HPA [hdparm -N] reports as disabled, on a machine where
    another disk carries a mounted BitLocker volume. *)
Definition hdparm_N_disabled : string :=
  " max sectors   = 500118192/500118192, HPA is disabled".

Definition mount_two_disks : string :=
  "/dev/sdb1 on /mnt/data type ext4 (rw,relatime) /dev/sdc2 on /mnt/win type fuse.dislocker (bitlocker)".

Definition probes_example : Probes :=
  {| smartctl_a := fun _ => Ok "Rotation Rate: 7200 rpm";
     hdparm_I := fun _ => Ok "ATA device, with non-removable media";
     nvme_id_ctrl := fun _ => Exc "No such file or directory: 'nvme'";
     cryptsetup_isLuks := fun _ => Ok 1;
     mount := Ok mount_two_disks;
     hdparm_N := fun _ => Ok hdparm_N_disabled |}.

End Detection.

(* ================================================================== *)
(** * wipe_engine.py: [_unmount_device] in detail *)
(* ================================================================== *)

Module Unmount.

Import Detection.

(** [str.strip()] *)
Fixpoint lstrip (s : string) : string :=
  match s with
  | EmptyString => EmptyString
  | String c s' => if is_space c then lstrip s' else s
  end.

Fixpoint rstrip (s : string) : string :=
  match s with
  | EmptyString => EmptyString
  | String c s' =>
      match rstrip s' with
      | EmptyString => if is_space c then EmptyString else String c EmptyString
      | t => String c t
      end
  end.

Definition strip (s : string) : string := rstrip (lstrip s).

(** [s.split(sep)] for a separator that is not empty: [cur] is the piece
    being read and [skip] counts the characters of a separator still to
    pass. *)
Fixpoint split_from (sep : string) (skip : nat) (cur : string) (s : string)
  : list string :=
  match s with
  | EmptyString => [cur]
  | String c s' =>
      match skip with
      | S k => split_from sep k cur s'
      | O =>
          if prefix sep s
          then cur :: split_from sep (String.length sep - 1) EmptyString s'
          else split_from sep O (cur ++ String c EmptyString) s'
      end
  end.

Definition split (sep s : string) : list string :=
  split_from sep O EmptyString s.

(** The separator of the source is written ['\\n']: a backslash and the
    letter n. *)
Definition separator : string := "\n".

(** The loop over the partitions: the arguments of the [umount] calls,
    up to the first call that raises, and whether one did. *)
Fixpoint umount_all (umount : string -> result Z) (partitions : list string)
  : bool * list string :=
  match partitions with
  | [] => (true, [])
  | partition :: rest =>
      match strip partition with
      | EmptyString => umount_all umount rest
      | name =>
          let partition_path := "/dev/" ++ name in
          match umount partition_path with
          | Exc _ => (false, [partition_path])
          | Ok _ =>
              let (done, calls) := umount_all umount rest in
              (done, partition_path :: calls)
          end
      end
  end.

(** [_unmount_device]: [lsblk] is the standard output of
    [lsblk -ln -o NAME device_path] and [umount] the exit code of a call
    of [umount], or the exception that [subprocess.run] raises.  The
    result is the value returned together with the paths handed to
    [umount]. *)
Definition _unmount_device (lsblk : result string)
    (umount : string -> result Z) : bool * list string :=
  match lsblk with
  | Exc _ => (false, [])
  | Ok stdout => umount_all umount (split separator (strip stdout))
  end.

(** A disk with two partitions, as [lsblk -ln -o NAME] lists it. *)
Definition lsblk_sdb : string :=
  String "s" (String "d" (String "b" (String "010"
  (String "s" (String "d" (String "b" (String "1" (String "010"
  (String "s" (String "d" (String "b" (String "2" (String "010"
   EmptyString))))))))))))).

(** No character of [s] is a backslash. *)
Definition no_backslash (s : string) : bool :=
  string_forallb (fun c => negb (Ascii.eqb c "\")) s.

End Unmount.

(* ================================================================== *)
(** * wipe_engine.py: worlds for the error paths *)
(* ================================================================== *)


Module Recovery.


End Recovery.

(* ================================================================== *)
(** * Properties of the method selector *)
(* ================================================================== *)

Section Selector.

Lemma rule_based_is_ladder (d : DeviceInfo) :
  strategy_of (_rule_based_method_selection d) = Spec.select (facts_of d).
Proof.
  unfold _rule_based_method_selection, Spec.select, facts_of, encryption_of,
    in_list; simpl.
  destruct (String.eqb (encryption_status d) "LUKS") eqn:E1; simpl;
    [reflexivity|].
  destruct (String.eqb (encryption_status d) "BitLocker") eqn:E2; simpl;
    [reflexivity|].
  destruct (String.eqb (encryption_status d) "None");
    destruct (device_type d); simpl;
    destruct (secure_erase_supported d); reflexivity.
Qed.

Lemma select_without_prediction (self : AIWipeEngine) (d : DeviceInfo) :
  no_usable_prediction self d ->
  select_optimal_wipe_method self d = _rule_based_method_selection d.
Proof.
  unfold no_usable_prediction, prediction, select_optimal_wipe_method.
  destruct (method_selector self) as [clf|]; [|reflexivity].
  destruct (predict clf (method_features self d)) as [p|e]; [|reflexivity].
  intros [Hneg | Hbig].
  - replace (0 <=? p) with false by (symmetry; apply Z.leb_gt; exact Hneg).
    reflexivity.
  - replace (p <? Z.of_nat (List.length WipeMethod_list)) with false.
    + rewrite andb_false_r. reflexivity.
    + symmetry. apply Z.ltb_ge. simpl. exact Hbig.
Qed.

(** C3, as stated, does not hold: the selector asks the fitted classifier
    first.  On a hard disk with secure erase the ladder says
    [ata_secure_erase]; an engine whose forest votes for class 6 returns
    [FACTORY_RESET]. *)
Lemma C3_classifier_overrides_ladder :
  select_optimal_wipe_method Examples.engine_6 Examples.disk = FACTORY_RESET
  /\ Spec.select (facts_of Examples.disk) = Spec.ata_secure_erase
  /\ strategy_of (select_optimal_wipe_method Examples.engine_6 Examples.disk)
     <> Spec.select (facts_of Examples.disk).
Proof.
  repeat split; try reflexivity. vm_compute. discriminate.
Qed.

(** A label that is an index into [list(WipeMethod)] selects the member
    at that index, whatever the facts of the device are. *)
Lemma select_with_label (self : AIWipeEngine) (d : DeviceInfo) (label : Z) :
  prediction self d = Some (Ok label) ->
  0 <= label <= 6 ->
  select_optimal_wipe_method self d
  = match label with
    | 0 => ATA_SECURE_ERASE
    | 1 => NVME_SECURE_ERASE
    | 2 => NVME_CRYPTO_ERASE
    | 3 => MULTIPASS_OVERWRITE
    | 4 => SINGLE_PASS_RANDOM
    | 5 => CRYPTO_ERASE
    | _ => FACTORY_RESET
    end.
Proof.
  unfold prediction, select_optimal_wipe_method.
  destruct (method_selector self) as [clf|]; [|discriminate].
  intro H. injection H as H. rewrite H. intro Hl.
  assert (E : label = 0 \/ label = 1 \/ label = 2 \/ label = 3
              \/ label = 4 \/ label = 5 \/ label = 6) by lia.
  destruct E as [->|[->|[->|[->|[->|[->| ->]]]]]]; reflexivity.
Qed.

(** C3 (amended): the rule-based selection always returns the strategy of
    the specification's ladder, and so does the method selector whenever
    the engine has no classifier, or the classifier raises, or its label
    is outside 0..6.  When a classifier answers a label in 0..6, that
    label decides instead: the selector returns the member of
    [WipeMethod] at that index, whatever the facts of the device are. *)
Theorem C3_selector_rule_ladder (self : AIWipeEngine) (d : DeviceInfo) :
  strategy_of (_rule_based_method_selection d) = Spec.select (facts_of d)
  /\ (no_usable_prediction self d ->
      strategy_of (select_optimal_wipe_method self d)
      = Spec.select (facts_of d))
  /\ (forall label,
        prediction self d = Some (Ok label) ->
        0 <= label <= 6 ->
        select_optimal_wipe_method self d
        = nth (Z.to_nat label) WipeMethod_list FACTORY_RESET
        /\ select_optimal_wipe_method self d
           = match label with
             | 0 => ATA_SECURE_ERASE
             | 1 => NVME_SECURE_ERASE
             | 2 => NVME_CRYPTO_ERASE
             | 3 => MULTIPASS_OVERWRITE
             | 4 => SINGLE_PASS_RANDOM
             | 5 => CRYPTO_ERASE
             | _ => FACTORY_RESET
             end).
Proof.
  split; [apply rule_based_is_ladder|]. split.
  - intro H. rewrite (select_without_prediction self d H).
    apply rule_based_is_ladder.
  - intros label Hp Hl.
    rewrite (select_with_label self d Hp Hl).
    split; [|reflexivity].
    assert (E : label = 0 \/ label = 1 \/ label = 2 \/ label = 3
                \/ label = 4 \/ label = 5 \/ label = 6) by lia.
    destruct E as [->|[->|[->|[->|[->|[->| ->]]]]]]; reflexivity.
Qed.

Lemma C3_selector_rule_ladder_witness :
  no_usable_prediction Examples.engine_rules Examples.disk
  /\ strategy_of (select_optimal_wipe_method Examples.engine_rules
                                              Examples.disk)
     = Spec.ata_secure_erase.
Proof.
  split.
  - exact I.
  - exact (proj1 (proj2 (C3_selector_rule_ladder Examples.engine_rules
                                                 Examples.disk)) I).
Defined.

(** C9, as stated, does not hold: the result depends on the training data
    of the forest and on the salt of the string hash.  Two forests fitted
    on different data disagree on the same facts, and one forest disagrees
    with itself under two hash salts. *)
Lemma C9_selection_depends_on_process_state :
  select_optimal_wipe_method Examples.engine_6 Examples.disk
  <> select_optimal_wipe_method Examples.engine_0 Examples.disk
  /\ select_optimal_wipe_method Examples.engine_split_a Examples.disk
     <> select_optimal_wipe_method Examples.engine_split_b Examples.disk.
Proof.
  split; vm_compute; discriminate.
Qed.

(** C9 (amended): the selector is a function of the facts and of the
    answer of the engine's classifier on them, and of nothing else: two
    invocations, in whatever engine state, that see the same facts and the
    same answer (in particular two invocations on one engine, or on
    engines without a classifier) return the same strategy. *)
Theorem C9_selector_deterministic (e1 e2 : AIWipeEngine) (d : DeviceInfo) :
  prediction e1 d = prediction e2 d ->
  select_optimal_wipe_method e1 d = select_optimal_wipe_method e2 d.
Proof.
  unfold prediction, select_optimal_wipe_method.
  destruct (method_selector e1) as [c1|], (method_selector e2) as [c2|];
    intro H; try discriminate; [|reflexivity].
  injection H as H. rewrite H. reflexivity.
Qed.

Lemma C9_selector_deterministic_witness :
  select_optimal_wipe_method Examples.engine_6 Examples.disk
  = select_optimal_wipe_method
      {| method_selector := Some Examples.forest_6;
         py_hash := Examples.hash_b |} Examples.disk.
Proof.
  apply C9_selector_deterministic. reflexivity.
Defined.

End Selector.

(* ================================================================== *)
(** * Reasoning about the operation under execution *)
(* ================================================================== *)

Lemma Qltb_lt (a b : Q) : Qltb a b = true <-> (a < b)%Q.
Proof.
  unfold Qltb. rewrite negb_true_iff.
  split; intro H.
  - apply Qnot_le_lt. intro Hle. apply Qle_bool_iff in Hle. congruence.
  - destruct (Qle_bool b a) eqn:E; [|reflexivity].
    apply Qle_bool_iff in E. exfalso. apply (Qlt_not_le _ _ H E).
Qed.

Lemma Qltb_ge (a b : Q) : Qltb a b = false <-> (b <= a)%Q.
Proof.
  unfold Qltb. rewrite negb_false_iff. apply Qle_bool_iff.
Qed.

Section Keeps.
Variable R : Run -> Run -> Prop.
Hypothesis R_refl : forall r, R r r.
Hypothesis R_trans : forall a b c, R a b -> R b c -> R a c.

Lemma keeps_ret {A : Type} (a : A) : keeps R (ret a).
Proof. intro r. apply R_refl. Qed.

Lemma keeps_get_op : keeps R get_op.
Proof. intro r. apply R_refl. Qed.

Lemma keeps_bind {A B : Type} (c : M A) (k : A -> M B) :
  keeps R c -> (forall a, keeps R (k a)) -> keeps R (bind c k).
Proof.
  intros Hc Hk r. unfold bind.
  specialize (Hc r). destruct (c r) as [a r1]. simpl in Hc.
  specialize (Hk a r1). eapply R_trans; eassumption.
Qed.

End Keeps.

(** One step of a proof that a straight-line computation keeps [R];
    [prim] closes the goals about the primitive state changes. *)
Ltac keeps_step refl trans prim :=
  lazymatch goal with
  | |- keeps _ (ret _) => apply keeps_ret; exact refl
  | |- keeps _ get_op => apply keeps_get_op; exact refl
  | |- keeps _ (bind _ _) => apply keeps_bind; [exact trans | | intros ?]
  | |- keeps _ (if ?b then _ else _) => destruct b eqn:?
  | |- keeps _ (match ?x with _ => _ end) => destruct x eqn:?
  | |- _ => prim
  end.

Lemma frame_refl r : frame r r.
Proof. unfold frame; intuition. Qed.

Lemma frame_trans a b c : frame a b -> frame b c -> frame a c.
Proof. unfold frame; intuition congruence. Qed.

Lemma frame_log s : keeps frame (log s).
Proof. intro r; unfold frame; simpl; intuition. Qed.

Lemma frame_notify path p msg : keeps frame (_notify_progress path p msg).
Proof. intro r; unfold frame; simpl; intuition. Qed.

Lemma frame_set_hash k v : keeps frame (set_hash k v).
Proof. intro r; unfold frame; simpl; intuition. Qed.

Lemma frame_set_progress p : keeps frame (set_progress p).
Proof. intro r; unfold frame; simpl; intuition. Qed.

Lemma frame_get : keeps frame get_op.
Proof. apply keeps_get_op. exact frame_refl. Qed.

Lemma frame_bind {A B : Type} (c : M A) (k : A -> M B) :
  keeps frame c -> (forall a, keeps frame (k a)) -> keeps frame (bind c k).
Proof. apply keeps_bind. exact frame_trans. Qed.

Ltac frame_prim :=
  first [ apply frame_log | apply frame_notify | apply frame_set_hash
        | apply frame_set_progress ].

Ltac frame_auto := repeat keeps_step frame_refl frame_trans frame_prim.

Lemma frame_poll_progress path est msg elapsed :
  keeps frame (poll_progress path est msg elapsed).
Proof.
  induction elapsed as [|e rest IH]; simpl.
  - frame_auto.
  - keeps_step frame_refl frame_trans frame_prim; [frame_auto|].
    apply frame_bind; [apply frame_notify|intros _; auto].
Qed.

Lemma frame_write_chunks fuel path fault size base n written :
  keeps frame (write_chunks fuel path fault size base n written).
Proof.
  revert n written.
  induction fuel as [|fuel IH]; intros n written; simpl.
  - frame_auto.
  - destruct (written <? size); [|frame_auto].
    destruct fault as [[k msg]|].
    + destruct (k =? n); [frame_auto|].
      apply frame_bind; [apply frame_notify|intros _; auto].
    + apply frame_bind; [apply frame_notify|intros _; auto].
Qed.

Lemma frame_overwrite_device w path pass size base :
  keeps frame (_overwrite_device w path pass size base).
Proof.
  unfold _overwrite_device.
  destruct (overwrite_fault w pass) as [[k msg]|].
  - destruct (k <? 0); [frame_auto|].
    apply frame_bind; [apply frame_write_chunks|intro]; frame_auto.
  - apply frame_bind; [apply frame_write_chunks|intro]; frame_auto.
Qed.

Lemma frame_monitor path polls : keeps frame (_monitor_dd_progress path polls).
Proof.
  induction polls as [|e rest IH]; simpl.
  - frame_auto.
  - apply frame_bind; [apply frame_get|intro o].
    apply frame_bind; [frame_auto|intros _; auto].
Qed.

Lemma frame_overwrite_passes w path size passes :
  keeps frame (overwrite_passes w path size passes).
Proof.
  induction passes as [|p rest IH]; simpl.
  - frame_auto.
  - apply frame_bind; [apply frame_log|intros _].
    apply frame_bind; [apply frame_overwrite_device|intro ok].
    destruct ok; simpl; [|frame_auto].
    apply frame_bind; [apply frame_notify|intros _; auto].
Qed.

Lemma frame_ata w : keeps frame (_ata_secure_erase w).
Proof.
  unfold _ata_secure_erase.
  apply frame_bind; [apply frame_get|intro o].
  apply frame_bind; [apply frame_log|intros _].
  destruct (ata_set_pass w); [|frame_auto|frame_auto].
  destruct (negb (returncode =? 0)); [frame_auto|].
  apply frame_bind; [apply frame_notify|intros _].
  destruct (ata_erase w); [|frame_auto].
  apply frame_bind; [apply frame_poll_progress|intro]; frame_auto.
Qed.

Lemma frame_nvme_secure w : keeps frame (_nvme_secure_erase w).
Proof.
  unfold _nvme_secure_erase.
  apply frame_bind; [apply frame_get|intro o].
  apply frame_bind; [apply frame_log|intros _].
  destruct (nvme_list_ns w); [|frame_auto|frame_auto].
  destruct (negb (returncode =? 0)); [frame_auto|].
  apply frame_bind; [apply frame_notify|intros _].
  destruct (nvme_format w); [|frame_auto].
  apply frame_bind; [apply frame_poll_progress|intro]; frame_auto.
Qed.

Lemma frame_nvme_crypto w : keeps frame (_nvme_crypto_erase w).
Proof. unfold _nvme_crypto_erase. frame_auto. Qed.

Lemma frame_multipass w : keeps frame (_multipass_overwrite w).
Proof.
  unfold _multipass_overwrite.
  apply frame_bind; [apply frame_get|intro o].
  apply frame_bind; [apply frame_log|intros _].
  destruct (_get_device_size w =? 0); [frame_auto|].
  apply frame_overwrite_passes.
Qed.

Lemma frame_single_pass w : keeps frame (_single_pass_random w).
Proof.
  unfold _single_pass_random.
  apply frame_bind; [apply frame_get|intro o].
  apply frame_bind; [apply frame_log|intros _].
  destruct (dd w); [|frame_auto].
  apply frame_bind; [apply frame_monitor|intros _]. frame_auto.
Qed.

Lemma frame_crypto w : keeps frame (_crypto_erase w).
Proof.
  unfold _crypto_erase.
  apply frame_bind; [apply frame_get|intro o].
  apply frame_bind; [apply frame_log|intros _].
  destruct (String.eqb _ "LUKS"); [frame_auto|].
  destruct (String.eqb _ "BitLocker"); [frame_auto|].
  apply frame_bind; [apply frame_log|intros _].
  apply frame_single_pass.
Qed.

(** The dispatcher keeps every field but the error message, which only
    the [FACTORY_RESET] branch writes. *)
Lemma frame_execute_wipe_method w r :
  method (op r) <> FACTORY_RESET ->
  frame r (snd (_execute_wipe_method w r)).
Proof.
  intro Hm. unfold _execute_wipe_method, bind, get_op.
  destruct (log _ r) as [u r1] eqn:Hlog.
  assert (F1 : frame r r1).
  { pose proof (frame_log ("Executing wipe method: "
                           ++ WipeMethod_value (method (op r))) r) as F.
    rewrite Hlog in F. exact F. }
  eapply frame_trans; [exact F1|].
  destruct (method (op r)); try congruence.
  - apply frame_ata.
  - apply frame_nvme_secure.
  - apply frame_nvme_crypto.
  - apply frame_multipass.
  - apply frame_single_pass.
  - apply frame_crypto.
Qed.

(** ** The overwrite loop ends by itself *)

(** The writes still to come from the position [written]. *)
Lemma writes_left_step (size written : Z) :
  written < size -> 0 <= written ->
  Z.to_nat ((size - written + chunk_size - 1) / chunk_size)
  = S (Z.to_nat ((size - (written + Z.min chunk_size (size - written))
                  + chunk_size - 1) / chunk_size)).
Proof.
  intros Hlt Hw. unfold chunk_size.
  assert (Hc : 0 < 1024 * 1024) by lia.
  destruct (Z.le_gt_cases (1024 * 1024) (size - written)) as [Hbig|Hsmall].
  - rewrite Z.min_l by lia.
    replace (size - written + 1024 * 1024 - 1)
      with ((size - (written + 1024 * 1024) + 1024 * 1024 - 1)
            + 1 * (1024 * 1024)) by lia.
    rewrite Z.div_add by lia.
    assert (0 <= (size - (written + 1024 * 1024) + 1024 * 1024 - 1)
                 / (1024 * 1024)) by (apply Z.div_pos; lia).
    lia.
  - rewrite Z.min_r by lia.
    replace (size - (written + (size - written)) + 1024 * 1024 - 1)
      with (1024 * 1024 - 1) by lia.
    rewrite (Z.div_small (1024 * 1024 - 1)) by lia.
    replace (size - written + 1024 * 1024 - 1)
      with ((size - written - 1) + 1 * (1024 * 1024)) by lia.
    rewrite Z.div_add by lia.
    rewrite (Z.div_small (size - written - 1)) by lia.
    reflexivity.
Qed.

Lemma write_chunks_S fuel path fault size base n written :
  write_chunks (S fuel) path fault size base n written
  = if written <? size then
      let written' := written + Z.min chunk_size (size - written) in
      let go :=
        (_notify_progress path
           (base + inject_Z written' / inject_Z size * 20)%Q
           ("Writing pattern: " ++ z_str written' ++ "/"
            ++ z_str size ++ " bytes") ;;
         write_chunks fuel path fault size base (n + 1) written')%wipe in
      match fault with
      | Some (k, msg) => if k =? n then ret (Some msg) else go
      | None => go
      end
    else ret None.
Proof.
  cbn [write_chunks]. destruct (written <? size); [|reflexivity].
  destruct fault as [[k msg]|]; reflexivity.
Qed.

(** With one unit of fuel for each write still to come, more fuel does
    not change the loop: it never stops for lack of fuel. *)
Lemma write_chunks_enough_fuel path fault size base :
  forall fuel n written r,
    0 <= written ->
    (Z.to_nat ((size - written + chunk_size - 1) / chunk_size) <= fuel)%nat ->
    write_chunks (S fuel) path fault size base n written r
    = write_chunks fuel path fault size base n written r.
Proof.
  induction fuel as [|fuel IH]; intros n written r Hw Hfuel.
  - cbn [write_chunks].
    destruct (written <? size) eqn:L; [|reflexivity].
    apply Z.ltb_lt in L. rewrite (writes_left_step L Hw) in Hfuel. lia.
  - rewrite (write_chunks_S (S fuel) path fault size base n written).
    rewrite (write_chunks_S fuel path fault size base n written).
    cbv zeta.
    destruct (written <? size) eqn:L; [|reflexivity].
    apply Z.ltb_lt in L. rewrite (writes_left_step L Hw) in Hfuel.
    assert (Hnext : forall r',
               write_chunks (S fuel) path fault size base (n + 1)
                 (written + Z.min chunk_size (size - written)) r'
               = write_chunks fuel path fault size base (n + 1)
                   (written + Z.min chunk_size (size - written)) r').
    { intro r'. apply IH; [unfold chunk_size; lia | lia]. }
    destruct fault as [[k msg]|].
    + destruct (k =? n); [reflexivity|].
      unfold bind. destruct (_notify_progress _ _ _ r) as [u r'].
      apply Hnext.
    + unfold bind. destruct (_notify_progress _ _ _ r) as [u r'].
      apply Hnext.
Qed.

Lemma overwrite_has_enough_fuel path fault size base (extra : nat) r :
  write_chunks (extra + chunks_of size) path fault size base 0 0 r
  = write_chunks (chunks_of size) path fault size base 0 0 r.
Proof.
  induction extra as [|extra IH]; [reflexivity|].
  rewrite <- IH. simpl plus.
  apply write_chunks_enough_fuel; [lia|].
  unfold chunks_of. rewrite Z.sub_0_r. lia.
Qed.

(* ================================================================== *)
(** * Error handling of [execute_wipe] *)
(* ================================================================== *)

Lemma frame0_refl r : frame0 r r.
Proof. unfold frame0; intuition. Qed.

Lemma frame0_trans a b c : frame0 a b -> frame0 b c -> frame0 a c.
Proof. unfold frame0; intuition congruence. Qed.

Lemma frame_frame0 {A : Type} (c : M A) : keeps frame c -> keeps frame0 c.
Proof. intros H r. specialize (H r). unfold frame, frame0 in *. intuition. Qed.

Lemma frame0_set_error s : keeps frame0 (set_error_message s).
Proof. intro r; unfold frame0; simpl; intuition. Qed.

Ltac frame0_prim :=
  first [ apply frame0_set_error
        | apply frame_frame0;
          first [ apply frame_log | apply frame_notify | apply frame_set_hash
                | apply frame_set_progress ] ].

Ltac frame0_auto := repeat keeps_step frame0_refl frame0_trans frame0_prim.

Lemma frame0_pre_wipe_checks w : keeps frame0 (_pre_wipe_checks w).
Proof.
  unfold _pre_wipe_checks, _take_pre_wipe_sample. frame0_auto.
Qed.

Lemma frame0_execute_wipe_method w : keeps frame0 (_execute_wipe_method w).
Proof.
  unfold _execute_wipe_method.
  apply keeps_bind; [exact frame0_trans| |intro o].
  { apply keeps_get_op; exact frame0_refl. }
  apply keeps_bind; [exact frame0_trans| |intros _].
  { apply frame_frame0, frame_log. }
  destruct (method o).
  - apply frame_frame0, frame_ata.
  - apply frame_frame0, frame_nvme_secure.
  - apply frame_frame0, frame_nvme_crypto.
  - apply frame_frame0, frame_multipass.
  - apply frame_frame0, frame_single_pass.
  - apply frame_frame0, frame_crypto.
  - frame0_auto.
Qed.

Lemma frame_verify_samples w path size n idx :
  keeps frame (verify_samples w path size n idx).
Proof.
  destruct idx as [|i rest]; simpl; frame_auto.
Qed.

Lemma frame_post_wipe_verification w : keeps frame (_post_wipe_verification w).
Proof.
  unfold _post_wipe_verification, _take_post_wipe_sample.
  apply frame_bind; [apply frame_get|intro o].
  apply frame_bind; [apply frame_log|intros _].
  apply frame_bind; [apply frame_verify_samples|intro ok].
  frame_auto.
Qed.

Lemma fallback_of_diagnose (e : string) :
  fallback_of (diagnose_and_resolve_errors e)
  = if unsupported_error e then Some SINGLE_PASS_RANDOM else None.
Proof.
  unfold unsupported_error, diagnose_and_resolve_errors, fallback_of.
  destruct (str_in "permission denied" (lower e)); simpl; [reflexivity|].
  destruct (str_in "device busy" (lower e)); simpl; [reflexivity|].
  destruct (str_in "resource busy" (lower e)); simpl; [reflexivity|].
  destruct (str_in "not supported" (lower e)); simpl; [reflexivity|].
  destruct (str_in "timeout" (lower e)); reflexivity.
Qed.



Lemma handler_outcome w e r :
  let out := handler w e r in
  status (op (snd out)) = FAILED
  /\ error_message (op (snd out)) = Some e
  /\ (unsupported_error e = true ->
      method (op (snd out)) = SINGLE_PASS_RANDOM)
  /\ (unsupported_error e = false ->
      fst out = Ok false /\ method (op (snd out)) = method (op r)).
Proof.
  unfold handler. rewrite fallback_of_diagnose.
  destruct (unsupported_error e); simpl.
  - unfold call_phase.
    destruct (escaping w Sanitize 1); simpl.
    + repeat split; congruence.
    + match goal with
      | |- context [_execute_wipe_method w ?r2] =>
          pose proof (@frame_execute_wipe_method w r2) as F;
          destruct (_execute_wipe_method w r2) as [b r3]
      end.
      simpl in F. destruct F as (_ & Fm & Fs & Fe & _); [discriminate|].
      simpl. rewrite Fm, Fs, Fe. simpl.
      repeat split; congruence.
  - repeat split; congruence.
Qed.

(** Whatever the tool reported, a sanitize phase that returns [False]
    ends the operation: it is failed, the call returns [False] and the
    method is the one it started with. *)
Lemma sanitize_failure_is_final (w : World) (r : Run) :
  nothing_escapes w ->
  fst (_pre_wipe_checks w (started w r)) = true ->
  fst (_execute_wipe_method w (snd (_pre_wipe_checks w (started w r))))
  = false ->
  let out := execute_operation w r in
  fst out = Ok false
  /\ status (op (snd out)) = FAILED
  /\ method (op (snd out)) = method (op r).
Proof.
  intros Hesc Hpre Hrun.
  unfold execute_operation.
  change ((set_start_time (clock_start w);; set_status IN_PROGRESS)%wipe r)
    with (tt, started w r).
  cbv iota beta.
  unfold try_block, call_phase. rewrite !Hesc.
  pose proof (frame0_pre_wipe_checks w (started w r)) as F1.
  destruct (_pre_wipe_checks w (started w r)) as [b1 ra].
  simpl in Hpre, Hrun, F1. subst b1.
  pose proof (frame0_execute_wipe_method w ra) as F2.
  destruct (_execute_wipe_method w ra) as [b2 rb].
  simpl in Hrun, F2. subst b2. simpl.
  destruct F1 as (_ & M1 & _), F2 as (_ & M2 & _).
  repeat split. rewrite M2, M1. reflexivity.
Qed.

(** C4: the code at the failing inputs.  (1) The drive answers the
    security command with "not supported": the driver returns [False],
    the executor marks the operation failed and returns [False]; no method
    is substituted and nothing is logged about a substitution.  (2) An
    exception with that text reaches the handler: [single_pass_random] is
    substituted and succeeds, the call returns [True], yet the operation
    stays failed, its progress is not complete, it has no end time and no
    verification ran (no post-wipe sample). *)
Lemma C4_fallback_does_not_complete :
  let a := execute_operation Scenario.world_unsupported
                             (Scenario.fresh Scenario.ssd) in
  let b := execute_operation
             (Scenario.world_raises "Operation not supported")
             (Scenario.fresh Scenario.ssd) in
  (fst a = Ok false
   /\ method (op (snd a)) = ATA_SECURE_ERASE
   /\ status (op (snd a)) = FAILED
   /\ operation_log (op (snd a))
      = [ "Operation prepared for /dev/sdc";
          "Selected method: ata_secure_erase";
          "Starting pre-wipe checks";
          "Pre-wipe checks completed";
          "Executing wipe method: ata_secure_erase";
          "Starting ATA Secure Erase";
          "Failed to set security password: security-set-pass: Operation not supported" ])
  /\ (fst b = Ok true
      /\ method (op (snd b)) = SINGLE_PASS_RANDOM
      /\ status (op (snd b)) = FAILED
      /\ end_time (op (snd b)) = None
      /\ dict_get "post_wipe_sample"
                  (WipeCore.verification_hashes (op (snd b))) = None).
Proof. vm_compute. repeat split. Qed.

(* ================================================================== *)
(** * Post-wipe verification *)
(* ================================================================== *)

Lemma int_of_float_small (q : Q) :
  (0 <= q)%Q -> (q < 1)%Q -> int_of_float q = 0.
Proof.
  destruct q as [n d]. unfold Qle, Qlt, int_of_float; simpl.
  intros H0 H1. apply Z.quot_small. lia.
Qed.

Lemma int_of_float_ge_1 (q : Q) : (1 <= q)%Q -> 1 <= int_of_float q.
Proof.
  destruct q as [n d]. unfold Qle, int_of_float; simpl. intro H.
  rewrite Z.quot_div_nonneg by lia.
  apply Z.div_le_lower_bound; lia.
Qed.

Lemma py_range_nonpositive (n : Z) : n <= 0 -> py_range n = [].
Proof.
  intro H. unfold py_range.
  replace (Z.to_nat n) with O by lia. reflexivity.
Qed.

Lemma py_range_positive (n : Z) :
  1 <= n -> exists rest, py_range n = 0 :: rest.
Proof.
  intro H. unfold py_range.
  destruct (Z.to_nat n) as [|k] eqn:E; [lia|].
  simpl. eauto.
Qed.

(** The sector handed to [_verify_sector_wiped] is always a float, and a
    float is no file offset. *)
Lemma sampled_sector_is_rejected (w : World) (size : Q) (n i : Z) :
  _verify_sector_wiped w (sample_sector size n i) = false.
Proof. reflexivity. Qed.

(** From one gigabyte on, the verification fails whatever the device
    holds. *)
Lemma verification_fails_from_one_gb (w : World) (r : Run) :
  (1 <= size_gb (WipeCore.device_info (op r)))%Q ->
  fst (_post_wipe_verification w r) = false.
Proof.
  intro H.
  assert (Hc : 1 <= sample_count_of (size_gb (WipeCore.device_info (op r)))).
  { unfold sample_count_of. apply int_of_float_ge_1 in H. lia. }
  destruct (py_range_positive Hc) as [rest Hr].
  unfold _post_wipe_verification, bind, get_op, log, upd_op. simpl.
  rewrite Hr. reflexivity.
Qed.

(** C7: the code at the failing input.  A 256 GB drive reads back zeros
    in every sector after a successful secure erase.  A zeroed sector has
    one distinct byte value, and at an integer sector number the check
    accepts it; the sector number the verification computes is a float,
    the check rejects it, the verification stops at the first of the 100
    samples and the operation is failed. *)
Lemma C7_zeroed_device_fails_verification :
  let w := Scenario.world_all_fine in
  let out := execute_operation w (Scenario.fresh Scenario.ssd) in
  sample_count_of 256 = 100
  /\ read_at w 0 = Ok (repeat x00 512)
  /\ _verify_sector_wiped w (PInt 0) = true
  /\ sample_sector 256 100 0 = PFloat 0
  /\ _verify_sector_wiped w (sample_sector 256 100 0) = false
  /\ fst out = Ok false
  /\ status (op (snd out)) = FAILED
  /\ error_message (op (snd out)) = Some "Post-wipe verification failed".
Proof. vm_compute. repeat split. Qed.

Lemma pre_wipe_checks_ignores_contents w f :
  _pre_wipe_checks (with_read_at w f) = _pre_wipe_checks w.
Proof. reflexivity. Qed.

Lemma execute_wipe_method_ignores_contents w f :
  _execute_wipe_method (with_read_at w f) = _execute_wipe_method w.
Proof. reflexivity. Qed.

Lemma verification_of_small_device (w : World) (r : Run) :
  sample_count_of (size_gb (WipeCore.device_info (op r))) = 0 ->
  _post_wipe_verification w r
  = (log "Starting post-wipe verification" ;;
     log "Post-wipe verification passed" ;;
     _take_post_wipe_sample w ;;
     ret true)%wipe r.
Proof.
  intro H. unfold _post_wipe_verification, bind, get_op. simpl.
  rewrite H. reflexivity.
Qed.

(** C10: on a device of less than one gigabyte the sample count is zero,
    the list of sampled sectors is empty, the verification reports
    success and is the same whatever the device holds; when pre-flight and
    sanitisation succeed the operation is completed, again whatever the
    device holds. *)
Theorem C10_small_device_is_not_inspected (w : World) (r : Run) :
  (0 <= size_gb (WipeCore.device_info (op r)))%Q ->
  (size_gb (WipeCore.device_info (op r)) < 1)%Q ->
  sample_count_of (size_gb (WipeCore.device_info (op r))) = 0
  /\ py_range (sample_count_of (size_gb (WipeCore.device_info (op r)))) = []
  /\ fst (_post_wipe_verification w r) = true
  /\ (forall f,
        _post_wipe_verification (with_read_at w f) r
        = _post_wipe_verification w r)
  /\ (sanitized w r ->
      forall f,
        let out := execute_operation (with_read_at w f) r in
        fst out = Ok true /\ status (op (snd out)) = COMPLETED).
Proof.
  intros H0 H1.
  assert (Hc : sample_count_of (size_gb (WipeCore.device_info (op r))) = 0).
  { unfold sample_count_of. rewrite (int_of_float_small H0 H1). reflexivity. }
  split; [exact Hc|].
  split; [rewrite Hc; reflexivity|].
  split.
  { rewrite (verification_of_small_device w r Hc).
    unfold _take_post_wipe_sample. destruct (post_sample w); reflexivity. }
  split.
  { intro f. rewrite !verification_of_small_device by exact Hc.
    reflexivity. }
  intros (Hesc & Hpre & Hrun) f.
  unfold execute_operation.
  change ((set_start_time (clock_start (with_read_at w f));;
           set_status IN_PROGRESS)%wipe r)
    with (tt, started w r).
  cbv iota beta.
  unfold try_block, call_phase.
  change (escaping (with_read_at w f)) with (escaping w).
  rewrite !Hesc.
  rewrite pre_wipe_checks_ignores_contents.
  pose proof (frame0_pre_wipe_checks w (started w r)) as F1.
  destruct (_pre_wipe_checks w (started w r)) as [b1 ra].
  simpl in Hpre, Hrun, F1. subst b1.
  rewrite execute_wipe_method_ignores_contents.
  pose proof (frame0_execute_wipe_method w ra) as F2.
  destruct (_execute_wipe_method w ra) as [b2 rb].
  simpl in Hrun, F2. subst b2.
  assert (Hd : WipeCore.device_info (op rb) = WipeCore.device_info (op r)).
  { destruct F1 as (D1 & _), F2 as (D2 & _). rewrite D2, D1. reflexivity. }
  rewrite verification_of_small_device by (rewrite Hd; exact Hc).
  unfold _take_post_wipe_sample.
  change (post_sample (with_read_at w f)) with (post_sample w).
  destruct (post_sample w); simpl; split; reflexivity.
Qed.

Lemma C10_small_device_is_not_inspected_witness :
  let out := execute_operation Scenario.world_residue
                               (Scenario.fresh Scenario.stick) in
  _verify_sector_wiped Scenario.world_residue (PInt 0) = false
  /\ fst out = Ok true /\ status (op (snd out)) = COMPLETED.
Proof.
  split; [vm_compute; reflexivity|].
  refine (proj2 (proj2 (proj2 (proj2
            (@C10_small_device_is_not_inspected Scenario.world_all_fine
               (Scenario.fresh Scenario.stick) _ _)))) _
            (fun _ => Ok Scenario.residue)).
  - vm_compute. discriminate.
  - vm_compute. reflexivity.
  - split; [intros p n; reflexivity|].
    split; vm_compute; reflexivity.
Defined.

(* ================================================================== *)
(** * The hash-chained log *)
(* ================================================================== *)

Lemma string_app_nil_r (s : string) : s ++ "" = s.
Proof. induction s; simpl; congruence. Qed.

Lemma string_app_assoc (a b c : string) : (a ++ b) ++ c = a ++ (b ++ c).
Proof. induction a; simpl; congruence. Qed.

Lemma string_app_length (a b : string) :
  String.length (a ++ b) = (String.length a + String.length b)%nat.
Proof. induction a; simpl; congruence. Qed.

Lemma string_app_inv_head (a x y : string) : a ++ x = a ++ y -> x = y.
Proof. induction a; simpl; intro H; [exact H|]. injection H. auto. Qed.

Lemma string_app_inv_tail (b x y : string) : x ++ b = y ++ b -> x = y.
Proof.
  revert y. induction x as [|c x IH]; destruct y as [|c' y]; simpl; intro H.
  - reflexivity.
  - exfalso. apply (f_equal String.length) in H. simpl in H.
    rewrite string_app_length in H. lia.
  - exfalso. apply (f_equal String.length) in H. simpl in H.
    rewrite string_app_length in H. lia.
  - injection H as Hc Hx. rewrite (IH _ Hx). congruence.
Qed.

Lemma one_byte_changed_neq (s s' : string) : one_byte_changed s s' -> s <> s'.
Proof.
  induction 1 as [c c' s Hc | c s s' _ IH]; intro E; injection E; auto.
Qed.

Lemma log_field_eq_prev (f : log_field) : {f = F_prev_hash} + {f <> F_prev_hash}.
Proof. destruct f; (left; reflexivity) || (right; discriminate). Qed.

Section LogChain.
Context {HL : Hashlib} {FR : FloatRepr}.

Import Logger.

Lemma tail_from_app expected l e :
  tail_from expected (l ++ [e]) = entry_hash e.
Proof. revert expected. induction l; simpl; auto. Qed.

Lemma chain_tail_hash_spec (chain : list LogEntry) :
  chain_tail_hash chain = tail_from genesis_hash chain.
Proof.
  unfold chain_tail_hash.
  destruct chain as [|e l] using rev_ind; [reflexivity|].
  rewrite rev_app_distr, tail_from_app. reflexivity.
Qed.

Lemma walk_chain_app expected l1 l2 :
  walk_chain expected (l1 ++ l2)
  = (walk_chain expected l1 && walk_chain (tail_from expected l1) l2)%bool.
Proof.
  revert expected. induction l1 as [|e l1 IH]; intro expected; simpl.
  - reflexivity.
  - destruct (negb (String.eqb (previous_hash e) expected)); [reflexivity|].
    destruct (negb (String.eqb (entry_hash e) (calculate_hash e)));
      [reflexivity|].
    apply IH.
Qed.

Lemma verify_is_walk (lg : TamperProofLogger) :
  verify_chain_integrity lg = walk_chain genesis_hash (log_chain lg).
Proof. unfold verify_chain_integrity. destruct (log_chain lg); reflexivity. Qed.

(** One append keeps a valid chain valid. *)
Lemma add_entry_valid lg now uuid message level :
  verify_chain_integrity lg = true ->
  verify_chain_integrity (snd (add_entry lg now uuid message level)) = true.
Proof.
  rewrite !verify_is_walk. simpl. intro H.
  rewrite walk_chain_app, H, chain_tail_hash_spec. simpl.
  unfold calculate_hash, hash_data; simpl.
  rewrite !String.eqb_refl. reflexivity.
Qed.

Lemma append_all_valid lg appends :
  verify_chain_integrity lg = true ->
  verify_chain_integrity (append_all lg appends) = true.
Proof.
  revert lg. induction appends as [|[[[now uuid] message] level] rest IH];
    intros lg H; simpl.
  - exact H.
  - apply IH. apply add_entry_valid. exact H.
Qed.

(** A changed field changes the hashed text. *)
Lemma tampered_hash_data f e e' :
  f <> F_prev_hash -> tampered f e e' -> hash_data e' <> hash_data e.
Proof.
  intros Hf (Hid & _ & Hrest) E. unfold hash_data in E.
  destruct f; try congruence.
  - destruct Hrest as (Hc & Ht & Hl & Hp).
    rewrite Ht, Hid, Hl, Hp in E.
    apply string_app_inv_head in E. apply string_app_inv_head in E.
    apply string_app_inv_tail in E.
    apply one_byte_changed_neq in Hc. congruence.
  - destruct Hrest as (Hc & Hm & Hl & Hp).
    rewrite Hid, Hm, Hl, Hp in E.
    apply string_app_inv_tail in E.
    apply one_byte_changed_neq in Hc. congruence.
  - destruct Hrest as (Hc & Ht & Hm & Hp).
    rewrite Ht, Hid, Hm, Hp in E.
    do 3 apply string_app_inv_head in E.
    apply string_app_inv_tail in E.
    apply one_byte_changed_neq in Hc. congruence.
Qed.

(** The walk stops at a tampered entry. *)
Lemma walk_chain_tampered expected l1 e l2 f e' :
  walk_chain expected (l1 ++ e :: l2) = true ->
  tampered f e e' -> no_collision e e' ->
  walk_chain expected (l1 ++ e' :: l2) = false.
Proof.
  intros Hvalid Ht Hnc.
  rewrite walk_chain_app in *.
  apply andb_true_iff in Hvalid. destruct Hvalid as [H1 H2]. rewrite H1.
  simpl in *.
  destruct (String.eqb (previous_hash e) (tail_from expected l1)) eqn:Ep;
    [|discriminate].
  destruct (String.eqb (entry_hash e) (calculate_hash e)) eqn:Eh;
    [|discriminate].
  apply String.eqb_eq in Ep, Eh.
  destruct (log_field_eq_prev f) as [Hf|Hf].
  - subst f. destruct Ht as (_ & _ & Hc & _).
    apply one_byte_changed_neq in Hc.
    replace (String.eqb (previous_hash e') (tail_from expected l1))
      with false; [reflexivity|].
    symmetry. apply String.eqb_neq. congruence.
  - pose proof (tampered_hash_data Hf Ht) as Hd.
    assert (Hp : previous_hash e' = previous_hash e).
    { destruct Ht as (_ & _ & Hr). destruct f; intuition congruence. }
    rewrite Hp, Ep, String.eqb_refl. simpl.
    replace (String.eqb (entry_hash e') (calculate_hash e')) with false;
      [reflexivity|].
    symmetry. apply String.eqb_neq.
    destruct Ht as (_ & Hh & _). rewrite Hh, Eh.
    unfold calculate_hash. intro E. apply Hd. apply Hnc. congruence.
Qed.

(** C2: after any number of appends to a valid (possibly empty) chain
    [verify_chain_integrity] returns true; and changing one byte of the
    message, the timestamp, the level or the previous hash of any entry
    of that chain makes it return false (the changed text and the
    original not being a SHA-256 collision). *)
Theorem C2_log_chain_integrity
    (start : TamperProofLogger)
    (appends : list (Q * string * string * string)) :
  verify_chain_integrity start = true ->
  verify_chain_integrity (append_all start appends) = true
  /\ forall (l1 l2 : list LogEntry) (e e' : LogEntry) (f : log_field),
       log_chain (append_all start appends) = (l1 ++ e :: l2)%list ->
       tampered f e e' ->
       no_collision e e' ->
       verify_chain_integrity {| log_chain := l1 ++ e' :: l2 |} = false.
Proof.
  intros Hstart.
  pose proof (append_all_valid start appends Hstart) as Hvalid.
  split; [exact Hvalid|].
  intros l1 l2 e e' f Hsplit Ht Hnc.
  rewrite verify_is_walk in *. simpl.
  rewrite Hsplit in Hvalid.
  eapply walk_chain_tampered; eassumption.
Qed.

End LogChain.

Lemma C2_log_chain_integrity_witness :
  let HL := StandIn.hashlib_plain in
  let FR := StandIn.float_repr_decimal in
  let lg := append_all {| Logger.log_chain := [] |} LogExample.two_appends in
  Logger.verify_chain_integrity lg = true
  /\ Logger.verify_chain_integrity
       {| Logger.log_chain :=
            [ LogExample.first_entry_tampered; LogExample.second_entry ] |}
     = false.
Proof.
  intros HL FR lg.
  destruct (@C2_log_chain_integrity HL FR {| Logger.log_chain := [] |}
              LogExample.two_appends eq_refl) as [Hv Ht].
  split; [exact Hv|].
  apply (Ht [] [LogExample.second_entry] LogExample.first_entry
            LogExample.first_entry_tampered F_message).
  - reflexivity.
  - repeat split.
    do 10 apply changed_later. apply changed_here. discriminate.
  - intro H. vm_compute in H. discriminate H.
Defined.

(* ================================================================== *)
(** * The canonical form of a certificate *)
(* ================================================================== *)

Section Canonical.
Context {HL : Hashlib} {FR : FloatRepr} {B64 : Base64} {EC : Ecdsa}.

(** The signature and the anchor are not part of the canonical form. *)
Lemma canonical_json_asdict (c : Cert.CertificateData) :
  Cert.canonical_json (Cert.asdict c)
  = dumps (JDict
      [ ("certificate_id", JStr (Cert.certificate_id c));
        ("timestamp", JStr (Cert.timestamp c));
        ("device_info", JDict (Cert.device_info c));
        ("wipe_operation", JDict (Cert.wipe_operation c));
        ("verification_hashes", JDict (Cert.verification_hashes c));
        ("operation_log", JList (Cert.operation_log c));
        ("tool_info", JDict (Cert.tool_info c));
        ("compliance_info", JDict (Cert.compliance_info c)) ]).
Proof. reflexivity. Qed.

Lemma canonical_json_with_signature (c : Cert.CertificateData) (s : string) :
  Cert.canonical_json (Cert.asdict (Cert.with_signature c s))
  = Cert.canonical_json (Cert.asdict c).
Proof. rewrite !canonical_json_asdict. reflexivity. Qed.

(** What a successful [generate_certificate] wrote. *)
Lemma generate_certificate_document gen dr operation dir doc :
  fst (Cert.generate_certificate gen dr operation dir) = Ok (JDict doc) ->
  exists s,
    Cert.sign_data (Cert.signer gen) (Cert.sign_nonce dr)
      (Cert.canonical_json (Cert.asdict
         (Cert._prepare_certificate_data
            {| Cert.logger :=
                 snd (Logger.add_entry (Cert.logger gen)
                        (Cert.log_time_1 dr) (Cert.log_uuid_1 dr)
                        ("Starting certificate generation for "
                         ++ device_path (WipeCore.device_info operation))
                        "INFO");
               Cert.signer := Cert.signer gen |}
            (Cert.cert_uuid dr) (Cert.cert_now_iso dr) operation)))
    = Ok s
    /\ doc = Cert.asdict
         (Cert.with_signature
            (Cert._prepare_certificate_data
               {| Cert.logger :=
                    snd (Logger.add_entry (Cert.logger gen)
                           (Cert.log_time_1 dr) (Cert.log_uuid_1 dr)
                           ("Starting certificate generation for "
                            ++ device_path (WipeCore.device_info operation))
                           "INFO");
                  Cert.signer := Cert.signer gen |}
               (Cert.cert_uuid dr) (Cert.cert_now_iso dr) operation) s).
Proof.
  unfold Cert.generate_certificate, Cert._sign_certificate.
  simpl.
  destruct (Cert.prepare_fault dr); simpl; [discriminate|].
  match goal with
  | |- context [Cert.sign_data ?sg ?n ?d] =>
      destruct (Cert.sign_data sg n d) as [s|e] eqn:Es
  end; simpl; [|discriminate].
  destruct (Cert.json_fault dr); simpl; [discriminate|].
  destruct (Cert.pdf_fault dr); simpl; [discriminate|].
  intro H.
  exists s. split; [reflexivity|]. injection H as H. symmetry. exact H.
Qed.

(** C5 (amended): two builds from the same operation, the same log and
    the same signer produce byte-identical canonical forms provided they
    draw the same certificate identifier, the same issue time and the same
    identifier and time for the log entry that opens the build; the
    signature nonce, the closing log entry and the output directory do not
    enter the canonical form. *)
Theorem C5_canonical_form_deterministic
    (gen : Cert.CertificateGenerator) (operation : WipeOperation)
    (dr1 dr2 : Cert.Draws) (dir1 dir2 : string)
    (doc1 doc2 : list (string * json)) :
  Cert.cert_uuid dr1 = Cert.cert_uuid dr2 ->
  Cert.cert_now_iso dr1 = Cert.cert_now_iso dr2 ->
  Cert.log_time_1 dr1 = Cert.log_time_1 dr2 ->
  Cert.log_uuid_1 dr1 = Cert.log_uuid_1 dr2 ->
  fst (Cert.generate_certificate gen dr1 operation dir1) = Ok (JDict doc1) ->
  fst (Cert.generate_certificate gen dr2 operation dir2) = Ok (JDict doc2) ->
  Cert.canonical_json doc1 = Cert.canonical_json doc2.
Proof.
  intros Hu Hn Ht Hi H1 H2.
  apply generate_certificate_document in H1, H2.
  destruct H1 as (s1 & _ & ->), H2 as (s2 & _ & ->).
  rewrite !canonical_json_with_signature.
  rewrite Hu, Hn, Ht, Hi. reflexivity.
Qed.

End Canonical.

(** C5, as stated, does not hold: every build draws a fresh certificate
    identifier (and reads the clock), and both are part of the canonical
    form.  Two builds from the same generator state, the same log and the
    same operation give different canonical forms. *)
Lemma C5_two_builds_differ :
  CertExample.document CertExample.draws_1 <> []
  /\ CertExample.document CertExample.draws_2 <> []
  /\ Cert.canonical_json
       (CertExample.document CertExample.draws_1)
     <> Cert.canonical_json
          (CertExample.document CertExample.draws_2).
Proof.
  repeat split; vm_compute; discriminate.
Qed.

Lemma C5_canonical_form_deterministic_witness :
  Cert.canonical_json
    (CertExample.document CertExample.draws_1)
  = Cert.canonical_json
      (CertExample.document CertExample.draws_3).
Proof.
  apply (@C5_canonical_form_deterministic
           StandIn.hashlib_plain StandIn.float_repr_decimal
           StandIn.base64_plain StandIn.ecdsa_plain
           CertExample.generator CertExample.operation
           CertExample.draws_1 CertExample.draws_3 "/tmp" "/tmp");
    reflexivity.
Defined.

(* ================================================================== *)
(** * The canonical form determines the value *)
(* ================================================================== *)

Ltac all_ascii c := destruct c as [[|] [|] [|] [|] [|] [|] [|] [|]].

Lemma string_forallb_impl (p q : ascii -> bool) (s : string) :
  (forall c, p c = true -> q c = true) ->
  string_forallb p s = true -> string_forallb q s = true.
Proof.
  intro Hpq. induction s as [|c s IH]; simpl; [reflexivity|].
  intro H. apply andb_true_iff in H. destruct H as [Hc Hs].
  rewrite (Hpq _ Hc), (IH Hs). reflexivity.
Qed.

Lemma int_char_float_char c : int_char c = true -> float_char c = true.
Proof. all_ascii c; vm_compute; intro H; first [reflexivity | discriminate H]. Qed.

Lemma float_char_tok_char c : float_char c = true -> tok_char c = true.
Proof. all_ascii c; vm_compute; intro H; first [reflexivity | discriminate H]. Qed.

Lemma tok_char_not_delim c : tok_char c = true -> delim c = false.
Proof. all_ascii c; vm_compute; intro H; first [reflexivity | discriminate H]. Qed.

(** A text of token characters ends where the first delimiter stands. *)
Lemma token_split (t1 : string) :
  forall t2 r1 r2,
    string_forallb tok_char t1 = true ->
    string_forallb tok_char t2 = true ->
    starts_delim r1 -> starts_delim r2 ->
    t1 ++ r1 = t2 ++ r2 -> t1 = t2 /\ r1 = r2.
Proof.
  induction t1 as [|c1 t1 IH]; intros [|c2 t2] r1 r2 H1 H2 D1 D2 E;
    simpl in *.
  - auto.
  - subst r1. simpl in D1. apply andb_true_iff in H2. destruct H2 as [H2 _].
    apply tok_char_not_delim in H2. congruence.
  - subst r2. simpl in D2. apply andb_true_iff in H1. destruct H1 as [H1 _].
    apply tok_char_not_delim in H1. congruence.
  - injection E as Ec Et. subst c2.
    apply andb_true_iff in H1, H2. destruct H1 as [_ H1], H2 as [_ H2].
    destruct (IH t2 r1 r2 H1 H2 D1 D2 Et) as [-> ->]. auto.
Qed.

(** *** Integer literals *)

Lemma string_of_uint_digits (d : Decimal.uint) :
  string_forallb is_digit (NilEmpty.string_of_uint d) = true.
Proof. induction d; simpl; auto. Qed.

Lemma is_digit_int_char c : is_digit c = true -> int_char c = true.
Proof. unfold int_char. intros ->. reflexivity. Qed.

Lemma nilzero_uint_digits (d : Decimal.uint) :
  string_forallb int_char (NilZero.string_of_uint d) = true.
Proof.
  apply string_forallb_impl with (p := is_digit); [exact is_digit_int_char|].
  destruct d; try apply string_of_uint_digits. reflexivity.
Qed.

Lemma z_str_int_chars (z : Z) : string_forallb int_char (z_str z) = true.
Proof.
  unfold z_str. destruct (Z.to_int z) as [d|d]; simpl.
  - apply nilzero_uint_digits.
  - apply nilzero_uint_digits.
Qed.

Lemma z_str_nonempty (z : Z) : z_str z <> "".
Proof.
  unfold z_str. destruct (Z.to_int z) as [d|d]; simpl; [|discriminate].
  destruct d; simpl; discriminate.
Qed.

Lemma z_str_inj (z1 z2 : Z) : z_str z1 = z_str z2 -> z1 = z2.
Proof.
  unfold z_str. intro H.
  assert (Hnn : forall z, Z.to_int z <> Decimal.Pos Decimal.Nil
                         /\ Z.to_int z <> Decimal.Neg Decimal.Nil).
  { intros [|p|p]; simpl; split; try discriminate;
      intro E; injection E; apply DecimalPos.Unsigned.to_uint_nonnil. }
  assert (E : Some (Z.to_int z1) = Some (Z.to_int z2)).
  { rewrite <- (NilZero.isi (Z.to_int z1) (proj1 (Hnn z1)) (proj2 (Hnn z1))).
    rewrite <- (NilZero.isi (Z.to_int z2) (proj1 (Hnn z2)) (proj2 (Hnn z2))).
    rewrite H. reflexivity. }
  injection E as E.
  rewrite <- (DecimalZ.of_to z1), <- (DecimalZ.of_to z2), E. reflexivity.
Qed.

(** *** Scalars *)

Lemma scalar_text_dumps v t : scalar_text v = Some t -> dumps v = t.
Proof.
  destruct v as [| [|] | | | | |]; simpl; intro H;
    first [discriminate H | injection H as H; exact H].
Qed.

Lemma float_text_parts t :
  float_text t = true ->
  t <> "" /\ string_forallb float_char t = true
  /\ string_forallb int_char t = false.
Proof.
  unfold float_text. intro H.
  apply andb_true_iff in H. destruct H as [H H3].
  apply andb_true_iff in H. destruct H as [H1 H2].
  apply negb_true_iff in H1, H3. apply String.eqb_neq in H1. auto.
Qed.

Lemma scalar_text_token v t :
  wf_json v = true -> scalar_text v = Some t ->
  t <> "" /\ string_forallb tok_char t = true.
Proof.
  destruct v as [| [|] | z | t' | | |]; simpl; intros Hwf H;
    try discriminate H; injection H as <-.
  - split; [discriminate | reflexivity].
  - split; [discriminate | reflexivity].
  - split; [discriminate | reflexivity].
  - split; [apply z_str_nonempty|].
    apply string_forallb_impl with (p := int_char); [|apply z_str_int_chars].
    intros c Hc. apply float_char_tok_char, int_char_float_char, Hc.
  - destruct (float_text_parts _ Hwf) as (Hne & Hf & _).
    split; [exact Hne|].
    apply string_forallb_impl with (p := float_char);
      [exact float_char_tok_char | exact Hf].
Qed.

Lemma scalar_text_inj v1 v2 t :
  wf_json v1 = true -> wf_json v2 = true ->
  scalar_text v1 = Some t -> scalar_text v2 = Some t -> v1 = v2.
Proof.
  intros W1 W2 H1 H2.
  assert (E : scalar_text v1 = scalar_text v2) by congruence.
  clear H2.
  destruct v1 as [| [|] | z1 | t1 | | |]; simpl in E, H1;
    try discriminate H1; clear H1;
    destruct v2 as [| [|] | z2 | t2 | | |]; simpl in E;
    try reflexivity; try discriminate E; injection E as E; simpl in *.
  all: try (exfalso;
            match goal with
            | Hz : z_str ?z = _ |- _ =>
                pose proof (z_str_int_chars z) as Hc; rewrite Hz in Hc;
                vm_compute in Hc; discriminate Hc
            | Hz : _ = z_str ?z |- _ =>
                pose proof (z_str_int_chars z) as Hc; rewrite <- Hz in Hc;
                vm_compute in Hc; discriminate Hc
            end).
  all: try (exfalso;
            match goal with
            | Hw : float_text ?t = true |- _ =>
                destruct (float_text_parts _ Hw) as (_ & Hf & Hi)
            end;
            first [ subst; vm_compute in Hf; discriminate Hf
                  | match goal with
                    | Hz : ?t = z_str ?z |- _ =>
                        rewrite Hz, z_str_int_chars in Hi; discriminate Hi
                    | Hz : z_str ?z = ?t |- _ =>
                        rewrite <- Hz, z_str_int_chars in Hi; discriminate Hi
                    end ]).
  - f_equal. apply z_str_inj. exact E.
  - congruence.
Qed.

Lemma shape_scalar v : shape v = O -> exists t, scalar_text v = Some t.
Proof.
  destruct v as [| [|] | | | | |]; simpl; intro H;
    try discriminate H; eauto.
Qed.

Lemma shape_scalar_norm v : shape v = O -> norm v = v.
Proof. destruct v; simpl; intro H; try discriminate H; reflexivity. Qed.

(** *** Strings *)

Lemma unescape_escape_char c y :
  unescape_head (escape_char c ++ y) = Some (c, y).
Proof. all_ascii c; reflexivity. Qed.

Lemma escape_readable (s1 : string) :
  forall s2 x1 x2,
    escape s1 ++ String quote x1 = escape s2 ++ String quote x2 ->
    s1 = s2 /\ x1 = x2.
Proof.
  induction s1 as [|c1 s1 IH]; intros [|c2 s2] x1 x2 E; simpl in E.
  - injection E as E. auto.
  - exfalso. rewrite string_app_assoc in E.
    apply (f_equal unescape_head) in E.
    rewrite unescape_escape_char in E. discriminate E.
  - exfalso. rewrite string_app_assoc in E.
    apply (f_equal unescape_head) in E.
    rewrite unescape_escape_char in E. discriminate E.
  - rewrite !string_app_assoc in E.
    apply (f_equal unescape_head) in E.
    rewrite !unescape_escape_char in E. injection E as Ec Er.
    destruct (IH s2 x1 x2 Er) as [-> ->]. subst. auto.
Qed.

Lemma encode_str_readable s1 s2 x1 x2 :
  encode_str s1 ++ x1 = encode_str s2 ++ x2 -> s1 = s2 /\ x1 = x2.
Proof.
  unfold encode_str. simpl. intro E. injection E as E.
  rewrite !string_app_assoc in E. simpl in E.
  apply escape_readable in E. exact E.
Qed.

(** *** How a canonical form begins *)

Lemma tok_char_head_class c : tok_char c = true -> head_class c = O.
Proof. all_ascii c; vm_compute; intro H; first [reflexivity | discriminate H]. Qed.

Lemma dumps_head v :
  wf_json v = true ->
  exists c rest,
    dumps v = String c rest /\ head_class c = shape v /\ delim c = false.
Proof.
  intro W.
  destruct (shape v) eqn:S.
  - destruct (shape_scalar v S) as [t Ht].
    destruct (scalar_text_token v W Ht) as [Hne Htok].
    rewrite (scalar_text_dumps v Ht).
    destruct t as [|c rest]; [congruence|].
    simpl in Htok. apply andb_true_iff in Htok. destruct Htok as [Hc _].
    exists c, rest. split; [reflexivity|].
    split; [apply tok_char_head_class, Hc | apply tok_char_not_delim, Hc].
  - destruct v; simpl in S; try discriminate S;
      injection S as <-; simpl; eexists; eexists;
      (split; [reflexivity | split; reflexivity]).
Qed.

Lemma same_shape v1 v2 r1 r2 :
  wf_json v1 = true -> wf_json v2 = true ->
  dumps v1 ++ r1 = dumps v2 ++ r2 -> shape v1 = shape v2.
Proof.
  intros W1 W2 E.
  destruct (dumps_head v1 W1) as (c1 & x1 & E1 & S1 & _).
  destruct (dumps_head v2 W2) as (c2 & x2 & E2 & S2 & _).
  rewrite E1, E2 in E. simpl in E. injection E as Ec _.
  congruence.
Qed.

Lemma scalar_readable v1 v2 r1 r2 :
  shape v1 = O -> shape v2 = O ->
  wf_json v1 = true -> wf_json v2 = true ->
  starts_delim r1 -> starts_delim r2 ->
  dumps v1 ++ r1 = dumps v2 ++ r2 ->
  norm v1 = norm v2 /\ r1 = r2.
Proof.
  intros S1 S2 W1 W2 D1 D2 E.
  destruct (shape_scalar v1 S1) as [t1 H1].
  destruct (shape_scalar v2 S2) as [t2 H2].
  rewrite (scalar_text_dumps v1 H1), (scalar_text_dumps v2 H2) in E.
  destruct (scalar_text_token v1 W1 H1) as [_ T1].
  destruct (scalar_text_token v2 W2 H2) as [_ T2].
  destruct (token_split t1 t2 r1 r2 T1 T2 D1 D2 E) as [Et Er].
  subst t2. split; [|exact Er].
  rewrite (scalar_text_inj v1 v2 W1 W2 H1 H2). reflexivity.
Qed.

(** *** Sequences of items *)

Section Items.
Variables (A B : Type) (render : A -> string) (N : A -> B) (ok : A -> Prop).

#[local] Abbreviation readable := (@readable A B render N ok).

Hypothesis render_head :
  forall y, ok y -> exists c rest, render y = String c rest /\ delim c = false.

Variable close : ascii.
Hypothesis close_delim : delim close = true.
Hypothesis close_not_comma : close <> ","%char.

#[local] Abbreviation tail_text := (@tail_text A render close).

Lemma concat_cons_tail x l r :
  String.concat "," (map render (x :: l)) ++ String close r
  = render x ++ tail_text l r.
Proof.
  destruct l as [|y l]; simpl; [reflexivity|].
  rewrite !string_app_assoc. reflexivity.
Qed.

Lemma tail_text_delim l r : starts_delim (tail_text l r).
Proof. destruct l; simpl; [exact close_delim | reflexivity]. Qed.

Lemma tails_readable (l1 : list A) :
  Forall readable l1 ->
  forall l2 r1 r2,
    Forall ok l2 ->
    tail_text l1 r1 = tail_text l2 r2 -> map N l1 = map N l2 /\ r1 = r2.
Proof.
  induction 1 as [|x l1 Hx Hl IH]; intros [|y l2] r1 r2 O2 E.
  - simpl in E. injection E as E. auto.
  - exfalso. simpl in E. injection E as Ec _. auto.
  - exfalso. simpl in E. injection E as Ec _. auto.
  - unfold tail_text in E. rewrite !concat_cons_tail in E.
    injection E as E. inversion O2 as [|? ? Oy Ol]; subst.
    destruct (Hx y _ _ Oy (tail_text_delim l1 r1) (tail_text_delim l2 r2) E)
      as [En Et].
    destruct (IH l2 r1 r2 Ol Et) as [Em Er].
    simpl. rewrite En, Em. auto.
Qed.

Lemma items_readable (l1 l2 : list A) (r1 r2 : string) :
  Forall readable l1 -> Forall ok l1 -> Forall ok l2 ->
  String.concat "," (map render l1) ++ String close r1
  = String.concat "," (map render l2) ++ String close r2 ->
  map N l1 = map N l2 /\ r1 = r2.
Proof.
  intros R1 O1 O2 E.
  destruct l1 as [|x l1], l2 as [|y l2].
  - simpl in E. injection E as E. auto.
  - exfalso. rewrite concat_cons_tail in E. simpl in E.
    inversion O2 as [|? ? Oy _]; subst.
    destruct (render_head Oy) as (c & rest & Hr & Hc).
    rewrite Hr in E. simpl in E. injection E as Ec _. congruence.
  - exfalso. rewrite concat_cons_tail in E. simpl in E.
    inversion O1 as [|? ? Ox _]; subst.
    destruct (render_head Ox) as (c & rest & Hr & Hc).
    rewrite Hr in E. simpl in E. injection E as Ec _. congruence.
  - rewrite !concat_cons_tail in E.
    inversion R1 as [|? ? Rx Rl]; subst.
    inversion O2 as [|? ? Oy Ol]; subst.
    destruct (Rx y _ _ Oy (tail_text_delim l1 r1) (tail_text_delim l2 r2) E)
      as [En Et].
    destruct (tails_readable Rl _ _ Ol Et) as [Em Er].
    simpl. rewrite En, Em. auto.
Qed.

End Items.

(** *** Sorted items *)

Lemma insert_item_map {V W : Type} (f : V -> W) (x : string * V)
    (l : list (string * V)) :
  insert_item (fst x, f (snd x)) (map (fun kv => (fst kv, f (snd kv))) l)
  = map (fun kv => (fst kv, f (snd kv))) (insert_item x l).
Proof.
  induction l as [|y l IH]; simpl; [reflexivity|].
  destruct (String.leb (fst x) (fst y)); simpl; [reflexivity|].
  rewrite IH. reflexivity.
Qed.

Lemma sort_items_map {V W : Type} (f : V -> W) (l : list (string * V)) :
  sort_items (map (fun kv => (fst kv, f (snd kv))) l)
  = map (fun kv => (fst kv, f (snd kv))) (sort_items l).
Proof.
  induction l as [|x l IH]; simpl; [reflexivity|].
  rewrite IH. apply insert_item_map.
Qed.

Lemma In_insert_item {V : Type} (x y : string * V) l :
  In y (insert_item x l) -> y = x \/ In y l.
Proof.
  induction l as [|z l IH]; simpl.
  - intros [H|[]]; auto.
  - destruct (String.leb (fst x) (fst z)); simpl.
    + intros [H|[H|H]]; auto.
    + intros [H|H]; auto. destruct (IH H); auto.
Qed.

Lemma In_sort_items {V : Type} (y : string * V) l :
  In y (sort_items l) -> In y l.
Proof.
  induction l as [|x l IH]; simpl; [auto|].
  intro H. apply In_insert_item in H. destruct H; auto.
Qed.

Lemma Forall_sort_items {V : Type} (Q : string * V -> Prop) l :
  Forall Q l -> Forall Q (sort_items l).
Proof.
  rewrite !Forall_forall. intros H y Hy. apply H, In_sort_items, Hy.
Qed.

(** *** The equations of [dumps], [norm] and [wf_json] on containers *)

Lemma dumps_list l :
  dumps (JList l) = "[" ++ String.concat "," (map dumps l) ++ "]".
Proof.
  simpl. f_equal.
Qed.

Lemma dumps_dict d :
  dumps (JDict d)
  = "{" ++ String.concat "," (map render_pair (sort_items d)) ++ "}".
Proof.
  simpl. f_equal. f_equal. f_equal.
  match goal with
  | |- map render_item (sort_items ?e) = _ =>
      replace e with (map (fun kv => (fst kv, dumps (snd kv))) d)
  end.
  - rewrite sort_items_map, map_map. reflexivity.
  - induction d as [|[k x] d IH]; simpl; congruence.
Qed.

Lemma norm_dict d : norm (JDict d) = JDict (map norm_pair (sort_items d)).
Proof.
  simpl. f_equal.
  match goal with
  | |- sort_items ?e = _ =>
      replace e with (map (fun kv => (fst kv, norm (snd kv))) d)
  end.
  - apply sort_items_map.
  - induction d as [|[k x] d IH]; simpl; congruence.
Qed.

Lemma wf_list l :
  wf_json (JList l) = true <-> Forall (fun x => wf_json x = true) l.
Proof.
  simpl. induction l as [|x l IH].
  - split; auto.
  - rewrite andb_true_iff, IH. split.
    + intros [H1 H2]. constructor; assumption.
    + intro H. inversion H; auto.
Qed.

Lemma wf_dict d :
  wf_json (JDict d) = true <-> Forall (fun kv => wf_json (snd kv) = true) d.
Proof.
  simpl. induction d as [|[k x] d IH].
  - split; auto.
  - rewrite andb_true_iff, IH. split.
    + intros [H1 H2]. constructor; assumption.
    + intro H. inversion H; auto.
Qed.

Lemma dumps_head_delim v :
  wf_json v = true ->
  exists c rest, dumps v = String c rest /\ delim c = false.
Proof.
  intro W. destruct (dumps_head v W) as (c & rest & E & _ & D). eauto.
Qed.

(** *** The theorem *)

(** A canonical form, followed by a delimiter or by nothing, determines
    the value up to the order of dictionary items, and what follows. *)
Theorem dumps_readable (v1 : json) :
  forall v2 r1 r2,
    wf_json v1 = true -> wf_json v2 = true ->
    starts_delim r1 -> starts_delim r2 ->
    dumps v1 ++ r1 = dumps v2 ++ r2 ->
    norm v1 = norm v2 /\ r1 = r2.
Proof.
  induction v1 as [ | b | z | t | s | l IH | d IH ] using json_induction;
    intros v2 r1 r2 W1 W2 D1 D2 E;
    pose proof (same_shape _ _ _ _ W1 W2 E) as S.
  - apply scalar_readable; auto.
  - apply scalar_readable; auto.
  - apply scalar_readable; auto.
  - apply scalar_readable; auto.
  - destruct v2; simpl in S; try discriminate S.
    simpl in E. apply encode_str_readable in E.
    destruct E as [-> ->]. auto.
  - destruct v2 as [| | | | | l2 |]; simpl in S; try discriminate S.
    rewrite !dumps_list in E. simpl in E. injection E as E.
    rewrite !string_app_assoc in E. simpl in E.
    apply wf_list in W1, W2.
    assert (R : Forall (readable dumps norm (fun x => wf_json x = true)) l).
    { rewrite Forall_forall in *. intros x Hx y q1 q2 Wy Q1 Q2 Ey.
      apply (IH x Hx y q1 q2 (W1 x Hx) Wy Q1 Q2 Ey). }
    destruct (@items_readable _ _ dumps norm (fun x => wf_json x = true)
                dumps_head_delim "]"%char eq_refl ltac:(discriminate)
                l l2 r1 r2 R W1 W2 E) as [Em Er].
    simpl. rewrite Em. auto.
  - destruct v2 as [| | | | | | d2]; simpl in S; try discriminate S.
    rewrite !dumps_dict in E. simpl in E. injection E as E.
    rewrite !string_app_assoc in E. simpl in E.
    apply wf_dict in W1, W2.
    apply Forall_sort_items in W1, W2, IH.
    assert (R : Forall (readable render_pair norm_pair
                                 (fun kv => wf_json (snd kv) = true))
                       (sort_items d)).
    { rewrite Forall_forall in *.
      intros [k1 x1] Hx [k2 x2] q1 q2 Wy Q1 Q2 Ey.
      unfold render_pair in Ey. cbn [fst snd] in Ey.
      rewrite !string_app_assoc in Ey.
      apply encode_str_readable in Ey. destruct Ey as [-> Ey].
      simpl in Ey. injection Ey as Ey.
      destruct (IH _ Hx x2 q1 q2 (W1 _ Hx) Wy Q1 Q2 Ey) as [En Eq].
      unfold norm_pair; cbn [fst snd] in *. rewrite En. auto. }
    assert (Hhead : forall y : string * json,
               wf_json (snd y) = true ->
               exists c rest, render_pair y = String c rest
                              /\ delim c = false).
    { intros y _. unfold render_pair, encode_str. simpl.
      eexists; eexists; split; reflexivity. }
    destruct (@items_readable _ _ render_pair norm_pair
                (fun kv => wf_json (snd kv) = true)
                Hhead "}"%char eq_refl ltac:(discriminate)
                (sort_items d) (sort_items d2) r1 r2 R W1 W2 E) as [Em Er].
    rewrite !norm_dict, Em. auto.
Qed.

Corollary dumps_injective (v1 v2 : json) :
  wf_json v1 = true -> wf_json v2 = true ->
  dumps v1 = dumps v2 -> py_eq v1 v2.
Proof.
  intros W1 W2 E.
  apply (dumps_readable v1 v2 "" "" W1 W2 I I).
  rewrite !string_app_nil_r. exact E.
Qed.

(* ================================================================== *)
(** * Signing and verifying a certificate *)
(* ================================================================== *)

Lemma string_leb_refl (s : string) : String.leb s s = true.
Proof.
  unfold String.leb.
  pose proof (String.compare_antisym s s) as H.
  destruct (String.compare s s); simpl in H; first [reflexivity | discriminate H].
Qed.

Lemma dict_get_insert_item {V : Type} (k k0 : string) (v0 : V) l :
  dict_get k (insert_item (k0, v0) l)
  = if String.eqb k0 k then Some v0 else dict_get k l.
Proof.
  induction l as [|[k1 v1] l IH]; simpl; [reflexivity|].
  destruct (String.leb k0 k1) eqn:L; simpl; [reflexivity|].
  rewrite IH.
  destruct (String.eqb k1 k) eqn:E1; [|reflexivity].
  destruct (String.eqb k0 k) eqn:E0; [|reflexivity].
  apply String.eqb_eq in E1, E0. subst.
  rewrite string_leb_refl in L. discriminate L.
Qed.

Lemma dict_get_sort_items {V : Type} (k : string) (l : list (string * V)) :
  dict_get k (sort_items l) = dict_get k l.
Proof.
  induction l as [|[k0 v0] l IH]; simpl; [reflexivity|].
  rewrite dict_get_insert_item, IH. reflexivity.
Qed.

Lemma dict_get_norm_pair (k : string) (d : list (string * json)) :
  dict_get k (map norm_pair d) = option_map norm (dict_get k d).
Proof.
  induction d as [|[k0 v0] d IH]; simpl; [reflexivity|].
  destruct (String.eqb k0 k); [reflexivity | exact IH].
Qed.

Lemma dict_get_pop_other {V : Type} (k k' : string) (d : list (string * V)) :
  k <> k' -> dict_get k (dict_pop k' d) = dict_get k d.
Proof.
  intro Hk. induction d as [|[k0 v0] d IH]; simpl; [reflexivity|].
  destruct (String.eqb k0 k') eqn:E'; simpl.
  - apply String.eqb_eq in E'. subst k0.
    replace (String.eqb k' k) with false; [reflexivity|].
    symmetry. apply String.eqb_neq. congruence.
  - rewrite IH. reflexivity.
Qed.

Lemma dict_get_set_same {V : Type} (k : string) (v : V) d :
  dict_get k (dict_set k v d) = Some v.
Proof.
  induction d as [|[k0 v0] d IH]; simpl.
  - rewrite String.eqb_refl. reflexivity.
  - destruct (String.eqb k0 k) eqn:E; simpl.
    + rewrite String.eqb_refl. reflexivity.
    + rewrite E. exact IH.
Qed.

Lemma dict_get_set_other {V : Type} (k k' : string) (v : V) d :
  k <> k' -> dict_get k (dict_set k' v d) = dict_get k d.
Proof.
  intro Hk. induction d as [|[k0 v0] d IH]; simpl.
  - replace (String.eqb k' k) with false; [reflexivity|].
    symmetry. apply String.eqb_neq. congruence.
  - destruct (String.eqb k0 k') eqn:E; simpl.
    + apply String.eqb_eq in E. subst k0.
      replace (String.eqb k' k) with false; [reflexivity|].
      symmetry. apply String.eqb_neq. congruence.
    + rewrite IH. reflexivity.
Qed.

Lemma Forall_dict_pop {V : Type} (Q : string * V -> Prop) k d :
  Forall Q d -> Forall Q (dict_pop k d).
Proof.
  induction 1 as [|[k0 v0] d H0 Hd IH]; simpl; [constructor|].
  destruct (String.eqb k0 k); [exact Hd | constructor; assumption].
Qed.

Lemma Forall_dict_set {V : Type} (Q : string * V -> Prop) k v d :
  Q (k, v) -> Forall Q d -> Forall Q (dict_set k v d).
Proof.
  intros Hv. induction 1 as [|[k0 v0] d H0 Hd IH]; simpl.
  - constructor; [exact Hv | constructor].
  - destruct (String.eqb k0 k); constructor; assumption.
Qed.

(** The canonical form follows every signed field. *)
Lemma canonical_json_tampered (doc : list (string * json))
    (key : string) (v v' : json) :
  wf_json (JDict doc) = true -> wf_json v' = true ->
  signed_key key -> dict_get key doc = Some v -> ~ py_eq v v' ->
  Cert.canonical_json (dict_set key v' doc) <> Cert.canonical_json doc.
Proof.
  intros W W' [Hs Ha] Hget Hne E.
  unfold Cert.canonical_json in E.
  apply wf_dict in W.
  apply dumps_injective in E.
  - unfold py_eq in E. rewrite !norm_dict in E. injection E as E.
    apply (f_equal (dict_get key)) in E.
    unfold norm_pair in E. rewrite <- !sort_items_map in E.
    rewrite !dict_get_sort_items in E.
    fold norm_pair in E. rewrite !dict_get_norm_pair in E.
    rewrite !dict_get_pop_other in E by auto.
    rewrite dict_get_set_same, Hget in E. simpl in E.
    injection E as E. apply Hne. unfold py_eq. congruence.
  - apply wf_dict. do 2 apply Forall_dict_pop.
    apply Forall_dict_set; assumption.
  - apply wf_dict. do 2 apply Forall_dict_pop. exact W.
Qed.

Section RoundTrip.
Context {HL : Hashlib} {FR : FloatRepr} {B64 : Base64} {EC : Ecdsa}.

(** The verdict of the verifier is the verdict on the signature. *)
Lemma report_valid_false verifier (d : list (string * json)) :
  Cert.verify_signature (Cert.signer verifier)
    (Cert.canonical_json d)
    (match dict_get "signature" d with Some s => s | None => JStr "" end)
  = false ->
  Cert.report_valid (Cert.verify_certificate verifier (Ok (JDict d))) = false.
Proof.
  intro H. unfold Cert.verify_certificate.
  fold (Cert.canonical_json d). rewrite H.
  destruct (dict_get "tool_info" _) as [[| | | | | |]|]; reflexivity.
Qed.

Lemma verify_certificate_asdict verifier (c : Cert.CertificateData) s :
  Cert.verify_certificate verifier
    (Ok (JDict (Cert.asdict (Cert.with_signature c s))))
  = Cert.Report
      (Cert.verify_signature (Cert.signer verifier)
         (Cert.canonical_json (Cert.asdict c)) (JStr s))
      (Some (JStr (Cert.certificate_id c)))
      (Some (JStr (Cert.timestamp c)))
      (dict_get "signer_fingerprint" (Cert.tool_info c))
      (Some (Cert.opt_json JStr (Cert.blockchain_anchor c))).
Proof. reflexivity. Qed.

(** C1: a certificate generated with the key pair of a signer is
    reported valid by a verifier that holds the signer's public key; and
    the same certificate with any one signed field (any field but the
    signature and the anchor) replaced by a different value is reported
    invalid, the signature not being a valid signature of any other
    text. *)
Theorem C1_signature_round_trip
    (gen verifier : Cert.CertificateGenerator) (sk : private_key_t)
    (dr : Cert.Draws) (operation : WipeOperation) (dir : string)
    (doc : list (string * json)) :
  Cert.private_key (Cert.signer gen) = Some sk ->
  Cert.public_key (Cert.signer verifier) = Some (public_key_of sk) ->
  (forall s, b64decode (b64encode s) = Some s) ->
  (forall n data, ec_verify (public_key_of sk) (ec_sign sk n data) data = true) ->
  fst (Cert.generate_certificate gen dr operation dir) = Ok (JDict doc) ->
  Cert.report_valid (Cert.verify_certificate verifier (Ok (JDict doc))) = true
  /\ forall (key : string) (v v' : json),
       signed_key key ->
       dict_get key doc = Some v ->
       wf_json (JDict doc) = true -> wf_json v' = true ->
       ~ py_eq v v' ->
       (forall data',
          data' <> Cert.canonical_json doc ->
          ec_verify (public_key_of sk)
            (ec_sign sk (Cert.sign_nonce dr) (Cert.canonical_json doc)) data'
          = false) ->
       Cert.report_valid
         (Cert.verify_certificate verifier
            (Ok (JDict (dict_set key v' doc)))) = false.
Proof.
  intros Hsk Hpk Hb64 Hec Hgen.
  apply generate_certificate_document in Hgen.
  destruct Hgen as (s & Hsign & ->).
  unfold Cert.sign_data in Hsign. rewrite Hsk in Hsign.
  injection Hsign as Hsign.
  rewrite canonical_json_with_signature in *.
  set (c := Cert._prepare_certificate_data _ _ _ _) in *.
  split.
  - rewrite verify_certificate_asdict. simpl.
    unfold Cert.verify_signature. rewrite Hpk, <- Hsign, Hb64.
    apply Hec.
  - intros key v v' Hkey Hget W W' Hne Hforge.
    apply report_valid_false.
    rewrite dict_get_set_other by (destruct Hkey; congruence).
    change (dict_get "signature" (Cert.asdict (Cert.with_signature c s)))
      with (Some (JStr s)).
    pose proof (canonical_json_tampered W W' Hkey Hget Hne) as T.
    rewrite canonical_json_with_signature in T.
    unfold Cert.verify_signature. rewrite Hpk.
    subst s. rewrite Hb64.
    apply Hforge. exact T.
Qed.

End RoundTrip.

Lemma plain_signature_binds (sk data data' : string) (n : Z) :
  data' <> data ->
  @ec_verify StandIn.ecdsa_plain
    (@public_key_of StandIn.ecdsa_plain sk)
    (@ec_sign StandIn.ecdsa_plain sk n data) data' = false.
Proof.
  intro H. simpl. apply String.eqb_neq. intro E.
  apply string_app_inv_head in E. injection E as E. congruence.
Qed.

Lemma C1_signature_round_trip_witness :
  let doc := CertExample.document CertExample.draws_1 in
  Cert.report_valid
    (Cert.verify_certificate (B64 := StandIn.base64_plain)
       TamperExample.verifier (Ok (JDict doc))) = true
  /\ Cert.report_valid
       (Cert.verify_certificate (B64 := StandIn.base64_plain)
          TamperExample.verifier
          (Ok (JDict (dict_set "device_info"
                               TamperExample.device_info_tampered doc))))
     = false.
Proof.
  intro doc.
  destruct (@C1_signature_round_trip
              StandIn.hashlib_plain StandIn.float_repr_decimal
              StandIn.base64_plain StandIn.ecdsa_plain
              CertExample.generator TamperExample.verifier "key-1"
              CertExample.draws_1 CertExample.operation "/tmp" doc
              eq_refl eq_refl (fun s => eq_refl)
              (fun n data => String.eqb_refl _) eq_refl) as [Hv Ht].
  split; [exact Hv|].
  apply (Ht "device_info" TamperExample.device_info
            TamperExample.device_info_tampered).
  - split; discriminate.
  - reflexivity.
  - vm_compute. reflexivity.
  - vm_compute. reflexivity.
  - intro H. vm_compute in H. discriminate H.
  - intros data' H. apply plain_signature_binds. exact H.
Defined.

(* ================================================================== *)
(** * Progress values *)
(* ================================================================== *)

Lemma ascending_app a ps b qs c :
  ascending a ps b -> ascending b qs c -> ascending a (ps ++ qs) c.
Proof.
  revert a. induction ps as [|p ps IH]; simpl; intros a H1 H2.
  - subst. exact H2.
  - destruct H1 as [Hle H1]. split; [exact Hle | eapply IH; eassumption].
Qed.

Lemma ascending_le a ps b : ascending a ps b -> (a <= b)%Q.
Proof.
  revert a. induction ps as [|p ps IH]; simpl; intros a H.
  - subst. apply Qle_refl.
  - destruct H as [Hle H]. eapply Qle_trans; [exact Hle | apply IH, H].
Qed.

Lemma ascending_nondecreasing a ps b :
  ascending a ps b -> nondecreasing (a :: ps).
Proof.
  revert a. induction ps as [|p ps IH]; intros a H; simpl in *; [exact I|].
  destruct H as [Hle H]. split; [exact Hle | apply IH, H].
Qed.

Lemma ascending_pct a ps b :
  pct a -> pct b -> ascending a ps b -> Forall pct ps.
Proof.
  revert a. induction ps as [|p ps IH]; intros a Ha Hb H; simpl in *.
  - constructor.
  - destruct H as [Hle H].
    assert (Hp : pct p).
    { split.
      - eapply Qle_trans; [apply Ha | exact Hle].
      - eapply Qle_trans; [apply (ascending_le _ _ _ H) | apply Hb]. }
    constructor; [exact Hp | exact (IH p Hp Hb H)].
Qed.

Lemma progresses_refl d r : progresses d r r.
Proof.
  intros Hd Hp. repeat split; try assumption; try apply Hp.
  exists [], []. rewrite !app_nil_r. repeat split. constructor.
Qed.

Lemma progresses_trans d a b c :
  progresses d a b -> progresses d b c -> progresses d a c.
Proof.
  intros H1 H2 Hd Hp.
  destruct (H1 Hd Hp) as (Hd1 & Hp1 & ds1 & ps1 & E1 & F1 & W1 & A1).
  destruct (H2 Hd1 Hp1) as (Hd2 & Hp2 & ds2 & ps2 & E2 & F2 & W2 & A2).
  split; [exact Hd2|]. split; [exact Hp2|].
  exists (ds1 ++ ds2)%list, (ps1 ++ ps2)%list.
  rewrite E2, E1, W2, W1, !app_assoc.
  repeat split.
  - unfold values in *. rewrite map_app. apply Forall_app. auto.
  - eapply ascending_app; eassumption.
Qed.

(** A change of the operation that leaves device and progress alone. *)
Lemma progresses_upd_op d (f : WipeOperation -> WipeOperation) :
  (forall o, WipeCore.device_info (f o) = WipeCore.device_info o) ->
  (forall o, progress (f o) = progress o) ->
  keeps (progresses d) (upd_op f).
Proof.
  intros Hfd Hfp r Hd Hp. simpl. rewrite Hfd, Hfp.
  repeat split; try assumption; try apply Hp.
  exists [], []. rewrite !app_nil_r. repeat split. constructor.
Qed.

Lemma progresses_log d s : keeps (progresses d) (log s).
Proof. apply progresses_upd_op; reflexivity. Qed.

Lemma progresses_set_hash d k v : keeps (progresses d) (set_hash k v).
Proof. apply progresses_upd_op; reflexivity. Qed.

Lemma progresses_set_error d s : keeps (progresses d) (set_error_message s).
Proof. apply progresses_upd_op; reflexivity. Qed.

Lemma progresses_set_status d s : keeps (progresses d) (set_status s).
Proof. apply progresses_upd_op; reflexivity. Qed.

Lemma progresses_set_method d m : keeps (progresses d) (set_method m).
Proof. apply progresses_upd_op; reflexivity. Qed.

Lemma progresses_set_start d t : keeps (progresses d) (set_start_time t).
Proof. apply progresses_upd_op; reflexivity. Qed.

Lemma progresses_set_end d t : keeps (progresses d) (set_end_time t).
Proof. apply progresses_upd_op; reflexivity. Qed.

Lemma progresses_notify d path p msg :
  pct p -> keeps (progresses d) (_notify_progress path p msg).
Proof.
  intros Pp r Hd Hp. simpl.
  repeat split; try assumption; try apply Hp.
  exists [(path, p, msg)], []. rewrite !app_nil_r. repeat split.
  constructor; [exact Pp | constructor].
Qed.

(** The stored progress may only be raised, and to a percentage. *)
Lemma progresses_set_progress d p r :
  pct p -> (progress (op r) <= p)%Q ->
  progresses d r (snd (set_progress p r)).
Proof.
  intros Pp Hle Hd Hp. simpl.
  split; [exact Hd|]. split; [exact Pp|].
  exists [], [p]. rewrite !app_nil_r. repeat split.
  - constructor.
  - exact Hle.
Qed.

Lemma progresses_get_bind d {B : Type} (k : WipeOperation -> M B) :
  (forall o, WipeCore.device_info o = d -> keeps (progresses d) (k o)) ->
  keeps (progresses d) (bind get_op k).
Proof.
  intros H r Hd Hp. unfold bind, get_op.
  apply (H (op r) Hd r Hd Hp).
Qed.

Lemma pct_10 : pct 10. Proof. split; discriminate. Qed.
Lemma pct_30 : pct 30. Proof. split; discriminate. Qed.
Lemma pct_90 : pct 90. Proof. split; discriminate. Qed.
Lemma pct_100 : pct 100. Proof. split; discriminate. Qed.

Ltac progresses_prim :=
  first [ apply progresses_log | apply progresses_set_hash
        | apply progresses_set_error | apply progresses_set_status
        | apply progresses_notify;
          first [ exact pct_10 | exact pct_30 | exact pct_90 | exact pct_100 ] ].

Ltac progresses_auto d :=
  repeat keeps_step (@progresses_refl d) (@progresses_trans d)
                    progresses_prim.

Lemma pct_estimate (e est : Q) :
  (0 <= e)%Q -> (0 <= est)%Q -> pct (py_min (30 + e / est * 60) 90).
Proof.
  intros He Hest. unfold py_min.
  destruct (Qltb 90 (30 + e / est * 60)) eqn:L.
  - exact pct_90.
  - apply Qltb_ge in L.
    assert (H0 : (0 <= e / est)%Q).
    { unfold Qdiv. apply Qmult_le_0_compat; [exact He|].
      apply Qinv_le_0_compat. exact Hest. }
    split; [|lra].
    assert (H1 : (0 <= e / est * 60)%Q)
      by (apply Qmult_le_0_compat; [exact H0 | discriminate]).
    lra.
Qed.

Lemma progresses_poll_progress d path est msg elapsed :
  (0 <= est)%Q -> Forall (fun e => 0 <= e)%Q elapsed ->
  keeps (progresses d) (poll_progress path est msg elapsed).
Proof.
  intros Hest. induction 1 as [|e rest He Hrest IH]; simpl.
  - progresses_auto d.
  - destruct (Qeq_bool est 0); [progresses_auto d|].
    apply keeps_bind; [exact (@progresses_trans d) | | intros _; exact IH].
    apply progresses_notify. apply pct_estimate; assumption.
Qed.

Ltac pct_compute := split; vm_compute; discriminate.

Lemma pct_chunk (base : Q) (written size : Z) :
  (0 <= base)%Q -> (base <= 80)%Q -> 0 <= written <= size -> 0 < size ->
  pct (base + inject_Z written / inject_Z size * 20).
Proof.
  intros Hb0 Hb1 Hw Hs.
  assert (Hs' : (0 < inject_Z size)%Q)
    by (change 0%Q with (inject_Z 0); rewrite <- Zlt_Qlt; exact Hs).
  assert (Hw' : (0 <= inject_Z written)%Q).
  { change 0%Q with (inject_Z 0). rewrite <- Zle_Qle. lia. }
  assert (H0 : (0 <= inject_Z written / inject_Z size)%Q).
  { unfold Qdiv. apply Qmult_le_0_compat; [exact Hw'|].
    apply Qinv_le_0_compat. apply Qlt_le_weak. exact Hs'. }
  assert (H1 : (inject_Z written / inject_Z size <= 1)%Q).
  { apply Qle_shift_div_r; [exact Hs'|].
    rewrite Qmult_1_l. rewrite <- Zle_Qle. lia. }
  set (x := (inject_Z written / inject_Z size)%Q) in *.
  split; lra.
Qed.

Lemma progresses_write_chunks d fuel path fault size base :
  (0 <= base)%Q -> (base <= 80)%Q ->
  forall n written,
    0 <= written ->
    keeps (progresses d) (write_chunks fuel path fault size base n written).
Proof.
  intros Hb0 Hb1.
  induction fuel as [|fuel IH]; intros n written Hw; simpl.
  - progresses_auto d.
  - destruct (written <? size) eqn:L; [|progresses_auto d].
    apply Z.ltb_lt in L.
    assert (Hchunk : 0 < chunk_size) by reflexivity.
    assert (Hstep : keeps (progresses d)
              (_notify_progress path
                 (base + inject_Z (written + Z.min chunk_size (size - written))
                         / inject_Z size * 20)
                 ("Writing pattern: "
                  ++ z_str (written + Z.min chunk_size (size - written))
                  ++ "/" ++ z_str size ++ " bytes") ;;
               write_chunks fuel path fault size base (n + 1)
                 (written + Z.min chunk_size (size - written)))%wipe).
    { apply keeps_bind; [exact (@progresses_trans d) | | intros _].
      - apply progresses_notify. apply pct_chunk; auto; lia.
      - apply IH. lia. }
    destruct fault as [[k msg]|]; [|exact Hstep].
    destruct (k =? n); [progresses_auto d | exact Hstep].
Qed.

Lemma progresses_overwrite_device d w path pass size base :
  (0 <= base)%Q -> (base <= 80)%Q ->
  keeps (progresses d) (_overwrite_device w path pass size base).
Proof.
  intros Hb0 Hb1. unfold _overwrite_device.
  destruct (overwrite_fault w pass) as [[k msg]|].
  - destruct (k <? 0); [progresses_auto d|].
    apply keeps_bind; [exact (@progresses_trans d) | | intro res].
    + apply progresses_write_chunks; auto. lia.
    + progresses_auto d.
  - apply keeps_bind; [exact (@progresses_trans d) | | intro res].
    + apply progresses_write_chunks; auto. lia.
    + progresses_auto d.
Qed.

Lemma progresses_monitor d path polls :
  keeps (progresses d) (_monitor_dd_progress path polls).
Proof.
  induction polls as [|e rest IH]; simpl.
  - progresses_auto d.
  - intro r. unfold bind at 1. unfold get_op at 1.
    unfold bind at 1.
    destruct (Qltb (progress (op r)) 80) eqn:L.
    + unfold bind at 1. simpl.
      match goal with
      | |- progresses d r (snd (_monitor_dd_progress path rest ?r1)) =>
          apply (@progresses_trans d r r1); [|apply IH]
      end.
      intros Hd Hp. simpl. apply Qltb_lt in L. destruct Hp as [Hp0 Hp1].
      assert (P2 : pct (progress (op r) + 2)) by (split; lra).
      split; [exact Hd|]. split; [exact P2|].
      exists [(path, (progress (op r) + 2)%Q, "Random overwrite in progress")],
             [(progress (op r) + 2)%Q].
      repeat split.
      * constructor; [exact P2 | constructor].
      * lra.
    + simpl. apply IH.
Qed.

Section Progress.
Variables (w : World) (d : DeviceInfo).
Hypothesis size_nonneg : (0 <= size_gb d)%Q.
Hypothesis sane : clock_sane w.

Ltac step := progresses_auto d.

Lemma progresses_ata : keeps (progresses d) (_ata_secure_erase w).
Proof.
  unfold _ata_secure_erase.
  apply progresses_get_bind. intros o Hd.
  apply keeps_bind; [exact (@progresses_trans d) | apply progresses_log | intros _].
  destruct (ata_set_pass w); [|step|step].
  destruct (negb (returncode =? 0)); [step|].
  apply keeps_bind; [exact (@progresses_trans d) | | intros _].
  { apply progresses_notify, pct_30. }
  destruct (ata_erase w) as [process|e] eqn:E; [|step].
  apply keeps_bind; [exact (@progresses_trans d) | | intro res; step].
  apply progresses_poll_progress.
  - rewrite Hd. apply Qmult_le_0_compat; [exact size_nonneg | discriminate].
  - apply (proj1 sane). exact E.
Qed.

Lemma progresses_nvme_secure : keeps (progresses d) (_nvme_secure_erase w).
Proof.
  unfold _nvme_secure_erase.
  apply progresses_get_bind. intros o Hd.
  apply keeps_bind; [exact (@progresses_trans d) | apply progresses_log | intros _].
  destruct (nvme_list_ns w); [|step|step].
  destruct (negb (returncode =? 0)); [step|].
  apply keeps_bind; [exact (@progresses_trans d) | | intros _].
  { apply progresses_notify, pct_30. }
  destruct (nvme_format w) as [process|e] eqn:E; [|step].
  apply keeps_bind; [exact (@progresses_trans d) | | intro res; step].
  apply progresses_poll_progress.
  - rewrite Hd. apply Qmult_le_0_compat; [exact size_nonneg | discriminate].
  - apply (proj2 sane). exact E.
Qed.

Lemma progresses_nvme_crypto : keeps (progresses d) (_nvme_crypto_erase w).
Proof. unfold _nvme_crypto_erase. step. Qed.

Lemma progresses_multipass : keeps (progresses d) (_multipass_overwrite w).
Proof.
  unfold _multipass_overwrite.
  apply progresses_get_bind. intros o Hd.
  apply keeps_bind; [exact (@progresses_trans d) | apply progresses_log | intros _].
  destruct (_get_device_size w =? 0); [step|].
  simpl.
  repeat first
    [ apply keeps_bind; [exact (@progresses_trans d) | | intros ?]
    | apply progresses_log
    | apply progresses_overwrite_device; vm_compute; discriminate
    | apply progresses_notify; pct_compute
    | match goal with
      | |- keeps _ (if negb ?b then _ else _) => destruct b; simpl
      end
    | apply keeps_ret; exact (@progresses_refl d) ].
Qed.

Lemma progresses_single_pass : keeps (progresses d) (_single_pass_random w).
Proof.
  unfold _single_pass_random.
  apply progresses_get_bind. intros o Hd.
  apply keeps_bind; [exact (@progresses_trans d) | apply progresses_log | intros _].
  destruct (dd w); [|step].
  apply keeps_bind; [exact (@progresses_trans d) | apply progresses_monitor | intros _].
  step.
Qed.

Lemma progresses_crypto : keeps (progresses d) (_crypto_erase w).
Proof.
  unfold _crypto_erase.
  apply progresses_get_bind. intros o Hd.
  apply keeps_bind; [exact (@progresses_trans d) | apply progresses_log | intros _].
  destruct (String.eqb _ "LUKS"); [step|].
  destruct (String.eqb _ "BitLocker"); [step|].
  apply keeps_bind; [exact (@progresses_trans d) | apply progresses_log | intros _].
  apply progresses_single_pass.
Qed.

Lemma progresses_execute_wipe_method :
  keeps (progresses d) (_execute_wipe_method w).
Proof.
  unfold _execute_wipe_method.
  apply progresses_get_bind. intros o Hd.
  apply keeps_bind; [exact (@progresses_trans d) | apply progresses_log | intros _].
  destruct (method o).
  - apply progresses_ata.
  - apply progresses_nvme_secure.
  - apply progresses_nvme_crypto.
  - apply progresses_multipass.
  - apply progresses_single_pass.
  - apply progresses_crypto.
  - step.
Qed.

Lemma progresses_pre_wipe_checks : keeps (progresses d) (_pre_wipe_checks w).
Proof.
  unfold _pre_wipe_checks, _take_pre_wipe_sample.
  apply progresses_get_bind. intros o Hd. step.
Qed.

Lemma progresses_post_wipe_verification :
  keeps (progresses d) (_post_wipe_verification w).
Proof.
  unfold _post_wipe_verification, _take_post_wipe_sample.
  apply progresses_get_bind. intros o Hd.
  apply keeps_bind; [exact (@progresses_trans d) | apply progresses_log | intros _].
  apply keeps_bind; [exact (@progresses_trans d) | | intro ok; step].
  destruct (py_range _); simpl; step.
Qed.

Lemma progresses_call_phase {A : Type} fault (body : M A) r :
  keeps (progresses d) body ->
  progresses d r (snd (call_phase fault body r)).
Proof.
  intro H. unfold call_phase. destruct fault.
  - apply progresses_refl.
  - specialize (H r). destruct (body r). exact H.
Qed.

(** The four assignments of a completed wipe. *)
Lemma progresses_completion path t msg :
  keeps (progresses d)
    (set_status COMPLETED ;; set_end_time t ;; set_progress 100 ;;
     _notify_progress path 100 msg)%wipe.
Proof.
  intros r Hd Hp. simpl.
  split; [exact Hd|]. split; [exact pct_100|].
  exists [(path, 100%Q, msg)], [100%Q]. repeat split.
  - constructor; [exact pct_100 | constructor].
  - apply Hp.
Qed.

Lemma progresses_try_block r : progresses d r (snd (try_block w r)).
Proof.
  unfold try_block.
  pose proof (progresses_call_phase (escaping w PreChecks 0) r
                progresses_pre_wipe_checks) as F1.
  destruct (call_phase _ (_pre_wipe_checks w) r) as [[b1|e1] r1];
    simpl in F1; [|exact F1].
  destruct b1.
  2:{ eapply progresses_trans; [exact F1|]. apply progresses_set_status. }
  pose proof (progresses_call_phase (escaping w Sanitize 0) r1
                progresses_execute_wipe_method) as F2.
  destruct (call_phase _ (_execute_wipe_method w) r1) as [[b2|e2] r2];
    simpl in F2; [|eapply progresses_trans; eassumption].
  destruct b2.
  2:{ eapply progresses_trans; [exact F1|].
      eapply progresses_trans; [exact F2|]. apply progresses_set_status. }
  pose proof (progresses_call_phase (escaping w Verification 0) r2
                progresses_post_wipe_verification) as F3.
  destruct (call_phase _ (_post_wipe_verification w) r2) as [[b3|e3] r3];
    simpl in F3.
  2:{ eapply progresses_trans; [exact F1|].
      eapply progresses_trans; eassumption. }
  assert (F : progresses d r r3).
  { eapply progresses_trans; [exact F1|].
    eapply progresses_trans; eassumption. }
  destruct b3.
  - eapply progresses_trans; [exact F|].
    pose proof (progresses_completion
                  (device_path (WipeCore.device_info (op r3)))
                  (clock_end w) "Wipe completed successfully" r3) as F4.
    destruct ((set_status COMPLETED;; set_end_time (clock_end w);;
               set_progress 100;;
               _notify_progress (device_path (WipeCore.device_info (op r3)))
                 100 "Wipe completed successfully")%wipe r3).
    exact F4.
  - eapply progresses_trans; [exact F|].
    assert (F4 : keeps (progresses d)
                   (set_status FAILED;;
                    set_error_message "Post-wipe verification failed")%wipe)
      by step.
    specialize (F4 r3).
    destruct ((set_status FAILED;;
               set_error_message "Post-wipe verification failed")%wipe r3).
    exact F4.
Qed.

Lemma progresses_handler e r : progresses d r (snd (handler w e r)).
Proof.
  unfold handler.
  match goal with
  | |- context [let (_, r1) := ?c r in _] =>
      assert (F1 : keeps (progresses d) c) by step;
      specialize (F1 r); destruct (c r) as [u r1]
  end.
  simpl in F1.
  destruct (fallback_of (diagnose_and_resolve_errors e)) as [m|];
    [|exact F1].
  match goal with
  | |- context [let (_, r2) := ?c r1 in _] =>
      assert (F2 : keeps (progresses d) c);
      [ apply keeps_bind;
        [exact (@progresses_trans d) | apply progresses_log
        | intros _; apply progresses_set_method ]
      | specialize (F2 r1); destruct (c r1) as [u2 r2] ]
  end.
  simpl in F2.
  eapply progresses_trans; [exact F1|].
  eapply progresses_trans; [exact F2|].
  apply progresses_call_phase. exact progresses_execute_wipe_method.
Qed.

Lemma progresses_execute_operation r :
  progresses d r (snd (execute_operation w r)).
Proof.
  unfold execute_operation.
  assert (F0 : keeps (progresses d)
                 (set_start_time (clock_start w);;
                  set_status IN_PROGRESS)%wipe).
  { apply keeps_bind;
      [exact (@progresses_trans d) | apply progresses_set_start
      | intros _; apply progresses_set_status]. }
  specialize (F0 r).
  destruct ((set_start_time (clock_start w);; set_status IN_PROGRESS)%wipe r)
    as [u r0].
  simpl in F0.
  pose proof (progresses_try_block r0) as F1.
  destruct (try_block w r0) as [[b|e] r1]; simpl in F1.
  - eapply progresses_trans; eassumption.
  - eapply progresses_trans; [exact F0|].
    eapply progresses_trans; [exact F1|]. apply progresses_handler.
Qed.

End Progress.

(** C8, as stated, does not hold: progress is counted in percent.  The
    wipe of a 512 MB stick by a random overwrite hands 10, 2, 4, 6, 90 and
    100 to the callbacks and stores 2, 4, 6 and 100; neither 10 nor 100 is
    a fraction in [0, 1]. *)
Lemma C8_progress_is_a_percentage :
  let r' := snd (execute_operation Scenario.world_all_fine
                                   (Scenario.fresh Scenario.stick)) in
  values (delivered r') = [10; 2; 4; 6; 90; 100]%Q
  /\ progress_writes r' = [2; 4; 6; 100]%Q
  /\ progress (op r') = 100%Q
  /\ ~ (10 <= 1)%Q /\ ~ (100 <= 1)%Q.
Proof.
  cbv zeta.
  split; [vm_compute; reflexivity|].
  split; [vm_compute; reflexivity|].
  split; [vm_compute; reflexivity|].
  split; intro H; unfold Qle in H; simpl in H; lia.
Qed.

(** C8 (amended): on a device of non-negative size, with a clock that
    does not run backwards, every progress value of a wipe operation (the
    stored field after each assignment and every value passed to the
    progress callbacks) is a percentage in the closed interval [0, 100],
    and the stored field is non-decreasing over the trace. *)
Theorem C8_progress_percent_monotone (w : World) (o : WipeOperation) :
  (0 <= size_gb (WipeCore.device_info o))%Q ->
  clock_sane w ->
  pct (progress o) ->
  let r' := snd (execute_operation w
                   {| op := o; delivered := []; progress_writes := [] |}) in
  Forall pct (values (delivered r'))
  /\ Forall pct (progress_writes r')
  /\ pct (progress (op r'))
  /\ nondecreasing (progress o :: progress_writes r').
Proof.
  intros Hsize Hclock Hp r'.
  destruct (@progresses_execute_operation w (WipeCore.device_info o)
              Hsize Hclock
              {| op := o; delivered := []; progress_writes := [] |}
              eq_refl Hp)
    as (_ & Hp' & ds & ps & Ed & Fd & Ew & Asc).
  fold r' in Hp', Ed, Ew, Asc. simpl in Ed, Ew, Asc.
  rewrite Ed, Ew.
  split; [exact Fd|].
  split; [exact (@ascending_pct _ _ _ Hp Hp' Asc)|].
  split; [exact Hp'|].
  exact (@ascending_nondecreasing _ _ _ Asc).
Qed.

Lemma C8_progress_percent_monotone_witness :
  let r' := snd (execute_operation Scenario.world_all_fine
                                   (Scenario.fresh Scenario.stick)) in
  Forall pct (values (delivered r'))
  /\ Forall pct (progress_writes r')
  /\ pct (progress (op r'))
  /\ nondecreasing (0%Q :: progress_writes r').
Proof.
  apply (@C8_progress_percent_monotone Scenario.world_all_fine
           (op (Scenario.fresh Scenario.stick))).
  - vm_compute. discriminate.
  - split; intros p H; injection H as <-; constructor.
  - split; vm_compute; discriminate.
Defined.

(* ================================================================== *)
(** * The outcomes of [execute_wipe] *)
(* ================================================================== *)

Lemma execute_operation_started w r :
  execute_operation w r
  = match try_block w (started w r) with
    | (Ok b, r1) => (Ok b, r1)
    | (Exc e, r1) => handler w e r1
    end.
Proof. reflexivity. Qed.

Lemma frame_weaken r r' : frame r r' -> frame0 r r'.
Proof. unfold frame, frame0. intuition. Qed.

(** What the [try] block leaves behind, by the value it hands on. *)
Lemma try_block_outcome w r :
  match try_block w r with
  | (Ok true, r1) =>
      status (op r1) = COMPLETED
      /\ end_time (op r1) = Some (clock_end w)
      /\ progress (op r1) = 100%Q
      /\ exists ds,
           delivered r1
           = (ds ++ [(device_path (WipeCore.device_info (op r)), 100%Q,
                      "Wipe completed successfully")])%list
  | (Ok false, r1) =>
      status (op r1) = FAILED /\ end_time (op r1) = end_time (op r)
  | (Exc _, r1) => frame0 r r1
  end.
Proof.
  unfold try_block, call_phase.
  destruct (escaping w PreChecks 0) as [e0|]; [apply frame0_refl|].
  pose proof (frame0_pre_wipe_checks w r) as F1.
  destruct (_pre_wipe_checks w r) as [b1 ra]; simpl in F1.
  destruct b1; [|simpl; split; [reflexivity|apply F1]].
  destruct (escaping w Sanitize 0) as [e1|]; [exact F1|].
  pose proof (frame0_execute_wipe_method w ra) as F2.
  destruct (_execute_wipe_method w ra) as [b2 rb]; simpl in F2.
  pose proof (frame0_trans F1 F2) as F12.
  destruct b2; [|simpl; split; [reflexivity|apply F12]].
  destruct (escaping w Verification 0) as [e2|]; [exact F12|].
  pose proof (frame_post_wipe_verification w rb) as F3.
  destruct (_post_wipe_verification w rb) as [b3 rc]; simpl in F3.
  apply frame_weaken in F3.
  pose proof (frame0_trans F12 F3) as F.
  destruct b3; simpl.
  - repeat split. exists (delivered rc).
    destruct F as (D & _). rewrite D. reflexivity.
  - split; [reflexivity|apply F].
Qed.

(** The handler leaves the device and the two clock readings alone. *)
Lemma handler_keeps_times w e r :
  let r' := snd (handler w e r) in
  WipeCore.device_info (op r') = WipeCore.device_info (op r)
  /\ start_time (op r') = start_time (op r)
  /\ end_time (op r') = end_time (op r).
Proof.
  cbv zeta. unfold handler.
  destruct (fallback_of (diagnose_and_resolve_errors e)) as [m|];
    simpl; [|repeat split].
  unfold call_phase.
  destruct (escaping w Sanitize 1); [simpl; repeat split|].
  match goal with
  | |- context [_execute_wipe_method w ?r2] =>
      pose proof (frame0_execute_wipe_method w r2) as F;
      destruct (_execute_wipe_method w r2) as [b r3]
  end.
  simpl in F. destruct F as (Fd & _ & _ & Fs & Fe).
  simpl. rewrite Fd, Fs, Fe. repeat split.
Qed.

(** X1: every execution of a prepared operation leaves it either
    completed or failed, never in progress, not started or cancelled.
    It is completed only when the call returns [True]; then the end time
    is the clock reading taken on completion, the stored progress is 100
    and the last thing the progress callbacks received is 100 with the
    message of completion. *)
Theorem X1_execution_ends_completed_or_failed (w : World) (r : Run) :
  let out := execute_operation w r in
  (status (op (snd out)) = COMPLETED \/ status (op (snd out)) = FAILED)
  /\ (status (op (snd out)) = COMPLETED ->
      fst out = Ok true
      /\ end_time (op (snd out)) = Some (clock_end w)
      /\ progress (op (snd out)) = 100%Q
      /\ exists ds,
           delivered (snd out)
           = (ds ++ [(device_path (WipeCore.device_info (op r)), 100%Q,
                      "Wipe completed successfully")])%list).
Proof.
  cbv zeta. rewrite execute_operation_started.
  pose proof (try_block_outcome w (started w r)) as T.
  destruct (try_block w (started w r)) as [[b|e] r1].
  - destruct b; simpl.
    + destruct T as (S & E & P & D).
      split; [left; exact S|]. intros _. repeat split; assumption.
    + destruct T as (S & _).
      split; [right; exact S|]. intro H. congruence.
  - pose proof (handler_outcome w e r1) as H. cbv zeta in H.
    destruct H as (Hs & _).
    split; [right; exact Hs|]. intro H. congruence.
Qed.

(** From one gigabyte on the [try] block never hands on [True]. *)
Lemma try_block_from_one_gb w r :
  (1 <= size_gb (WipeCore.device_info (op r)))%Q ->
  fst (try_block w r) <> Ok true.
Proof.
  intro Hsize.
  unfold try_block, call_phase.
  destruct (escaping w PreChecks 0) as [e0|]; [discriminate|].
  pose proof (frame0_pre_wipe_checks w r) as F1.
  destruct (_pre_wipe_checks w r) as [b1 ra]; simpl in F1.
  destruct b1; [|simpl; discriminate].
  destruct (escaping w Sanitize 0) as [e1|]; [discriminate|].
  pose proof (frame0_execute_wipe_method w ra) as F2.
  destruct (_execute_wipe_method w ra) as [b2 rb]; simpl in F2.
  destruct b2; [|simpl; discriminate].
  destruct (escaping w Verification 0) as [e2|]; [discriminate|].
  assert (Hv : fst (_post_wipe_verification w rb) = false).
  { apply verification_fails_from_one_gb.
    destruct F1 as (D1 & _), F2 as (D2 & _). rewrite D2, D1. exact Hsize. }
  destruct (_post_wipe_verification w rb) as [b3 rc]; simpl in Hv.
  subst b3. simpl. discriminate.
Qed.

(** X2: on a device of one gigabyte or more no execution ends completed:
    whatever the tools and the device answer, the operation is failed
    afterwards and its end time is the one it had.  The call can still
    return [True], but only out of the exception handler, after the
    method has been replaced by the single random pass. *)
Theorem X2_no_completion_from_one_gigabyte (w : World) (r : Run) :
  (1 <= size_gb (WipeCore.device_info (op r)))%Q ->
  let out := execute_operation w r in
  status (op (snd out)) = FAILED
  /\ end_time (op (snd out)) = end_time (op r)
  /\ (fst out = Ok true ->
      method (op (snd out)) = SINGLE_PASS_RANDOM
      /\ exists e, error_message (op (snd out)) = Some e
                   /\ unsupported_error e = true).
Proof.
  intro Hsize. cbv zeta. rewrite execute_operation_started.
  pose proof (try_block_outcome w (started w r)) as T.
  pose proof (@try_block_from_one_gb w (started w r) Hsize) as N.
  destruct (try_block w (started w r)) as [[b|e] r1].
  - destruct b; [exfalso; apply N; reflexivity|].
    destruct T as (S & E). simpl.
    split; [exact S|]. split; [exact E|]. discriminate.
  - pose proof (handler_outcome w e r1) as H. cbv zeta in H.
    destruct H as (Hs & He & Hu & Hn).
    pose proof (handler_keeps_times w e r1) as K. cbv zeta in K.
    destruct K as (_ & _ & Ke).
    destruct T as (_ & _ & _ & _ & Te).
    split; [exact Hs|]. split; [rewrite Ke, Te; reflexivity|].
    intro Ht.
    destruct (unsupported_error e) eqn:U.
    + split; [apply Hu; reflexivity|]. exists e. split; assumption.
    + destruct (Hn eq_refl) as (Hf & _). congruence.
Qed.

Lemma X2_no_completion_from_one_gigabyte_witness :
  let out := execute_operation Scenario.world_all_fine
                               (Scenario.fresh Scenario.ssd) in
  (1 <= size_gb (WipeCore.device_info (op (Scenario.fresh Scenario.ssd))))%Q
  /\ status (op (snd out)) = FAILED.
Proof.
  assert (H : (1 <= size_gb (WipeCore.device_info
                               (op (Scenario.fresh Scenario.ssd))))%Q)
    by (vm_compute; discriminate).
  split; [exact H|].
  exact (proj1 (X2_no_completion_from_one_gigabyte
                  Scenario.world_all_fine (Scenario.fresh Scenario.ssd) H)).
Defined.

(* ================================================================== *)
(** * The operation log only grows *)
(* ================================================================== *)

Lemma log_grows_refl r : log_grows r r.
Proof.
  split; [reflexivity|]. exists []. symmetry. apply app_nil_r.
Qed.

Lemma log_grows_trans a b c : log_grows a b -> log_grows b c -> log_grows a c.
Proof.
  intros (D1 & x & L1) (D2 & y & L2). split; [congruence|].
  exists (x ++ y)%list. rewrite L2, L1. symmetry. apply app_assoc.
Qed.

(** A state change that touches neither the device nor the log. *)
Lemma log_grows_same r r' :
  WipeCore.device_info (op r') = WipeCore.device_info (op r) ->
  operation_log (op r') = operation_log (op r) ->
  log_grows r r'.
Proof.
  intros D L. split; [exact D|]. exists []. rewrite L. symmetry.
  apply app_nil_r.
Qed.

Lemma log_grows_log s : keeps log_grows (log s).
Proof. intro r. split; [reflexivity|]. exists [s]. reflexivity. Qed.

Lemma log_grows_notify path p msg :
  keeps log_grows (_notify_progress path p msg).
Proof. intro r. apply log_grows_same; reflexivity. Qed.

Lemma log_grows_set_hash k v : keeps log_grows (set_hash k v).
Proof. intro r. apply log_grows_same; reflexivity. Qed.

Lemma log_grows_set_progress p : keeps log_grows (set_progress p).
Proof. intro r. apply log_grows_same; reflexivity. Qed.

Lemma log_grows_set_error s : keeps log_grows (set_error_message s).
Proof. intro r. apply log_grows_same; reflexivity. Qed.

Lemma log_grows_set_status s : keeps log_grows (set_status s).
Proof. intro r. apply log_grows_same; reflexivity. Qed.

Lemma log_grows_set_method m : keeps log_grows (set_method m).
Proof. intro r. apply log_grows_same; reflexivity. Qed.

Lemma log_grows_set_start t : keeps log_grows (set_start_time t).
Proof. intro r. apply log_grows_same; reflexivity. Qed.

Lemma log_grows_set_end t : keeps log_grows (set_end_time t).
Proof. intro r. apply log_grows_same; reflexivity. Qed.

Ltac log_grows_prim :=
  first [ apply log_grows_log | apply log_grows_notify
        | apply log_grows_set_hash | apply log_grows_set_progress
        | apply log_grows_set_error | apply log_grows_set_status
        | apply log_grows_set_method | apply log_grows_set_start
        | apply log_grows_set_end ].

Ltac log_grows_auto prim :=
  repeat keeps_step log_grows_refl log_grows_trans prim.

Lemma log_grows_bind {A B : Type} (c : M A) (k : A -> M B) :
  keeps log_grows c -> (forall a, keeps log_grows (k a)) ->
  keeps log_grows (bind c k).
Proof. apply keeps_bind. exact log_grows_trans. Qed.

Lemma log_grows_poll_progress path est msg elapsed :
  keeps log_grows (poll_progress path est msg elapsed).
Proof.
  induction elapsed as [|e rest IH]; simpl.
  - log_grows_auto log_grows_prim.
  - destruct (Qeq_bool est 0); [log_grows_auto log_grows_prim|].
    apply log_grows_bind; [apply log_grows_notify|intros _; exact IH].
Qed.

Lemma log_grows_write_chunks fuel path fault size base n written :
  keeps log_grows (write_chunks fuel path fault size base n written).
Proof.
  revert n written.
  induction fuel as [|fuel IH]; intros n written; simpl.
  - log_grows_auto log_grows_prim.
  - destruct (written <? size); [|log_grows_auto log_grows_prim].
    destruct fault as [[k msg]|].
    + destruct (k =? n); [log_grows_auto log_grows_prim|].
      apply log_grows_bind; [apply log_grows_notify|intros _; apply IH].
    + apply log_grows_bind; [apply log_grows_notify|intros _; apply IH].
Qed.

Lemma log_grows_overwrite_device w path pass size base :
  keeps log_grows (_overwrite_device w path pass size base).
Proof.
  unfold _overwrite_device.
  log_grows_auto ltac:(first [apply log_grows_write_chunks | log_grows_prim]).
Qed.

Lemma log_grows_monitor path polls :
  keeps log_grows (_monitor_dd_progress path polls).
Proof.
  induction polls as [|e rest IH]; simpl.
  - log_grows_auto log_grows_prim.
  - apply log_grows_bind; [apply keeps_get_op; exact log_grows_refl|intro o].
    apply log_grows_bind; [log_grows_auto log_grows_prim|intros _; exact IH].
Qed.

Lemma log_grows_overwrite_passes w path size passes :
  keeps log_grows (overwrite_passes w path size passes).
Proof.
  induction passes as [|p rest IH]; simpl.
  - log_grows_auto log_grows_prim.
  - apply log_grows_bind; [apply log_grows_log|intros _].
    apply log_grows_bind; [apply log_grows_overwrite_device|intro ok].
    destruct (negb ok); [log_grows_auto log_grows_prim|].
    apply log_grows_bind; [apply log_grows_notify|intros _; exact IH].
Qed.

Lemma log_grows_verify_samples w path size n idx :
  keeps log_grows (verify_samples w path size n idx).
Proof.
  destruct idx as [|i rest]; simpl; log_grows_auto log_grows_prim.
Qed.

Ltac log_grows_loops :=
  first [ apply log_grows_poll_progress | apply log_grows_monitor
        | apply log_grows_overwrite_passes | apply log_grows_verify_samples
        | log_grows_prim ].

Lemma log_grows_ata w : keeps log_grows (_ata_secure_erase w).
Proof. unfold _ata_secure_erase. log_grows_auto log_grows_loops. Qed.

Lemma log_grows_nvme_secure w : keeps log_grows (_nvme_secure_erase w).
Proof. unfold _nvme_secure_erase. log_grows_auto log_grows_loops. Qed.

Lemma log_grows_nvme_crypto w : keeps log_grows (_nvme_crypto_erase w).
Proof. unfold _nvme_crypto_erase. log_grows_auto log_grows_loops. Qed.

Lemma log_grows_multipass w : keeps log_grows (_multipass_overwrite w).
Proof. unfold _multipass_overwrite. log_grows_auto log_grows_loops. Qed.

Lemma log_grows_single_pass w : keeps log_grows (_single_pass_random w).
Proof. unfold _single_pass_random. log_grows_auto log_grows_loops. Qed.

Lemma log_grows_crypto w : keeps log_grows (_crypto_erase w).
Proof.
  unfold _crypto_erase.
  log_grows_auto ltac:(first [apply log_grows_single_pass | log_grows_prim]).
Qed.

Lemma log_grows_pre_wipe_checks w : keeps log_grows (_pre_wipe_checks w).
Proof.
  unfold _pre_wipe_checks, _take_pre_wipe_sample.
  log_grows_auto log_grows_prim.
Qed.

Lemma log_grows_execute_wipe_method w :
  keeps log_grows (_execute_wipe_method w).
Proof.
  unfold _execute_wipe_method.
  log_grows_auto
    ltac:(first [ apply log_grows_ata | apply log_grows_nvme_secure
                | apply log_grows_nvme_crypto | apply log_grows_multipass
                | apply log_grows_single_pass | apply log_grows_crypto
                | log_grows_prim ]).
Qed.

Lemma log_grows_post_wipe_verification w :
  keeps log_grows (_post_wipe_verification w).
Proof.
  unfold _post_wipe_verification, _take_post_wipe_sample.
  log_grows_auto log_grows_loops.
Qed.

Lemma log_grows_call_phase {A : Type} fault (body : M A) r :
  keeps log_grows body -> log_grows r (snd (call_phase fault body r)).
Proof.
  intro H. unfold call_phase. destruct fault; [apply log_grows_refl|].
  specialize (H r). destruct (body r). exact H.
Qed.

Lemma log_grows_try_block w r : log_grows r (snd (try_block w r)).
Proof.
  unfold try_block.
  pose proof (@log_grows_call_phase _ (escaping w PreChecks 0) _ r
                (log_grows_pre_wipe_checks w)) as F1.
  destruct (call_phase _ (_pre_wipe_checks w) r) as [[[|]|e] ra];
    simpl in F1; [| |exact F1].
  2:{ eapply log_grows_trans; [exact F1|]. apply log_grows_set_status. }
  pose proof (@log_grows_call_phase _ (escaping w Sanitize 0) _ ra
                (log_grows_execute_wipe_method w)) as F2.
  destruct (call_phase _ (_execute_wipe_method w) ra) as [[[|]|e] rb];
    simpl in F2.
  3:{ eapply log_grows_trans; eassumption. }
  2:{ eapply log_grows_trans; [exact F1|].
      eapply log_grows_trans; [exact F2|]. apply log_grows_set_status. }
  pose proof (@log_grows_call_phase _ (escaping w Verification 0) _ rb
                (log_grows_post_wipe_verification w)) as F3.
  destruct (call_phase _ (_post_wipe_verification w) rb) as [[[|]|e] rc];
    simpl in F3.
  3:{ eapply log_grows_trans; [exact F1|].
      eapply log_grows_trans; eassumption. }
  - eapply log_grows_trans; [exact F1|].
    eapply log_grows_trans; [exact F2|].
    eapply log_grows_trans; [exact F3|].
    apply log_grows_same; reflexivity.
  - eapply log_grows_trans; [exact F1|].
    eapply log_grows_trans; [exact F2|].
    eapply log_grows_trans; [exact F3|].
    apply log_grows_same; reflexivity.
Qed.

Lemma log_grows_handler w e r : log_grows r (snd (handler w e r)).
Proof.
  unfold handler.
  set (res := diagnose_and_resolve_errors e).
  assert (F1 : keeps log_grows
                 (set_status FAILED ;; set_error_message e ;;
                  log ("Error diagnosis: " ++ diagnosis res) ;;
                  log ("Suggested actions: "
                       ++ py_list_repr (suggested_actions res)))%wipe)
    by log_grows_auto log_grows_prim.
  specialize (F1 r).
  destruct ((set_status FAILED ;; _)%wipe r) as [u r1]. simpl in F1.
  destruct (fallback_of res) as [m|]; [|exact F1].
  assert (F2 : keeps log_grows
                 (log ("Trying alternative method: " ++ WipeMethod_str m) ;;
                  set_method m)%wipe)
    by log_grows_auto log_grows_prim.
  specialize (F2 r1).
  destruct ((log _ ;; set_method m)%wipe r1) as [u' r2]. simpl in F2.
  eapply log_grows_trans; [exact F1|].
  eapply log_grows_trans; [exact F2|].
  apply log_grows_call_phase, log_grows_execute_wipe_method.
Qed.

(** X3: an execution never removes or rewrites a line of the operation
    log and never exchanges the device of the operation: the log
    afterwards is the log before with lines added at its end. *)
Theorem X3_operation_log_is_append_only (w : World) (r : Run) :
  log_grows r (snd (execute_operation w r)).
Proof.
  rewrite execute_operation_started.
  assert (F0 : log_grows r (started w r))
    by (apply log_grows_same; reflexivity).
  pose proof (log_grows_try_block w (started w r)) as F1.
  destruct (try_block w (started w r)) as [[b|e] r1]; simpl in F1.
  - exact (log_grows_trans F0 F1).
  - eapply log_grows_trans; [exact F0|].
    eapply log_grows_trans; [exact F1|]. apply log_grows_handler.
Qed.

(* ================================================================== *)
(** * Prepared operations *)
(* ================================================================== *)

(** Pre-flight passes exactly when the device node exists and the unmount
    helper, if it is needed, does not raise; neither the removal of an
    HPA or DCO nor the pre-wipe sample can stop it. *)
Lemma pre_wipe_checks_result w r :
  fst (_pre_wipe_checks w r)
  = preflight_passes w (device_path (WipeCore.device_info (op r))).
Proof.
  unfold _pre_wipe_checks, preflight_passes, _take_pre_wipe_sample,
    bind, get_op, ret. simpl.
  destruct (path_exists w); simpl; [|reflexivity].
  destruct (_is_device_mounted w _); simpl.
  - destruct (_unmount_device w); simpl; [|reflexivity].
    destruct (hpa_dco_present _); simpl;
      [destruct (_remove_hpa_dco w); simpl|];
      destruct (pre_sample w); reflexivity.
  - destruct (hpa_dco_present _); simpl;
      [destruct (_remove_hpa_dco w); simpl|];
      destruct (pre_sample w); reflexivity.
Qed.

(** What [prepare_wipe_operation] stores is what [execute_wipe] runs. *)
Lemma execute_prepared w self d :
  let o := fst (prepare_wipe_operation self d) in
  let out := execute_wipe w (snd (prepare_wipe_operation self d))
                          (device_path d) in
  returned out = fst (execute_operation w (run_of o))
  /\ operation_of (core_after out) (device_path d)
     = Some (op (snd (execute_operation w (run_of o))))
  /\ notified out = delivered (snd (execute_operation w (run_of o))).
Proof.
  cbv zeta. unfold execute_wipe, prepare_wipe_operation, returned,
    core_after, notified, operation_of. simpl.
  rewrite dict_get_set_same. unfold run_of.
  destruct (execute_operation w _) as [res r1]. simpl.
  rewrite dict_get_set_same. repeat split.
Qed.

Lemma prepared_operation self d :
  let o := fst (prepare_wipe_operation self d) in
  WipeCore.device_info o = d
  /\ method o = select_optimal_wipe_method (ai_engine self) d
  /\ status o = NOT_STARTED
  /\ progress o = 0%Q
  /\ error_message o = None
  /\ WipeCore.verification_hashes o = []
  /\ operation_log o
     = [ "Operation prepared for " ++ device_path d;
         "Selected method: "
         ++ WipeMethod_value
              (select_optimal_wipe_method (ai_engine self) d) ].
Proof. repeat split. Qed.

(** When no exception leaves a phase, a failing pre-flight or a failing
    sanitize phase ends the call: it returns [False] and only the status
    is set. *)
Lemma failure_before_verification w r :
  nothing_escapes w ->
  let pre := _pre_wipe_checks w (started w r) in
  let run := _execute_wipe_method w (snd pre) in
  (fst pre = false ->
   execute_operation w r = (Ok false, snd (set_status FAILED (snd pre))))
  /\ (fst pre = true -> fst run = false ->
      execute_operation w r = (Ok false, snd (set_status FAILED (snd run)))).
Proof.
  intro Hesc. cbv zeta. rewrite execute_operation_started.
  unfold try_block, call_phase. rewrite !Hesc.
  destruct (_pre_wipe_checks w (started w r)) as [b1 ra]. simpl.
  split.
  - intros ->. reflexivity.
  - intros ->. destruct (_execute_wipe_method w ra) as [b2 rb]. simpl.
    intros ->. reflexivity.
Qed.

Lemma execute_wipe_method_bitlocker w r :
  method (op r) = CRYPTO_ERASE ->
  encryption_status (WipeCore.device_info (op r)) = "BitLocker" ->
  fst (_execute_wipe_method w r) = false
  /\ last (operation_log (op (snd (_execute_wipe_method w r)))) ""
     = "BitLocker crypto erase not implemented in Linux environment".
Proof.
  intros Hm He. unfold _execute_wipe_method, bind, get_op. simpl.
  rewrite Hm. unfold _crypto_erase, bind, get_op. simpl. rewrite He. simpl.
  split; [reflexivity|]. apply last_last.
Qed.

Lemma rule_based_bitlocker d :
  encryption_status d = "BitLocker" ->
  _rule_based_method_selection d = CRYPTO_ERASE.
Proof.
  intro H. unfold _rule_based_method_selection. rewrite H. reflexivity.
Qed.

(** X4: a device that the detection marked as BitLocker is never wiped
    by an engine that selects by its rules.  The rules select the crypto
    erase, the crypto erase of a BitLocker volume is not implemented and
    returns [False] without calling a tool, and so (no exception
    escaping) [execute_wipe] returns [False] and the operation is failed;
    when pre-flight went through, the last line of the log is the notice
    that BitLocker is not implemented. *)
Theorem X4_bitlocker_device_is_never_wiped
    (w : World) (self : WipeCoreObj) (d : DeviceInfo) :
  encryption_status d = "BitLocker" ->
  no_usable_prediction (ai_engine self) d ->
  nothing_escapes w ->
  let out := execute_wipe w (snd (prepare_wipe_operation self d))
                          (device_path d) in
  returned out = Ok false
  /\ exists o,
       operation_of (core_after out) (device_path d) = Some o
       /\ method o = CRYPTO_ERASE
       /\ status o = FAILED
       /\ (preflight_passes w (device_path d) = true ->
           last (operation_log o) ""
           = "BitLocker crypto erase not implemented in Linux environment").
Proof.
  intros Henc Hpred Hesc.
  pose proof (execute_prepared w self d) as P. cbv zeta in P.
  destruct P as (Pr & Po & _).
  cbv zeta. rewrite Pr, Po.
  pose proof (prepared_operation self d) as Q. cbv zeta in Q.
  destruct Q as (Qd & Qm & _).
  rewrite (select_without_prediction _ _ Hpred) in Qm.
  rewrite (rule_based_bitlocker _ Henc) in Qm.
  remember (fst (prepare_wipe_operation self d)) as o eqn:Ho. clear Ho.
  pose proof (@failure_before_verification w (run_of o) Hesc) as F.
  cbv zeta in F. destruct F as (F1 & F2).
  pose proof (pre_wipe_checks_result w (started w (run_of o))) as R.
  simpl WipeCore.device_info in R. rewrite Qd in R.
  pose proof (frame0_pre_wipe_checks w (started w (run_of o))) as K.
  destruct (_pre_wipe_checks w (started w (run_of o))) as [b1 ra].
  simpl in F1, F2, R, K. destruct K as (Kd & Km & _).
  simpl in Kd, Km. rewrite Qd in Kd. rewrite Qm in Km.
  destruct b1.
  - destruct (@execute_wipe_method_bitlocker w ra Km) as (E1 & E2).
    { rewrite Kd. exact Henc. }
    pose proof (frame0_execute_wipe_method w ra) as K2.
    rewrite (F2 eq_refl E1). simpl.
    split; [reflexivity|]. eexists. split; [reflexivity|].
    destruct K2 as (_ & K2m & _). simpl.
    split; [rewrite K2m; exact Km|]. split; [reflexivity|].
    intros _. exact E2.
  - rewrite (F1 eq_refl). simpl.
    split; [reflexivity|]. eexists. split; [reflexivity|]. simpl.
    split; [exact Km|]. split; [reflexivity|].
    intro H. rewrite <- R in H. discriminate.
Qed.

Lemma X4_bitlocker_device_is_never_wiped_witness :
  returned (execute_wipe Scenario.world_all_fine
              (snd (prepare_wipe_operation Scenario.core
                      Cases.bitlocker_disk))
              "/dev/sdf") = Ok false.
Proof.
  refine (proj1 (@X4_bitlocker_device_is_never_wiped
                   Scenario.world_all_fine Scenario.core
                   Cases.bitlocker_disk _ _ _)).
  - reflexivity.
  - exact I.
  - intros p n. reflexivity.
Defined.

Lemma select_class_6 (self : AIWipeEngine) (d : DeviceInfo) :
  prediction self d = Some (Ok 6) ->
  select_optimal_wipe_method self d = FACTORY_RESET.
Proof.
  unfold prediction, select_optimal_wipe_method.
  destruct (method_selector self) as [clf|]; [|discriminate].
  intro H. injection H as H. rewrite H. reflexivity.
Qed.

Lemma execute_wipe_method_factory_reset w r :
  method (op r) = FACTORY_RESET ->
  fst (_execute_wipe_method w r) = false
  /\ error_message (op (snd (_execute_wipe_method w r)))
     = Some "Unsupported wipe method: WipeMethod.FACTORY_RESET".
Proof.
  intro Hm. unfold _execute_wipe_method, bind, get_op. simpl.
  rewrite Hm. split; reflexivity.
Qed.

(** X5: the classifier can select a method the executor has no driver
    for.  When it answers class 6 ([FACTORY_RESET], the last member of the
    enumeration), the prepared operation cannot succeed: (no exception
    escaping) [execute_wipe] returns [False], the operation is failed and
    still carries that method, and when pre-flight went through the error
    message says that the method is unsupported. *)
Theorem X5_factory_reset_has_no_driver
    (w : World) (self : WipeCoreObj) (d : DeviceInfo) :
  prediction (ai_engine self) d = Some (Ok 6) ->
  nothing_escapes w ->
  let out := execute_wipe w (snd (prepare_wipe_operation self d))
                          (device_path d) in
  returned out = Ok false
  /\ exists o,
       operation_of (core_after out) (device_path d) = Some o
       /\ method o = FACTORY_RESET
       /\ status o = FAILED
       /\ (preflight_passes w (device_path d) = true ->
           error_message o
           = Some "Unsupported wipe method: WipeMethod.FACTORY_RESET").
Proof.
  intros Hpred Hesc.
  pose proof (execute_prepared w self d) as P. cbv zeta in P.
  destruct P as (Pr & Po & _).
  cbv zeta. rewrite Pr, Po.
  pose proof (prepared_operation self d) as Q. cbv zeta in Q.
  destruct Q as (Qd & Qm & _).
  rewrite (select_class_6 _ _ Hpred) in Qm.
  remember (fst (prepare_wipe_operation self d)) as o eqn:Ho. clear Ho.
  pose proof (@failure_before_verification w (run_of o) Hesc) as F.
  cbv zeta in F. destruct F as (F1 & F2).
  pose proof (pre_wipe_checks_result w (started w (run_of o))) as R.
  simpl WipeCore.device_info in R. rewrite Qd in R.
  pose proof (frame0_pre_wipe_checks w (started w (run_of o))) as K.
  destruct (_pre_wipe_checks w (started w (run_of o))) as [b1 ra].
  simpl in F1, F2, R, K. destruct K as (Kd & Km & _).
  simpl in Kd, Km. rewrite Qm in Km.
  destruct b1.
  - destruct (@execute_wipe_method_factory_reset w ra Km) as (E1 & E2).
    pose proof (frame0_execute_wipe_method w ra) as K2.
    rewrite (F2 eq_refl E1). simpl.
    split; [reflexivity|]. eexists. split; [reflexivity|].
    destruct K2 as (_ & K2m & _). simpl.
    split; [rewrite K2m; exact Km|]. split; [reflexivity|].
    intros _. exact E2.
  - rewrite (F1 eq_refl). simpl.
    split; [reflexivity|]. eexists. split; [reflexivity|]. simpl.
    split; [exact Km|]. split; [reflexivity|].
    intro H. rewrite <- R in H. discriminate.
Qed.

Lemma X5_factory_reset_has_no_driver_witness :
  returned (execute_wipe Scenario.world_all_fine
              (snd (prepare_wipe_operation Cases.core_6 Examples.disk))
              "/dev/sdb") = Ok false.
Proof.
  refine (proj1 (@X5_factory_reset_has_no_driver
                   Scenario.world_all_fine Cases.core_6 Examples.disk _ _)).
  - reflexivity.
  - intros p n. reflexivity.
Defined.

(** X6: the prepared operations are kept apart by device path.
    [prepare_wipe_operation] stores a fresh operation (not started, no
    progress, no error, no hashes) under the path of its device and
    leaves the operations of all other paths as they are;
    [execute_wipe] on a path without a prepared operation returns [False]
    and changes nothing; and on any path it leaves the operations of all
    other paths as they are. *)
Theorem X6_operations_are_kept_apart
    (w : World) (self : WipeCoreObj) (d : DeviceInfo) (p : string) :
  let prepared := prepare_wipe_operation self d in
  operation_of (snd prepared) (device_path d) = Some (fst prepared)
  /\ status (fst prepared) = NOT_STARTED
  /\ progress (fst prepared) = 0%Q
  /\ error_message (fst prepared) = None
  /\ WipeCore.verification_hashes (fst prepared) = []
  /\ (forall p', p' <> device_path d ->
      operation_of (snd prepared) p' = operation_of self p')
  /\ (operation_of self p = None ->
      execute_wipe w self p = (Ok false, self, []))
  /\ (forall p', p' <> p ->
      operation_of (core_after (execute_wipe w self p)) p'
      = operation_of self p').
Proof.
  cbv zeta. unfold operation_of, prepare_wipe_operation. simpl.
  split; [apply dict_get_set_same|].
  do 4 (split; [reflexivity|]).
  split; [intros p' Hp; apply dict_get_set_other; exact Hp|].
  unfold execute_wipe, core_after.
  split.
  - intros ->. reflexivity.
  - intros p' Hp.
    destruct (dict_get p (current_operations self)) as [o|]; [|reflexivity].
    destruct (execute_operation w _) as [res r1]. simpl.
    apply dict_get_set_other. exact Hp.
Qed.

(* ================================================================== *)
(** * A device of size zero under a secure erase *)
(* ================================================================== *)

Lemma poll_progress_zero path est msg e rest r :
  (est == 0)%Q ->
  poll_progress path est msg (e :: rest) r
  = (Some "float division by zero", r).
Proof.
  intro H. simpl.
  replace (Qeq_bool est 0) with true; [reflexivity|].
  symmetry. apply Qeq_bool_iff. exact H.
Qed.

(** X7: on a device whose size is 0.0 the two secure-erase drivers
    estimate a duration of zero seconds and divide by it: if the erase
    command is still running when it is first polled, the driver raises
    inside its own [try], logs the division by zero and returns [False],
    whatever the exit code of the erase command turns out to be. *)
Theorem X7_zero_size_fails_a_running_secure_erase
    (w : World) (r : Run) (p : popen_result) (err : string)
    (t : Q) (ts : list Q) :
  (size_gb (WipeCore.device_info (op r)) == 0)%Q ->
  polls p = t :: ts ->
  (ata_set_pass w = RunDone 0 err -> ata_erase w = Ok p ->
   fst (_ata_secure_erase w r) = false
   /\ last (operation_log (op (snd (_ata_secure_erase w r)))) ""
      = "ATA Secure Erase error: float division by zero")
  /\ (nvme_list_ns w = RunDone 0 err -> nvme_format w = Ok p ->
      fst (_nvme_secure_erase w r) = false
      /\ last (operation_log (op (snd (_nvme_secure_erase w r)))) ""
         = "NVMe Secure Erase error: float division by zero").
Proof.
  intros Hsize Hpolls. split.
  - intros Hset Herase.
    unfold _ata_secure_erase, bind, get_op. simpl.
    rewrite Hset, Herase, Hpolls.
    change (negb (0 =? 0)) with false. cbv beta iota.
    rewrite poll_progress_zero by (rewrite Hsize; reflexivity).
    cbv beta iota. unfold log, upd_op, ret. simpl.
    split; [reflexivity|]. apply last_last.
  - intros Hset Herase.
    unfold _nvme_secure_erase, bind, get_op. simpl.
    rewrite Hset, Herase, Hpolls.
    change (negb (0 =? 0)) with false. cbv beta iota.
    rewrite poll_progress_zero by (rewrite Hsize; reflexivity).
    cbv beta iota. unfold log, upd_op, ret. simpl.
    split; [reflexivity|]. apply last_last.
Qed.

Lemma X7_zero_size_fails_a_running_secure_erase_witness :
  fst (_ata_secure_erase Cases.world_erase_polled
         (Scenario.fresh Cases.unsized_disk)) = false.
Proof.
  refine (proj1 (proj1 (@X7_zero_size_fails_a_running_secure_erase
                          Cases.world_erase_polled
                          (Scenario.fresh Cases.unsized_disk)
                          Cases.erase_polled_once "" 5%Q [] _ _)
                   _ _)).
  - reflexivity.
  - reflexivity.
  - reflexivity.
  - reflexivity.
Defined.

(* ================================================================== *)
(** * Error recovery of [execute_wipe] *)
(* ================================================================== *)














(* ================================================================== *)
(** * What a certificate says *)
(* ================================================================== *)

Section CertificateContent.
Context {HL : Hashlib} {FR : FloatRepr} {B64 : Base64} {EC : Ecdsa}.

(** X8: the certificate hides the device path in its device section (a
    16-digit prefix of a hash) but prints it in its log section: the last
    entry of [operation_log] of every generated certificate is the entry
    that [generate_certificate] has just appended, and its message ends
    with the device path in clear. *)
Theorem X8_certificate_names_the_device_path
    (gen : Cert.CertificateGenerator) (dr : Cert.Draws)
    (operation : WipeOperation) (dir : string)
    (doc : list (string * json)) :
  fst (Cert.generate_certificate gen dr operation dir) = Ok (JDict doc) ->
  (exists device_section,
     dict_get "device_info" doc = Some (JDict device_section)
     /\ dict_get "device_path" device_section = None
     /\ dict_get "device_path_hash" device_section
        = Some (JStr (substring 0 16
                        (sha256_hex
                           (device_path (WipeCore.device_info operation))))))
  /\ exists entries entry,
       dict_get "operation_log" doc = Some (JList (entries ++ [JDict entry]))
       /\ List.length entries
          = List.length (Logger.log_chain (Cert.logger gen))
       /\ dict_get "message" entry
          = Some (JStr ("Starting certificate generation for "
                        ++ device_path (WipeCore.device_info operation))).
Proof.
  intro H. apply generate_certificate_document in H.
  destruct H as (s & _ & ->).
  split.
  - eexists. split; [reflexivity|]. split; reflexivity.
  - simpl. unfold Logger.add_entry. simpl.
    rewrite map_app. simpl.
    eexists. eexists. split; [reflexivity|].
    split; [apply length_map|]. reflexivity.
Qed.

End CertificateContent.

Lemma X8_certificate_names_the_device_path_witness :
  exists entries entry,
    dict_get "operation_log" (CertExample.document CertExample.draws_1)
    = Some (JList (entries ++ [JDict entry]))
    /\ List.length entries = 2%nat
    /\ dict_get "message" entry
       = Some (JStr "Starting certificate generation for /dev/sdc").
Proof.
  exact (proj2 (@X8_certificate_names_the_device_path
                  StandIn.hashlib_plain StandIn.float_repr_decimal
                  StandIn.base64_plain StandIn.ecdsa_plain
                  CertExample.generator CertExample.draws_1
                  CertExample.operation "/tmp"
                  (CertExample.document CertExample.draws_1)
                  eq_refl)).
Defined.

(* ================================================================== *)
(** * The sample hashes of an operation *)
(* ================================================================== *)

Section SampleKept.
Variable h : string.

Lemma pre_sample_kept_refl r : pre_sample_kept h r r.
Proof. intro H. exact H. Qed.

Lemma pre_sample_kept_trans a b c :
  pre_sample_kept h a b -> pre_sample_kept h b c -> pre_sample_kept h a c.
Proof. unfold pre_sample_kept. auto. Qed.

(** A state change that leaves the hashes alone. *)
Lemma pre_sample_kept_same r r' :
  WipeCore.verification_hashes (op r') = WipeCore.verification_hashes (op r) ->
  pre_sample_kept h r r'.
Proof. intros E H. rewrite E. exact H. Qed.

Lemma pre_sample_kept_log s : keeps (pre_sample_kept h) (log s).
Proof. intro r. apply pre_sample_kept_same. reflexivity. Qed.

Lemma pre_sample_kept_notify path p msg :
  keeps (pre_sample_kept h) (_notify_progress path p msg).
Proof. intro r. apply pre_sample_kept_same. reflexivity. Qed.

Lemma pre_sample_kept_set_progress p :
  keeps (pre_sample_kept h) (set_progress p).
Proof. intro r. apply pre_sample_kept_same. reflexivity. Qed.

Lemma pre_sample_kept_set_error s :
  keeps (pre_sample_kept h) (set_error_message s).
Proof. intro r. apply pre_sample_kept_same. reflexivity. Qed.

Lemma pre_sample_kept_set_status s :
  keeps (pre_sample_kept h) (set_status s).
Proof. intro r. apply pre_sample_kept_same. reflexivity. Qed.

Lemma pre_sample_kept_set_method m :
  keeps (pre_sample_kept h) (set_method m).
Proof. intro r. apply pre_sample_kept_same. reflexivity. Qed.

Lemma pre_sample_kept_set_end t :
  keeps (pre_sample_kept h) (set_end_time t).
Proof. intro r. apply pre_sample_kept_same. reflexivity. Qed.

(** The post-wipe sample is stored under a key of its own. *)
Lemma pre_sample_kept_post v :
  keeps (pre_sample_kept h) (set_hash "post_wipe_sample" v).
Proof.
  intros r H. simpl. rewrite dict_get_set_other by discriminate. exact H.
Qed.

Ltac kept_prim :=
  first [ apply pre_sample_kept_log | apply pre_sample_kept_notify
        | apply pre_sample_kept_set_progress | apply pre_sample_kept_set_error
        | apply pre_sample_kept_set_status | apply pre_sample_kept_set_method
        | apply pre_sample_kept_set_end | apply pre_sample_kept_post ].

Ltac kept_auto prim :=
  repeat keeps_step pre_sample_kept_refl pre_sample_kept_trans prim.

Lemma pre_sample_kept_bind {A B : Type} (c : M A) (k : A -> M B) :
  keeps (pre_sample_kept h) c -> (forall a, keeps (pre_sample_kept h) (k a)) ->
  keeps (pre_sample_kept h) (bind c k).
Proof. apply keeps_bind. exact pre_sample_kept_trans. Qed.

Lemma pre_sample_kept_poll_progress path est msg elapsed :
  keeps (pre_sample_kept h) (poll_progress path est msg elapsed).
Proof.
  induction elapsed as [|e rest IH]; simpl.
  - kept_auto kept_prim.
  - destruct (Qeq_bool est 0); [kept_auto kept_prim|].
    apply pre_sample_kept_bind;
      [apply pre_sample_kept_notify|intros _; exact IH].
Qed.

Lemma pre_sample_kept_write_chunks fuel path fault size base n written :
  keeps (pre_sample_kept h)
        (write_chunks fuel path fault size base n written).
Proof.
  revert n written.
  induction fuel as [|fuel IH]; intros n written; simpl.
  - kept_auto kept_prim.
  - destruct (written <? size); [|kept_auto kept_prim].
    destruct fault as [[k msg]|].
    + destruct (k =? n); [kept_auto kept_prim|].
      apply pre_sample_kept_bind;
        [apply pre_sample_kept_notify|intros _; apply IH].
    + apply pre_sample_kept_bind;
        [apply pre_sample_kept_notify|intros _; apply IH].
Qed.

Lemma pre_sample_kept_overwrite_device w path pass size base :
  keeps (pre_sample_kept h) (_overwrite_device w path pass size base).
Proof.
  unfold _overwrite_device.
  kept_auto ltac:(first [apply pre_sample_kept_write_chunks | kept_prim]).
Qed.

Lemma pre_sample_kept_monitor path polls :
  keeps (pre_sample_kept h) (_monitor_dd_progress path polls).
Proof.
  induction polls as [|e rest IH]; simpl.
  - kept_auto kept_prim.
  - apply pre_sample_kept_bind;
      [apply keeps_get_op; exact pre_sample_kept_refl|intro o].
    apply pre_sample_kept_bind; [kept_auto kept_prim|intros _; exact IH].
Qed.

Lemma pre_sample_kept_overwrite_passes w path size passes :
  keeps (pre_sample_kept h) (overwrite_passes w path size passes).
Proof.
  induction passes as [|p rest IH]; simpl.
  - kept_auto kept_prim.
  - apply pre_sample_kept_bind; [apply pre_sample_kept_log|intros _].
    apply pre_sample_kept_bind;
      [apply pre_sample_kept_overwrite_device|intro ok].
    destruct (negb ok); [kept_auto kept_prim|].
    apply pre_sample_kept_bind;
      [apply pre_sample_kept_notify|intros _; exact IH].
Qed.

Lemma pre_sample_kept_verify_samples w path size n idx :
  keeps (pre_sample_kept h) (verify_samples w path size n idx).
Proof.
  destruct idx as [|i rest]; simpl; kept_auto kept_prim.
Qed.

Ltac kept_loops :=
  first [ apply pre_sample_kept_poll_progress | apply pre_sample_kept_monitor
        | apply pre_sample_kept_overwrite_passes
        | apply pre_sample_kept_verify_samples | kept_prim ].

Lemma pre_sample_kept_single_pass w :
  keeps (pre_sample_kept h) (_single_pass_random w).
Proof. unfold _single_pass_random. kept_auto kept_loops. Qed.

Lemma pre_sample_kept_execute_wipe_method w :
  keeps (pre_sample_kept h) (_execute_wipe_method w).
Proof.
  unfold _execute_wipe_method, _ata_secure_erase, _nvme_secure_erase,
    _nvme_crypto_erase, _multipass_overwrite, _crypto_erase.
  kept_auto ltac:(first [apply pre_sample_kept_single_pass | kept_loops]).
Qed.

Lemma pre_sample_kept_post_wipe_verification w :
  keeps (pre_sample_kept h) (_post_wipe_verification w).
Proof.
  unfold _post_wipe_verification, _take_post_wipe_sample.
  kept_auto kept_loops.
Qed.

Lemma pre_sample_kept_call_phase {A : Type} fault (body : M A) r :
  keeps (pre_sample_kept h) body ->
  pre_sample_kept h r (snd (call_phase fault body r)).
Proof.
  intro H. unfold call_phase.
  destruct fault; [apply pre_sample_kept_refl|].
  specialize (H r). destruct (body r). exact H.
Qed.

Lemma pre_sample_kept_handler w e r :
  pre_sample_kept h r (snd (handler w e r)).
Proof.
  unfold handler.
  set (res := diagnose_and_resolve_errors e).
  assert (F1 : keeps (pre_sample_kept h)
                 (set_status FAILED ;; set_error_message e ;;
                  log ("Error diagnosis: " ++ diagnosis res) ;;
                  log ("Suggested actions: "
                       ++ py_list_repr (suggested_actions res)))%wipe)
    by kept_auto kept_prim.
  specialize (F1 r).
  destruct ((set_status FAILED ;; _)%wipe r) as [u r1]. simpl in F1.
  destruct (fallback_of res) as [m|]; [|exact F1].
  assert (F2 : keeps (pre_sample_kept h)
                 (log ("Trying alternative method: " ++ WipeMethod_str m) ;;
                  set_method m)%wipe)
    by kept_auto kept_prim.
  specialize (F2 r1).
  destruct ((log _ ;; set_method m)%wipe r1) as [u' r2]. simpl in F2.
  eapply pre_sample_kept_trans; [exact F1|].
  eapply pre_sample_kept_trans; [exact F2|].
  apply pre_sample_kept_call_phase, pre_sample_kept_execute_wipe_method.
Qed.

(** Once pre-flight is over, nothing up to the end of the [try] block
    takes the pre-wipe sample away. *)
Lemma pre_sample_kept_after_preflight w ra :
  pre_sample_kept h ra
    (snd (match call_phase (escaping w Sanitize 0)
                           (_execute_wipe_method w) ra with
          | (Exc e, r2) => (@Exc bool e, r2)
          | (Ok false, r2) =>
              let (_, r3) := set_status FAILED r2 in (Ok false, r3)
          | (Ok true, r2) =>
              match call_phase (escaping w Verification 0)
                               (_post_wipe_verification w) r2 with
              | (Exc e, r3) => (Exc e, r3)
              | (Ok true, r3) =>
                  let (_, r4) :=
                    (set_status COMPLETED ;;
                     set_end_time (clock_end w) ;;
                     set_progress 100 ;;
                     _notify_progress
                       (device_path (WipeCore.device_info (op r3))) 100
                       "Wipe completed successfully")%wipe r3 in
                  (Ok true, r4)
              | (Ok false, r3) =>
                  let (_, r4) :=
                    (set_status FAILED ;;
                     set_error_message "Post-wipe verification failed")%wipe
                      r3 in
                  (Ok false, r4)
              end
          end)).
Proof.
  pose proof (@pre_sample_kept_call_phase _ (escaping w Sanitize 0) _ ra
                (pre_sample_kept_execute_wipe_method w)) as F2.
  destruct (call_phase _ (_execute_wipe_method w) ra) as [[[|]|e] rb];
    simpl in F2; [| |exact F2].
  2:{ eapply pre_sample_kept_trans; [exact F2|].
      apply pre_sample_kept_set_status. }
  pose proof (@pre_sample_kept_call_phase _ (escaping w Verification 0) _ rb
                (pre_sample_kept_post_wipe_verification w)) as F3.
  destruct (call_phase _ (_post_wipe_verification w) rb) as [[[|]|e] rc];
    simpl in F3.
  3:{ eapply pre_sample_kept_trans; eassumption. }
  - eapply pre_sample_kept_trans; [exact F2|].
    eapply pre_sample_kept_trans; [exact F3|].
    apply pre_sample_kept_same. reflexivity.
  - eapply pre_sample_kept_trans; [exact F2|].
    eapply pre_sample_kept_trans; [exact F3|].
    apply pre_sample_kept_same. reflexivity.
Qed.

End SampleKept.

(** A pre-flight that goes through and can read the first MiB stores
    its hash. *)
Lemma pre_wipe_checks_stores_sample w r h :
  pre_sample w = Ok h ->
  fst (_pre_wipe_checks w r) = true ->
  dict_get "pre_wipe_sample"
    (WipeCore.verification_hashes (op (snd (_pre_wipe_checks w r))))
  = Some h.
Proof.
  intros Hs.
  unfold _pre_wipe_checks, _take_pre_wipe_sample, bind, get_op, ret.
  rewrite Hs. simpl.
  destruct (path_exists w); simpl; [|discriminate].
  destruct (_is_device_mounted w _); simpl.
  - destruct (_unmount_device w); simpl; [|discriminate].
    destruct (hpa_dco_present _); simpl;
      [destruct (_remove_hpa_dco w); simpl|];
      intros _; apply dict_get_set_same.
  - destruct (hpa_dco_present _); simpl;
      [destruct (_remove_hpa_dco w); simpl|];
      intros _; apply dict_get_set_same.
Qed.

Section VerificationLevel.
Context {HL : Hashlib} {FR : FloatRepr} {B64 : Base64} {EC : Ecdsa}.

(** X9: the verification level of a certificate says nothing about the
    post-wipe verification.  As soon as pre-flight has gone through and
    could read the first MiB of the device, the operation carries the
    pre-wipe sample hash until the end of the execution, whatever happens
    afterwards (a failing wipe method, a failing verification, an
    exception), and every certificate built for the operation states the
    verification level "Basic". *)
Theorem X9_verification_level_needs_no_verification
    (w : World) (r : Run) (h : string)
    (gen : Cert.CertificateGenerator) (uuid now_iso : string) :
  escaping w PreChecks 0 = None ->
  preflight_passes w (device_path (WipeCore.device_info (op r))) = true ->
  pre_sample w = Ok h ->
  let o := op (snd (execute_operation w r)) in
  dict_get "pre_wipe_sample" (WipeCore.verification_hashes o) = Some h
  /\ verification_level (Cert._prepare_certificate_data gen uuid now_iso o)
     = Some (JStr "Basic").
Proof.
  intros Hesc Hpre Hs.
  assert (K : dict_get "pre_wipe_sample"
                (WipeCore.verification_hashes
                   (op (snd (execute_operation w r)))) = Some h).
  { rewrite execute_operation_started. unfold try_block.
    unfold call_phase at 1. rewrite Hesc.
    pose proof (pre_wipe_checks_result w (started w r)) as R.
    simpl WipeCore.device_info in R. rewrite Hpre in R.
    pose proof (@pre_wipe_checks_stores_sample w (started w r) h Hs R) as S.
    destruct (_pre_wipe_checks w (started w r)) as [b1 ra].
    simpl in R, S. subst b1.
    pose proof (@pre_sample_kept_after_preflight h w ra S) as T.
    match type of T with
    | dict_get _ (WipeCore.verification_hashes (op (snd ?x))) = _ =>
        destruct x as [[b|e] r1]
    end; simpl in T.
    - exact T.
    - apply pre_sample_kept_handler. exact T. }
  cbv zeta. split; [exact K|].
  unfold verification_level, Cert._prepare_certificate_data. simpl.
  destruct (WipeCore.verification_hashes _); [discriminate|reflexivity].
Qed.

End VerificationLevel.

Lemma X9_verification_level_needs_no_verification_witness :
  let o := op (snd (execute_operation Scenario.world_all_fine
                                      (Scenario.fresh Scenario.ssd))) in
  status o = FAILED
  /\ verification_level
       (Cert._prepare_certificate_data
          (HL := StandIn.hashlib_plain) (FR := StandIn.float_repr_decimal)
          (EC := StandIn.ecdsa_plain)
          CertExample.generator "9a1c0000-0000-4000-8000-000000000003"
          "2023-11-14T22:30:00+00:00" o)
     = Some (JStr "Basic").
Proof.
  split; [vm_compute; reflexivity|].
  refine (proj2 (@X9_verification_level_needs_no_verification
                   StandIn.hashlib_plain StandIn.float_repr_decimal
                   StandIn.ecdsa_plain
                   Scenario.world_all_fine (Scenario.fresh Scenario.ssd)
                   "5f70bf18a086007016e948b04aed3b82"
                   CertExample.generator
                   "9a1c0000-0000-4000-8000-000000000003"
                   "2023-11-14T22:30:00+00:00" _ _ _)).
  - reflexivity.
  - vm_compute. reflexivity.
  - reflexivity.
Defined.

(* ================================================================== *)
(** * The anchor of a certificate *)
(* ================================================================== *)

Lemma dict_pop_set_same {V : Type} (k : string) (v : V) d :
  dict_pop k (dict_set k v d) = dict_pop k d.
Proof.
  induction d as [|[k0 v0] d IH]; simpl.
  - rewrite String.eqb_refl. reflexivity.
  - destruct (String.eqb k0 k) eqn:E; simpl.
    + rewrite String.eqb_refl. reflexivity.
    + rewrite E, IH. reflexivity.
Qed.

Lemma dict_pop_set_other {V : Type} (k k' : string) (v : V) d :
  k <> k' -> dict_pop k (dict_set k' v d) = dict_set k' v (dict_pop k d).
Proof.
  intro Hk. induction d as [|[k0 v0] d IH]; simpl.
  - replace (String.eqb k' k) with false; [reflexivity|].
    symmetry. apply String.eqb_neq. congruence.
  - destruct (String.eqb k0 k') eqn:E'; simpl.
    + apply String.eqb_eq in E'. subst k0.
      replace (String.eqb k' k) with false
        by (symmetry; apply String.eqb_neq; congruence).
      simpl. rewrite String.eqb_refl. reflexivity.
    + destruct (String.eqb k0 k) eqn:E; simpl.
      * reflexivity.
      * rewrite E', IH. reflexivity.
Qed.

Section Anchor.
Context {HL : Hashlib} {FR : FloatRepr} {B64 : Base64} {EC : Ecdsa}.

(** X10: the anchor of a certificate is not protected by its signature.
    Whoever holds a certificate file can add a [blockchain_anchor] or
    replace the one it has by any value: [verify_certificate] gives the
    same verdict, identifier, timestamp and fingerprint as for the
    original file, and reports the new anchor as the certificate's. *)
Theorem X10_anchor_is_not_protected
    (verifier : Cert.CertificateGenerator)
    (doc : list (string * json)) (anchor : json) :
  Cert.verify_certificate verifier (Ok (JDict (with_anchor doc anchor)))
  = report_with_anchor
      (Cert.verify_certificate verifier (Ok (JDict doc))) anchor.
Proof.
  unfold Cert.verify_certificate, with_anchor.
  rewrite (@dict_get_set_other _ "signature" "blockchain_anchor")
    by discriminate.
  rewrite (@dict_pop_set_other _ "signature" "blockchain_anchor")
    by discriminate.
  rewrite dict_pop_set_same, dict_get_set_same.
  destruct (dict_get "tool_info" _) as [[| | | | | |]|]; reflexivity.
Qed.

(* ================================================================== *)
(** * The log during certificate generation *)
(* ================================================================== *)

(** X11: [generate_certificate] keeps a valid log chain valid and never
    changes the signer.  When the signer has a private key and no step
    raises (preparing the data, writing the JSON file, rendering the PDF),
    it returns a document and has appended exactly two entries to the
    log.  In every other case it raises after it has appended the first
    entry only; without a private key, and with the data prepared, the
    exception is "No private key available for signing". *)
Theorem X11_generation_keeps_the_log_valid
    (gen : Cert.CertificateGenerator) (dr : Cert.Draws)
    (operation : WipeOperation) (dir : string) :
  Logger.verify_chain_integrity (Cert.logger gen) = true ->
  let out := Cert.generate_certificate gen dr operation dir in
  Logger.verify_chain_integrity (Cert.logger (snd out)) = true
  /\ Cert.signer (snd out) = Cert.signer gen
  /\ match Cert.private_key (Cert.signer gen), Cert.prepare_fault dr,
           Cert.json_fault dr, Cert.pdf_fault dr with
     | Some _, None, None, None =>
         (exists doc, fst out = Ok (JDict doc))
         /\ exists e1 e2,
              Logger.log_chain (Cert.logger (snd out))
              = (Logger.log_chain (Cert.logger gen) ++ [e1; e2])%list
     | _, _, _, _ =>
         (exists e, fst out = Exc e)
         /\ exists e1,
              Logger.log_chain (Cert.logger (snd out))
              = (Logger.log_chain (Cert.logger gen) ++ [e1])%list
     end
  /\ (Cert.private_key (Cert.signer gen) = None ->
      Cert.prepare_fault dr = None ->
      fst out = Exc "No private key available for signing").
Proof.
  intro Hvalid. cbv zeta.
  unfold Cert.generate_certificate, Cert._sign_certificate, Cert.sign_data.
  simpl.
  pose proof (add_entry_valid (Cert.logger gen)
                (Cert.log_time_1 dr) (Cert.log_uuid_1 dr)
                ("Starting certificate generation for "
                 ++ device_path (WipeCore.device_info operation)) "INFO"
                Hvalid) as V1.
  destruct (Cert.private_key (Cert.signer gen)) as [sk|];
    destruct (Cert.prepare_fault dr) as [e0|];
    destruct (Cert.json_fault dr) as [ej|];
    destruct (Cert.pdf_fault dr) as [ep|]; simpl;
    try (split; [exact V1|]; split; [reflexivity|];
         split;
         [split; [eexists; reflexivity|eexists; reflexivity]
         |intros; try discriminate; reflexivity]).
  split.
  - exact (add_entry_valid _ (Cert.log_time_2 dr) (Cert.log_uuid_2 dr)
                           _ "INFO" V1).
  - split; [reflexivity|]. split; [|intro H; discriminate H].
    split; [eexists; reflexivity|].
    eexists. eexists. rewrite <- app_assoc. reflexivity.
Qed.

(* ================================================================== *)
(** * The summary of the log *)
(* ================================================================== *)

(** X12: the summary follows the chain.  After [add_entry] on a valid
    chain the summary counts one entry more, its last timestamp is the
    clock reading of the append, its chain hash is the hash of the new
    entry, which links to the chain hash the summary showed before, and it
    still reports the integrity as verified.  The summary of an empty log
    has no timestamps and shows the genesis hash. *)
Theorem X12_summary_follows_the_chain
    (lg : Logger.TamperProofLogger) (now : Q)
    (uuid message level : string) :
  Logger.verify_chain_integrity lg = true ->
  let lg' := snd (Logger.add_entry lg now uuid message level) in
  let e := Logger.LogEntry_new now uuid message level
             (chain_hash (get_log_summary lg)) "" in
  total_entries (get_log_summary lg')
  = total_entries (get_log_summary lg) + 1
  /\ last_entry_timestamp (get_log_summary lg') = Some now
  /\ chain_hash (get_log_summary lg') = Logger.calculate_hash e
  /\ Logger.previous_hash e = chain_hash (get_log_summary lg)
  /\ integrity_verified (get_log_summary lg') = true
  /\ (Logger.log_chain lg = [] ->
      first_entry_timestamp (get_log_summary lg) = None
      /\ last_entry_timestamp (get_log_summary lg) = None
      /\ chain_hash (get_log_summary lg) = Logger.genesis_hash
      /\ first_entry_timestamp (get_log_summary lg') = Some now).
Proof.
  intro Hvalid. cbv zeta.
  unfold get_log_summary, Logger.add_entry. simpl.
  rewrite rev_app_distr. simpl.
  rewrite length_app. simpl.
  split; [lia|]. split; [reflexivity|].
  split; [reflexivity|]. split; [reflexivity|].
  split.
  - exact (add_entry_valid lg now uuid message level Hvalid).
  - intro Hnil. rewrite Hnil. simpl. repeat split.
Qed.

End Anchor.

Lemma X11_generation_keeps_the_log_valid_witness :
  Logger.verify_chain_integrity
    (HL := StandIn.hashlib_plain) (FR := StandIn.float_repr_decimal)
    (Cert.logger
       (snd (Cert.generate_certificate
               (HL := StandIn.hashlib_plain)
               (FR := StandIn.float_repr_decimal)
               (B64 := StandIn.base64_plain) (EC := StandIn.ecdsa_plain)
               CertExample.generator CertExample.draws_1
               CertExample.operation "/tmp"))) = true.
Proof.
  refine (proj1 (@X11_generation_keeps_the_log_valid
                   StandIn.hashlib_plain StandIn.float_repr_decimal
                   StandIn.base64_plain StandIn.ecdsa_plain
                   CertExample.generator CertExample.draws_1
                   CertExample.operation "/tmp" _)).
  vm_compute. reflexivity.
Defined.

Lemma X12_summary_follows_the_chain_witness :
  total_entries
    (get_log_summary (HL := StandIn.hashlib_plain)
       (FR := StandIn.float_repr_decimal)
       (snd (Logger.add_entry (HL := StandIn.hashlib_plain)
               (FR := StandIn.float_repr_decimal)
               {| Logger.log_chain := LogExample.chain |}
               1700000700 "3f2b8c1e-0009" "Certificate issued" "INFO")))
  = 3.
Proof.
  refine (proj1 (@X12_summary_follows_the_chain
                   StandIn.hashlib_plain StandIn.float_repr_decimal
                   {| Logger.log_chain := LogExample.chain |}
                   1700000700 "3f2b8c1e-0009" "Certificate issued" "INFO"
                   _)).
  vm_compute. reflexivity.
Defined.

(* ================================================================== *)
(** * What an overwrite pass writes *)
(* ================================================================== *)

Section OverwriteImage.
Import Overwrite.

Lemma bytes_mul_length p n :
  List.length (bytes_mul p n) = (List.length p * n)%nat.
Proof.
  induction n as [|n IH]; simpl.
  - lia.
  - rewrite length_app, IH. lia.
Qed.

(** The repeated pattern is periodic. *)
Lemma bytes_mul_nth p n i d :
  (i < List.length p * n)%nat ->
  nth i (bytes_mul p n) d = nth (i mod List.length p) p d.
Proof.
  revert i. induction n as [|n IH]; intros i Hi; simpl.
  - lia.
  - destruct (Nat.lt_ge_cases i (List.length p)) as [Hlt|Hge].
    + rewrite app_nth1 by exact Hlt.
      rewrite Nat.mod_small by exact Hlt. reflexivity.
    + rewrite app_nth2 by lia.
      rewrite IH by lia.
      replace i with ((i - List.length p) + 1 * List.length p)%nat at 2
        by lia.
      rewrite Nat.Div0.mod_add. reflexivity.
Qed.

(** A chunk has the length asked for and repeats the pattern from its
    first byte. *)
Lemma chunk_of_spec p remaining :
  p <> [] -> 0 <= remaining ->
  exists chunk,
    chunk_of p remaining = Some chunk
    /\ List.length chunk = Z.to_nat remaining
    /\ forall i d, (i < Z.to_nat remaining)%nat ->
         nth i chunk d = nth (i mod List.length p) p d.
Proof.
  intros Hp Hrem.
  assert (Hlen : (0 < List.length p)%nat)
    by (destruct p; [congruence|simpl; lia]).
  assert (Hcover : (Z.to_nat remaining
                    <= List.length p
                       * Z.to_nat (remaining / Z.of_nat (List.length p) + 1))%nat).
  { set (L := Z.of_nat (List.length p)).
    assert (HL : 0 < L) by (unfold L; lia).
    pose proof (Z.div_mod remaining L ltac:(lia)) as Hdm.
    pose proof (Z.mod_pos_bound remaining L HL) as Hmod.
    pose proof (Z.div_pos remaining L Hrem HL) as Hq.
    apply Nat2Z.inj_le. rewrite Nat2Z.inj_mul.
    rewrite !Z2Nat.id by lia. fold L. nia. }
  unfold chunk_of. destruct p as [|b p']; [congruence|].
  eexists. split; [reflexivity|]. split.
  - rewrite length_firstn, bytes_mul_length. lia.
  - intros i d Hi. rewrite nth_firstn.
    replace (i <? Z.to_nat remaining)%nat with true
      by (symmetry; apply Nat.ltb_lt; exact Hi).
    apply bytes_mul_nth. lia.
Qed.

(** The loop writes what is left of the device, and byte [k] of what it
    writes is byte [k mod 2^20 mod len(pattern)] of the pattern. *)
Lemma written_chunks_spec p size :
  p <> [] ->
  forall fuel written,
    0 <= written ->
    (Z.to_nat ((size - written + chunk_size - 1) / chunk_size) <= fuel)%nat ->
    exists chunks,
      written_chunks fuel p size written = Some chunks
      /\ List.length (List.concat chunks) = Z.to_nat (size - written)
      /\ forall k d, (k < Z.to_nat (size - written))%nat ->
           nth k (List.concat chunks) d
           = nth ((k mod Z.to_nat chunk_size) mod List.length p) p d.
Proof.
  intros Hp fuel.
  induction fuel as [|fuel IH]; intros written Hw Hfuel.
  - cbn [written_chunks]. destruct (written <? size) eqn:E.
    + apply Z.ltb_lt in E.
      rewrite (@writes_left_step size written E Hw) in Hfuel. lia.
    + apply Z.ltb_ge in E. exists []. split; [reflexivity|].
      split; [cbn [List.concat List.length]; lia|]. intros k d Hk. lia.
  - cbn [written_chunks]. destruct (written <? size) eqn:E.
    + apply Z.ltb_lt in E.
      set (remaining := Z.min chunk_size (size - written)).
      assert (Hrem : 0 < remaining <= chunk_size)
        by (unfold remaining, chunk_size; lia).
      destruct (@chunk_of_spec p remaining Hp ltac:(lia))
        as (chunk & Ec & Lc & Nc).
      rewrite Ec.
      rewrite (@writes_left_step size written E Hw) in Hfuel.
      fold remaining in Hfuel.
      destruct (IH (written + remaining) ltac:(lia) ltac:(lia))
        as (rest & Er & Lr & Nr).
      rewrite Er. exists (chunk :: rest). split; [reflexivity|].
      cbn [List.concat]. split.
      * rewrite length_app, Lc, Lr. unfold remaining. lia.
      * intros k d Hk.
        destruct (Nat.lt_ge_cases k (Z.to_nat remaining)) as [Hlt|Hge].
        -- rewrite app_nth1 by lia. rewrite Nc by exact Hlt.
           rewrite (Nat.mod_small k (Z.to_nat chunk_size)) by lia. reflexivity.
        -- assert (Hfull : remaining = chunk_size)
             by (unfold remaining in *; lia).
           rewrite app_nth2 by lia. rewrite Lc, Nr by lia.
           rewrite Hfull.
           replace k with ((k - Z.to_nat chunk_size)
                           + 1 * Z.to_nat chunk_size)%nat at 2 by lia.
           rewrite Nat.Div0.mod_add. reflexivity.
    + apply Z.ltb_ge in E. exists []. split; [reflexivity|].
      split; [cbn [List.concat List.length]; lia|]. intros k d Hk. lia.
Qed.

(** The image of a pass, from the first byte on. *)
Lemma overwrite_image_spec
    (pattern : list byte) (device_size : Z) :
  pattern <> [] ->
  exists image,
    overwrite_image pattern device_size = Some image
    /\ Z.of_nat (List.length image) = Z.max 0 device_size
    /\ forall (k : Z) (d : byte), 0 <= k < device_size ->
         nth (Z.to_nat k) image d
         = nth (Z.to_nat ((k mod (1024 * 1024))
                          mod Z.of_nat (List.length pattern)))
               pattern d.
Proof.
  intro Hp. unfold overwrite_image.
  destruct (@written_chunks_spec pattern device_size Hp
              (chunks_of device_size) 0 ltac:(lia))
    as (chunks & E & L & N).
  { unfold chunks_of. rewrite Z.sub_0_r. lia. }
  rewrite E. exists (List.concat chunks). split; [reflexivity|].
  rewrite Z.sub_0_r in L, N. split; [lia|].
  intros k d Hk. rewrite (N (Z.to_nat k) d) by lia.
  f_equal.
  assert (Hlen : 0 < Z.of_nat (List.length pattern))
    by (destruct pattern; [congruence|simpl List.length; lia]).
  rewrite Z2Nat.inj_mod.
  - rewrite Nat2Z.id. rewrite Z2Nat.inj_mod by (unfold chunk_size; lia).
    reflexivity.
  - apply Z.mod_pos_bound. lia.
  - lia.
Qed.

(** X13: a pass of [_overwrite_device] that meets no I/O error writes
    exactly [device_size] bytes, whatever the (non-empty) pattern and the
    size: the writes of at most 1 MiB each add up to the device, and byte
    [k] of the device is byte [(k mod 2^20) mod len(pattern)] of the
    pattern afterwards, so the pattern starts anew at every MiB. *)
Theorem X13_overwrite_covers_the_device
    (pattern : list byte) (device_size : Z) :
  pattern <> [] ->
  exists image,
    overwrite_image pattern device_size = Some image
    /\ Z.of_nat (List.length image) = Z.max 0 device_size
    /\ forall (k : Z) (d : byte), 0 <= k < device_size ->
         nth (Z.to_nat k) image d
         = nth (Z.to_nat ((k mod (1024 * 1024))
                          mod Z.of_nat (List.length pattern)))
               pattern d.
Proof. exact (@overwrite_image_spec pattern device_size). Qed.

Lemma X13_overwrite_covers_the_device_witness :
  exists image,
    overwrite_image (list_byte_of_string "\x92\x49\x24") 1000 = Some image
    /\ Z.of_nat (List.length image) = 1000.
Proof.
  destruct (@X13_overwrite_covers_the_device
              (list_byte_of_string "\x92\x49\x24") 1000
              ltac:(discriminate)) as (image & E & L & _).
  exists image. split; [exact E|exact L].
Defined.

(** Three different bytes in a sector are one too many for the check. *)
Lemma three_bytes_not_wiped (data : list byte) (a b c : byte) :
  a <> b -> a <> c -> b <> c ->
  In a data -> In b data -> In c data ->
  looks_wiped data = false.
Proof.
  intros Hab Hac Hbc Ha Hb Hc. unfold looks_wiped.
  apply Nat.leb_gt.
  assert (Hnd : NoDup [a; b; c]).
  { repeat constructor; simpl; intuition congruence. }
  assert (Hincl : incl [a; b; c] (nodup byte_eq_dec data)).
  { intros x [<-|[<-|[<-|[]]]]; apply nodup_In; assumption. }
  pose proof (NoDup_incl_length Hnd Hincl) as H. simpl in H. lia.
Qed.

(** The bytes of a full sector are those of the image at its offset. *)
Lemma read_sector_nth image sector i d :
  0 <= sector -> (sector + 1) * 512 <= Z.of_nat (List.length image) ->
  0 <= i < 512 ->
  In (nth (Z.to_nat (sector * 512 + i)) image d) (read_sector image sector).
Proof.
  intros Hs Hfit Hi. unfold read_sector.
  replace (nth (Z.to_nat (sector * 512 + i)) image d)
    with (nth (Z.to_nat i)
              (firstn 512 (skipn (Z.to_nat (sector * 512)) image)) d).
  - apply nth_In. rewrite length_firstn, length_skipn. lia.
  - rewrite nth_firstn.
    replace (Z.to_nat i <? 512)%nat with true
      by (symmetry; apply Nat.ltb_lt; lia).
    rewrite nth_skipn. f_equal. lia.
Qed.

(** In every sector of a pass the pattern starts somewhere within its
    first [len(pattern)] bytes, and the sector does not cross a MiB. *)
Lemma pattern_start_in_sector (sector L : Z) :
  0 <= sector -> 0 < L ->
  exists i, 0 <= i < L
            /\ forall j, 0 <= j -> i + j < 512 ->
                 ((sector * 512 + (i + j)) mod (1024 * 1024)) mod L = j mod L.
Proof.
  intros Hs HL.
  set (M := 1024 * 1024).
  set (c := (sector * 512) mod M).
  assert (Hc : 0 <= c <= M - 512 /\ sector * 512 = M * (sector / 2048) + c).
  { pose proof (Z.div_mod sector 2048 ltac:(lia)) as D.
    pose proof (Z.mod_pos_bound sector 2048 ltac:(lia)) as B.
    assert (E : c = (sector mod 2048) * 512).
    { unfold c. symmetry. apply Z.mod_unique with (q := sector / 2048);
        unfold M; lia. }
    unfold M in *. lia. }
  destruct Hc as (Hc & Ho).
  assert (Hin : forall t, 0 <= t < 512 -> (sector * 512 + t) mod M = c + t).
  { intros t Ht. symmetry.
    apply Z.mod_unique with (q := sector / 2048); unfold M in *; lia. }
  pose proof (Z.div_mod c L ltac:(lia)) as Dc.
  pose proof (Z.mod_pos_bound c L HL) as Bc.
  destruct (Z.eq_dec (c mod L) 0) as [Z0|NZ].
  - exists 0. split; [lia|]. intros j Hj Hfit.
    rewrite Hin by lia.
    replace (c + (0 + j)) with (j + (c / L) * L) by lia.
    apply Z.mod_add. lia.
  - exists (L - c mod L). split; [lia|]. intros j Hj Hfit.
    rewrite Hin by lia.
    replace (c + (L - c mod L + j)) with (j + (c / L + 1) * L) by lia.
    apply Z.mod_add. lia.
Qed.

(** X14: what the multipass overwrite writes, its own verification
    rejects.  Each of its three patterns is a text of at least four
    characters that begins with three different ones (a backslash, an x
    and a digit or letter), so every full 512-byte sector of a device that
    a pass has filled holds more than two distinct byte values: the test
    of [_verify_sector_wiped] is false on it, also when the function is
    called with an integer sector number. *)
Theorem X14_multipass_content_fails_the_sector_check
    (w : World) (pattern image : list byte) (device_size sector : Z) :
  In pattern patterns ->
  overwrite_image pattern device_size = Some image ->
  0 <= sector -> (sector + 1) * 512 <= device_size ->
  read_at w (sector * 512) = Ok (read_sector image sector) ->
  looks_wiped (read_sector image sector) = false
  /\ _verify_sector_wiped w (PInt sector) = false.
Proof.
  intros Hin Himg Hs Hfit Hread.
  assert (Hp : pattern <> []).
  { destruct Hin as [<-|[<-|[<-|[]]]]; discriminate. }
  destruct (@overwrite_image_spec pattern device_size Hp)
    as (image' & E & Hlen & Hnth).
  rewrite Himg in E. injection E as <-.
  assert (HL : 3 < Z.of_nat (List.length pattern)).
  { destruct Hin as [<-|[<-|[<-|[]]]]; simpl; lia. }
  destruct (@pattern_start_in_sector sector (Z.of_nat (List.length pattern))
              Hs ltac:(lia)) as (i & Hi & Hper).
  assert (Hi12 : Z.of_nat (List.length pattern) <= 12).
  { destruct Hin as [<-|[<-|[<-|[]]]]; simpl; lia. }
  assert (Hbyte : forall j, 0 <= j < 3 ->
            In (nth (Z.to_nat j) pattern x00) (read_sector image sector)).
  { intros j Hj.
    pose proof (@read_sector_nth image sector (i + j) x00 Hs
                  ltac:(lia) ltac:(lia)) as Hr.
    rewrite Hnth in Hr by lia.
    rewrite Hper in Hr by lia.
    rewrite Z.mod_small in Hr by lia. exact Hr. }
  assert (Hw : looks_wiped (read_sector image sector) = false).
  { apply (@three_bytes_not_wiped _ (nth 0 pattern x00) (nth 1 pattern x00)
             (nth 2 pattern x00)).
    - destruct Hin as [<-|[<-|[<-|[]]]]; discriminate.
    - destruct Hin as [<-|[<-|[<-|[]]]]; discriminate.
    - destruct Hin as [<-|[<-|[<-|[]]]]; discriminate.
    - exact (Hbyte 0 ltac:(lia)).
    - exact (Hbyte 1 ltac:(lia)).
    - exact (Hbyte 2 ltac:(lia)). }
  split; [exact Hw|].
  unfold _verify_sector_wiped. cbn [pynum_mul].
  replace (sector * 512 <? 0) with false by (symmetry; apply Z.ltb_ge; lia).
  rewrite Hread. exact Hw.
Qed.

Lemma X14_multipass_content_fails_the_sector_check_witness :
  _verify_sector_wiped world_after_third_pass (PInt 0) = false.
Proof.
  refine (proj2 (@X14_multipass_content_fails_the_sector_check
                   world_after_third_pass
                   (list_byte_of_string "\x92\x49\x24") small_image
                   1000 0 _ _ _ _ _)).
  - right. right. left. reflexivity.
  - vm_compute. reflexivity.
  - lia.
  - lia.
  - reflexivity.
Defined.

End OverwriteImage.

(* ================================================================== *)
(** * The stand-alone verifiers *)
(* ================================================================== *)

Lemma dict_get_set_present {V : Type} (k k' : string) (v : V) d :
  dict_get k d <> None -> dict_get k (dict_set k' v d) <> None.
Proof.
  intro H. destruct (String.eqb k k') eqn:E.
  - apply String.eqb_eq in E. subst k'. rewrite dict_get_set_same.
    discriminate.
  - apply String.eqb_neq in E. rewrite dict_get_set_other by exact E.
    exact H.
Qed.

Section CliVerifier.
Context {ISO : IsoFormat}.
Import Verification.

(** The command-line verifier accepts a dictionary exactly when the six
    required keys are there, the timestamp is a string that parses, and
    the signature is a truthy value. *)
Lemma cli_valid_iff (path : string) (d : list (string * json)) :
  cli_valid (verify_certificate_simple path (Loaded (JDict d))) = true
  <-> (forall f, In f required_fields -> dict_get f d <> None)
      /\ (exists t, dict_get "timestamp" d = Some (JStr t)
                    /\ fromisoformat_ok (replace_Z t) = true)
      /\ truthy (get_or d "signature" (JStr "")) = true.
Proof.
  unfold verify_certificate_simple, required_fields, missing_fields,
    py_contains, get_or.
  split.
  - destruct (dict_get "certificate_id" d) eqn:E1;
      destruct (dict_get "timestamp" d) as [ts|] eqn:E2;
      destruct (dict_get "device_info" d) eqn:E3;
      destruct (dict_get "wipe_operation" d) eqn:E4;
      destruct (dict_get "tool_info" d) eqn:E5;
      destruct (dict_get "compliance_info" d) eqn:E6;
      try (simpl; discriminate).
    destruct ts as [| | | |t| |]; try (simpl; discriminate).
    destruct (fromisoformat_ok (replace_Z t)) eqn:Et;
      [|simpl; discriminate].
    cbn [negb].
    destruct (truthy match dict_get "signature" d with
                     | Some v => v
                     | None => JStr ""
                     end) eqn:Es; [|simpl; discriminate].
    intros _. split.
    + intros f [<-|[<-|[<-|[<-|[<-|[<-|[]]]]]]]; congruence.
    + split; [exists t; split; [reflexivity|exact Et]|reflexivity].
  - intros (Hall & (t & Ht & Hiso) & Hsig).
    destruct (dict_get "certificate_id" d) eqn:E1;
      [|exfalso; apply (Hall "certificate_id"); simpl; auto].
    rewrite Ht.
    destruct (dict_get "device_info" d) eqn:E3;
      [|exfalso; apply (Hall "device_info"); simpl; auto].
    destruct (dict_get "wipe_operation" d) eqn:E4;
      [|exfalso; apply (Hall "wipe_operation"); simpl; auto].
    destruct (dict_get "tool_info" d) eqn:E5;
      [|exfalso; apply (Hall "tool_info"); simpl; auto 10].
    destruct (dict_get "compliance_info" d) eqn:E6;
      [|exfalso; apply (Hall "compliance_info"); simpl; auto 10].
    rewrite Hiso. cbn [negb]. rewrite Hsig. reflexivity.
Qed.

(** Its verdict survives every change that keeps the timestamp and leaves
    some signature. *)
Lemma cli_valid_after_change (path : string) (d : list (string * json))
    (key : string) (v' : json) :
  cli_valid (verify_certificate_simple path (Loaded (JDict d))) = true ->
  key <> "timestamp" ->
  (key = "signature" -> truthy v' = true) ->
  cli_valid (verify_certificate_simple path
               (Loaded (JDict (dict_set key v' d)))) = true.
Proof.
  intros Hv Hkey Hsig. apply cli_valid_iff in Hv. apply cli_valid_iff.
  destruct Hv as (Hall & (t & Ht & Hiso) & Hs).
  split; [|split].
  - intros f Hf. apply dict_get_set_present. apply Hall. exact Hf.
  - exists t. split; [|exact Hiso].
    rewrite dict_get_set_other by congruence. exact Ht.
  - unfold get_or in *.
    destruct (String.eqb key "signature") eqn:E.
    + apply String.eqb_eq in E. subst key. rewrite dict_get_set_same.
      apply Hsig. reflexivity.
    + apply String.eqb_neq in E. rewrite dict_get_set_other by congruence.
      exact Hs.
Qed.

Context {HL : Hashlib} {FR : FloatRepr} {B64 : Base64} {EC : Ecdsa}.

(** X15: the command-line verifier detects no tampering.  It accepts
    every generated certificate (its timestamp being one that
    [fromisoformat] reads and its signature text not being empty), and it
    still accepts the certificate after the value of any key other than
    the timestamp has been replaced by any JSON value, the signature
    included as long as something truthy is put in its place. *)
Theorem X15_cli_verifier_detects_no_tampering
    (gen : Cert.CertificateGenerator) (dr : Cert.Draws)
    (operation : WipeOperation) (dir path : string)
    (doc : list (string * json)) :
  fst (Cert.generate_certificate gen dr operation dir) = Ok (JDict doc) ->
  fromisoformat_ok (replace_Z (Cert.cert_now_iso dr)) = true ->
  dict_get "signature" doc <> Some (JStr "") ->
  cli_valid (verify_certificate_simple path (Loaded (JDict doc))) = true
  /\ forall (key : string) (v' : json),
       key <> "timestamp" ->
       (key = "signature" -> truthy v' = true) ->
       cli_valid (verify_certificate_simple path
                    (Loaded (JDict (dict_set key v' doc)))) = true.
Proof.
  intros Hgen Hiso Hsig.
  assert (Hv : cli_valid (verify_certificate_simple path
                            (Loaded (JDict doc))) = true).
  { apply generate_certificate_document in Hgen.
    destruct Hgen as (s & _ & ->).
    apply cli_valid_iff. split; [|split].
    - intros f [<-|[<-|[<-|[<-|[<-|[<-|[]]]]]]]; discriminate.
    - eexists. split; [reflexivity|exact Hiso].
    - change (truthy (JStr s) = true). simpl.
      destruct (String.eqb s "") eqn:E; [|reflexivity].
      apply String.eqb_eq in E. subst s. exfalso. apply Hsig. reflexivity. }
  split; [exact Hv|].
  intros key v' Hkey Hs. apply cli_valid_after_change; assumption.
Qed.

End CliVerifier.

Lemma X15_cli_verifier_detects_no_tampering_witness :
  Verification.cli_valid
    (Verification.verify_certificate_simple (ISO := iso_plain)
       "/tmp/certificate.json"
       (Verification.Loaded
          (JDict (dict_set "device_info" TamperExample.device_info_tampered
                    (CertExample.document CertExample.draws_1))))) = true.
Proof.
  refine (proj2 (@X15_cli_verifier_detects_no_tampering
                   iso_plain StandIn.hashlib_plain StandIn.float_repr_decimal
                   StandIn.base64_plain StandIn.ecdsa_plain
                   CertExample.generator CertExample.draws_1
                   CertExample.operation "/tmp" "/tmp/certificate.json"
                   (CertExample.document CertExample.draws_1) _ _ _)
                "device_info" TamperExample.device_info_tampered _ _).
  - reflexivity.
  - vm_compute. reflexivity.
  - vm_compute. discriminate.
  - discriminate.
  - discriminate.
Defined.

Section WebVerifier.
Context {HL : Hashlib} {FR : FloatRepr} {B64 : Base64} {EC : Ecdsa}
        {ISO : IsoFormat}.
Import Verification.

(** The structure check on a generated certificate: only the status of
    the operation can be at fault. *)
Lemma validate_generated (gen : Cert.CertificateGenerator)
    (uuid now_iso s : string) (operation : WipeOperation) :
  fromisoformat_ok (replace_Z now_iso) = true ->
  _validate_certificate_structure
    (Cert.asdict
       (Cert.with_signature
          (Cert._prepare_certificate_data gen uuid now_iso operation) s))
  = Some (finished (status operation),
          if finished (status operation) then []
          else ["Invalid wipe operation status"]).
Proof.
  intro Hiso.
  unfold _validate_certificate_structure, get_or. simpl.
  rewrite Hiso.
  destruct (status operation);
    destruct (device_type (WipeCore.device_info operation)); reflexivity.
Qed.

(** X16: a certificate of the generator before the web verifier.  With
    the public key of the signer the web verifier finds the signature of
    every generated certificate valid; the certificate as a whole is valid
    exactly when the operation is completed or failed.  A certificate
    issued for an operation in any other state is refused with "Invalid
    wipe operation status", valid signature or not. *)
Theorem X16_web_verifier_round_trip
    (gen : Cert.CertificateGenerator) (verifier : CertificateVerifier)
    (sk : private_key_t) (dr : Cert.Draws) (operation : WipeOperation)
    (dir : string) (doc : list (string * json)) :
  Cert.private_key (Cert.signer gen) = Some sk ->
  public_key verifier = Some (public_key_of sk) ->
  (forall s, b64decode (b64encode s) = Some s) ->
  (forall n data, ec_verify (public_key_of sk) (ec_sign sk n data) data = true) ->
  fromisoformat_ok (replace_Z (Cert.cert_now_iso dr)) = true ->
  dict_get "signature" doc <> Some (JStr "") ->
  fst (Cert.generate_certificate gen dr operation dir) = Ok (JDict doc) ->
  verify_certificate verifier (JDict doc)
  = WebReport (finished (status operation)) true
              (finished (status operation))
              (dict_get "certificate_id" doc)
              (dict_get "timestamp" doc)
              (get_or doc "device_info" (JDict []))
              (get_or doc "wipe_operation" (JDict []))
              (get_or doc "tool_info" (JDict []))
              (get_or doc "compliance_info" (JDict []))
              (if finished (status operation) then []
               else ["Invalid wipe operation status"]).
Proof.
  intros Hsk Hpk Hb64 Hec Hiso Hne Hgen.
  apply generate_certificate_document in Hgen.
  destruct Hgen as (s & Hsign & ->).
  unfold Cert.sign_data in Hsign. rewrite Hsk in Hsign.
  injection Hsign as Hsign.
  unfold verify_certificate.
  rewrite validate_generated by exact Hiso.
  change (get_or (Cert.asdict (Cert.with_signature ?c s)) "signature"
                 (JStr "")) with (JStr s).
  assert (Hs : truthy (JStr s) = true).
  { simpl. destruct (String.eqb s "") eqn:E; [|reflexivity].
    apply String.eqb_eq in E. subst s. exfalso. apply Hne.
    rewrite E. reflexivity. }
  rewrite Hs. cbn [negb]. rewrite Hpk.
  fold (Cert.canonical_json
          (Cert.asdict
             (Cert.with_signature
                (Cert._prepare_certificate_data
                   {| Cert.logger :=
                        snd (Logger.add_entry (Cert.logger gen)
                               (Cert.log_time_1 dr) (Cert.log_uuid_1 dr)
                               ("Starting certificate generation for "
                                ++ device_path
                                     (WipeCore.device_info operation))
                               "INFO");
                      Cert.signer := Cert.signer gen |}
                   (Cert.cert_uuid dr) (Cert.cert_now_iso dr) operation)
                s))).
  rewrite canonical_json_with_signature.
  rewrite <- Hsign at 1. rewrite Hb64, Hec. reflexivity.
Qed.

(** X17: the web verifier detects tampering.  A generated certificate
    in which the value of one signed key (any key but the signature and
    the anchor) has been replaced by a different value is not valid
    before a verifier that holds the signer's public key, the signature
    not being a valid signature of any other text. *)
Theorem X17_web_verifier_detects_tampering
    (gen : Cert.CertificateGenerator) (verifier : CertificateVerifier)
    (sk : private_key_t) (dr : Cert.Draws) (operation : WipeOperation)
    (dir : string) (doc : list (string * json))
    (key : string) (v v' : json) :
  Cert.private_key (Cert.signer gen) = Some sk ->
  public_key verifier = Some (public_key_of sk) ->
  (forall s, b64decode (b64encode s) = Some s) ->
  fst (Cert.generate_certificate gen dr operation dir) = Ok (JDict doc) ->
  signed_key key ->
  dict_get key doc = Some v ->
  wf_json (JDict doc) = true -> wf_json v' = true ->
  ~ py_eq v v' ->
  (forall data',
     data' <> Cert.canonical_json doc ->
     ec_verify (public_key_of sk)
       (ec_sign sk (Cert.sign_nonce dr) (Cert.canonical_json doc)) data'
     = false) ->
  web_valid (verify_certificate verifier (JDict (dict_set key v' doc)))
  = false.
Proof.
  intros Hsk Hpk Hb64 Hgen Hkey Hget W W' Hne Hforge.
  pose proof (canonical_json_tampered W W' Hkey Hget Hne) as T.
  apply generate_certificate_document in Hgen.
  destruct Hgen as (s & Hsign & ->).
  unfold Cert.sign_data in Hsign. rewrite Hsk in Hsign.
  injection Hsign as Hsign.
  rewrite canonical_json_with_signature in *.
  unfold verify_certificate, get_or.
  rewrite dict_get_set_other by (destruct Hkey; congruence).
  match goal with
  | |- context [dict_get "signature" (Cert.asdict (Cert.with_signature ?c s))] =>
      change (dict_get "signature" (Cert.asdict (Cert.with_signature c s)))
        with (Some (JStr s))
  end.
  destruct (negb (truthy (JStr s))); [reflexivity|].
  rewrite Hpk. subst s. rewrite Hb64.
  match goal with
  | |- context [ec_verify ?pk ?sig ?data] =>
      replace (ec_verify pk sig data) with false
  end.
  - destruct (_validate_certificate_structure _) as [[sv errs]|];
      reflexivity.
  - symmetry. apply Hforge. exact T.
Qed.

End WebVerifier.

Lemma X16_web_verifier_round_trip_witness :
  Verification.web_valid
    (Verification.verify_certificate (B64 := StandIn.base64_plain)
       (ISO := iso_plain) web_verifier_example
       (JDict (CertExample.document CertExample.draws_1))) = true.
Proof.
  rewrite (@X16_web_verifier_round_trip
             StandIn.hashlib_plain StandIn.float_repr_decimal
             StandIn.base64_plain StandIn.ecdsa_plain iso_plain
             CertExample.generator web_verifier_example "key-1"
             CertExample.draws_1 CertExample.operation "/tmp"
             (CertExample.document CertExample.draws_1)).
  - reflexivity.
  - reflexivity.
  - reflexivity.
  - reflexivity.
  - intros n data. simpl. apply String.eqb_refl.
  - vm_compute. reflexivity.
  - vm_compute. discriminate.
  - reflexivity.
Defined.

Lemma X17_web_verifier_detects_tampering_witness :
  Verification.web_valid
    (Verification.verify_certificate (B64 := StandIn.base64_plain)
       (ISO := iso_plain) web_verifier_example
       (JDict (dict_set "device_info" TamperExample.device_info_tampered
                 (CertExample.document CertExample.draws_1)))) = false.
Proof.
  apply (@X17_web_verifier_detects_tampering
           StandIn.hashlib_plain StandIn.float_repr_decimal
           StandIn.base64_plain StandIn.ecdsa_plain iso_plain
           CertExample.generator web_verifier_example "key-1"
           CertExample.draws_1 CertExample.operation "/tmp"
           (CertExample.document CertExample.draws_1)
           "device_info" TamperExample.device_info
           TamperExample.device_info_tampered).
  - reflexivity.
  - reflexivity.
  - reflexivity.
  - reflexivity.
  - split; discriminate.
  - reflexivity.
  - vm_compute. reflexivity.
  - vm_compute. reflexivity.
  - unfold py_eq. vm_compute. discriminate.
  - intros data' Hd. apply plain_signature_binds. exact Hd.
Defined.

(* ================================================================== *)
(** * Device detection *)
(* ================================================================== *)

(** ** Substrings *)

Lemma str_in_cons (sub : string) (c : ascii) (s : string) :
  str_in sub (String c s) = (prefix sub (String c s) || str_in sub s)%bool.
Proof. reflexivity. Qed.

Lemma prefix_app_l (sub a b : string) :
  prefix sub a = true -> prefix sub (a ++ b) = true.
Proof.
  revert a. induction sub as [|x sub IH]; intros a H.
  - destruct (a ++ b)%string; reflexivity.
  - destruct a as [|y a]; simpl in H; [discriminate|].
    simpl. destruct (ascii_dec x y); [|discriminate].
    apply IH. exact H.
Qed.

Lemma str_in_app_l (sub a b : string) :
  str_in sub a = true -> str_in sub (a ++ b) = true.
Proof.
  induction a as [|c a IH]; intro H.
  - simpl in H. rewrite orb_false_r in H.
    destruct sub; [|simpl in H; discriminate].
    destruct b; reflexivity.
  - rewrite str_in_cons in H. simpl append. rewrite str_in_cons.
    apply orb_true_iff in H. apply orb_true_iff.
    destruct H as [H|H].
    + left. exact (@prefix_app_l sub (String c a) b H).
    + right. exact (IH H).
Qed.

Lemma str_in_app_r (sub a b : string) :
  str_in sub b = true -> str_in sub (a ++ b) = true.
Proof.
  intro H. induction a as [|c a IH]; [exact H|].
  simpl append. rewrite str_in_cons, IH. apply orb_true_r.
Qed.

Lemma lower_app (a b : string) : lower (a ++ b) = (lower a ++ lower b)%string.
Proof.
  induction a as [|c a IH]; [reflexivity|]. simpl. now rewrite IH.
Qed.

Lemma prefix_split (sub s : string) :
  prefix sub s = true -> exists rest, s = (sub ++ rest)%string.
Proof.
  revert s. induction sub as [|x sub IH]; intros s H.
  - exists s. reflexivity.
  - destruct s as [|y s]; simpl in H; [discriminate|].
    destruct (ascii_dec x y) as [->|]; [|discriminate].
    destruct (IH _ H) as [rest ->]. exists rest. reflexivity.
Qed.

Lemma str_in_split (sub s : string) :
  str_in sub s = true -> exists a b, s = (a ++ sub ++ b)%string.
Proof.
  induction s as [|c s IH]; intro H.
  - simpl in H. rewrite orb_false_r in H.
    destruct sub; [|discriminate].
    exists ""%string, ""%string. reflexivity.
  - rewrite str_in_cons in H. apply orb_true_iff in H. destruct H as [H|H].
    + destruct (prefix_split _ _ H) as [rest E].
      exists ""%string, rest. exact E.
    + destruct (IH H) as (a & b & ->).
      exists (String c a), b. reflexivity.
Qed.

Lemma prefix_self_app (sub b : string) : prefix sub (sub ++ b) = true.
Proof.
  induction sub as [|x sub IH].
  - destruct b; reflexivity.
  - simpl. destruct (ascii_dec x x); [exact IH|congruence].
Qed.

Lemma str_in_self_app (sub b : string) : str_in sub (sub ++ b) = true.
Proof.
  destruct sub as [|x sub].
  - destruct b; reflexivity.
  - change (String x sub ++ b)%string with (String x (sub ++ b)).
    rewrite str_in_cons.
    change (String x (sub ++ b)) with (String x sub ++ b)%string.
    rewrite prefix_self_app. reflexivity.
Qed.

(** A part of a part is a part. *)
Lemma str_in_trans (x y s : string) :
  str_in x y = true -> str_in y s = true -> str_in x s = true.
Proof.
  intros Hxy Hys.
  destruct (str_in_split _ _ Hys) as (a & b & ->).
  apply str_in_app_r. apply str_in_app_l. exact Hxy.
Qed.

(** ** The size parser *)

Section SizeParser.
Import Detection.
Context {B : Binary64}.
Hypothesis fl_nonneg : forall q : Q, (0 <= q)%Q -> (0 <= fl q)%Q.

Lemma digits_value_nonneg (s : string) (acc : Z) :
  0 <= acc -> 0 <= digits_value acc s.
Proof.
  revert acc. induction s as [|c s IH]; intros acc H; cbn [digits_value];
    [exact H|].
  apply IH. pose proof (Nat2Z.is_nonneg (nat_of_ascii c - 48)). lia.
Qed.

Lemma decimal_value_nonneg (t : string) (x : Q) :
  decimal_value t = Some x -> (0 <= x)%Q.
Proof.
  unfold decimal_value.
  destruct (_ && _)%bool; [|discriminate].
  intro H. injection H as <-.
  apply Qle_shift_div_l.
  - unfold Qlt. simpl. pose proof (Z.pow_pos_nonneg 10 (Z.of_nat
      (String.length (after_point t)))). lia.
  - rewrite Qmult_0_l. unfold Qle. simpl.
    pose proof (@digits_value_nonneg (without_points t) 0). lia.
Qed.

Lemma scaled_nonneg (unit : ascii) (x : Q) :
  (0 <= x)%Q -> (0 <= scaled unit x)%Q.
Proof.
  intro H. unfold scaled.
  destruct (Ascii.eqb unit "K");
    [apply fl_nonneg, Qmult_le_0_compat; [exact H|apply fl_nonneg; discriminate]|].
  destruct (Ascii.eqb unit "M");
    [apply fl_nonneg, Qmult_le_0_compat; [exact H|apply fl_nonneg; discriminate]|].
  destruct (Ascii.eqb unit "G"); [exact H|].
  apply fl_nonneg, Qmult_le_0_compat; [exact H|discriminate].
Qed.

(** The three ways the loop over the units ends. *)
Lemma parse_with_cases (units : list ascii) (text : string) :
  (parse_with units text = Ok 0%Q
   /\ (first_number text = None
       \/ forallb (fun u => negb (str_in (String u "") text)) units = true))
  \/ (exists number x,
        first_number text = Some number /\ decimal_value number = Some x
        /\ existsb (fun u => str_in (String u "") text) units = true
        /\ exists unit, In unit units
             /\ parse_with units text = Ok (scaled unit (fl x)))
  \/ (exists number,
        first_number text = Some number /\ decimal_value number = None
        /\ existsb (fun u => str_in (String u "") text) units = true
        /\ exists e, parse_with units text = Exc e).
Proof.
  induction units as [|u units IH].
  - left. split; [reflexivity|]. right. reflexivity.
  - cbn [parse_with forallb existsb].
    destruct (str_in (String u "") text) eqn:Eu.
    + destruct (first_number text) as [number|] eqn:En.
      * destruct (decimal_value number) as [x|] eqn:Ex.
        -- right. left. exists number, x.
           split; [reflexivity|]. split; [exact Ex|]. split; [reflexivity|].
           exists u. split; [left; reflexivity|reflexivity].
        -- right. right. exists number.
           split; [reflexivity|]. split; [exact Ex|]. split; [reflexivity|].
           eexists. reflexivity.
      * left. destruct IH as [[H _]|[(n & x & H & _)|(n & H & _)]];
          try discriminate.
        split; [exact H|]. left. reflexivity.
    + simpl negb. simpl andb. simpl orb.
      destruct IH as [[H1 H2]|[(n & x & H1 & H2 & H3 & unit & H4 & H5)
                              |(n & H1 & H2 & H3 & H4)]].
      * left. split; assumption.
      * right. left. exists n, x.
        split; [exact H1|]. split; [exact H2|]. split; [exact H3|].
        exists unit. split; [right; exact H4|exact H5].
      * right. right. exists n.
        split; [exact H1|]. split; [exact H2|]. split; [exact H3|exact H4].
Qed.

(** X18: the size parser returns 0.0 for a text without K, M, G or T
    (a byte count, or the default for a missing size), never returns a
    negative size, reads a size in G at the value of its first number, and
    raises exactly when the text has a unit letter and its first run of
    digits and points is not a number: no digit, or more than one
    point. *)
Theorem X18_size_parser_outcomes (size_str : string) :
  let text := upper size_str in
  let has_unit :=
    (str_in "K" text || str_in "M" text || str_in "G" text
     || str_in "T" text)%bool in
  (has_unit = false -> _parse_size_to_gb size_str = Ok 0%Q)
  /\ (forall size_gb,
        _parse_size_to_gb size_str = Ok size_gb -> (0 <= size_gb)%Q)
  /\ (forall number x,
        str_in "K" text = false -> str_in "M" text = false ->
        str_in "G" text = true ->
        first_number text = Some number -> decimal_value number = Some x ->
        _parse_size_to_gb size_str = Ok (fl x))
  /\ ((exists e, _parse_size_to_gb size_str = Exc e)
      <-> has_unit = true
          /\ exists number,
               first_number text = Some number
               /\ decimal_value number = None).
Proof.
  intros text has_unit.
  assert (Hex : existsb (fun u => str_in (String u "") text)
                  ["K"; "M"; "G"; "T"]%char = has_unit).
  { unfold has_unit. cbn [existsb]. rewrite orb_false_r, !orb_assoc.
    reflexivity. }
  assert (Hall : forallb (fun u => negb (str_in (String u "") text))
                   ["K"; "M"; "G"; "T"]%char = negb has_unit).
  { unfold has_unit. cbn [forallb]. rewrite andb_true_r, !negb_orb, !andb_assoc.
    reflexivity. }
  unfold _parse_size_to_gb. fold text.
  split; [|split; [|split; [|split]]].
  - intro Hu. unfold has_unit in Hu.
    apply orb_false_iff in Hu. destruct Hu as [Hu HT].
    apply orb_false_iff in Hu. destruct Hu as [Hu HG].
    apply orb_false_iff in Hu. destruct Hu as [HK HM].
    cbn [parse_with]. rewrite HK, HM, HG, HT. reflexivity.
  - intros size_gb H.
    destruct (parse_with_cases ["K"; "M"; "G"; "T"]%char text)
      as [[H1 _]|[(n & x & _ & Hx & _ & unit & _ & H1)|(n & _ & _ & _ & e & H1)]];
      rewrite H1 in H; try discriminate; injection H as <-.
    + discriminate.
    + apply scaled_nonneg, fl_nonneg. exact (decimal_value_nonneg _ Hx).
  - intros number x HK HM HG Hn Hx.
    cbn [parse_with]. rewrite HK, HM, HG, Hn, Hx. reflexivity.
  - intros [e He].
    destruct (parse_with_cases ["K"; "M"; "G"; "T"]%char text)
      as [[H1 _]|[(n & x & _ & _ & _ & unit & _ & H1)|(n & Hn & Hx & H1 & _)]];
      rewrite ?H1 in He; try discriminate.
    split; [rewrite <- Hex; exact H1|].
    exists n. split; assumption.
  - intros [Hu (number & Hn & Hx)].
    destruct (parse_with_cases ["K"; "M"; "G"; "T"]%char text)
      as [[_ [H1|H1]]|[(n & x & Hn' & Hx' & _)|(n & _ & _ & _ & e & H1)]].
    + rewrite H1 in Hn. discriminate.
    + rewrite Hall, Hu in H1. discriminate.
    + rewrite Hn' in Hn. injection Hn as ->. rewrite Hx' in Hx. discriminate.
    + exists e. exact H1.
Qed.

End SizeParser.

Lemma X18_size_parser_outcomes_witness :
  (forall q : Q, (0 <= q)%Q -> (0 <= @fl Detection.exact q)%Q)
  /\ @Detection._parse_size_to_gb Detection.exact "238.5g" = Ok (2385 # 10)%Q.
Proof.
  assert (H : forall q : Q, (0 <= q)%Q -> (0 <= @fl Detection.exact q)%Q)
    by (intros q Hq; exact Hq).
  split; [exact H|].
  apply (proj1 (proj2 (proj2
           (@X18_size_parser_outcomes Detection.exact H "238.5g")))
           "238.5"%string (2385 # 10)%Q); reflexivity.
Defined.

(** ** The probes *)

Section Probing.
Import Detection.
Context {B : Binary64}.

Lemma analyze_device_some (self : DetectionEngine) (pr : Probes)
    (row : lsblk_row) (name : string) (d : DetectedDevice) :
  r_name row = Text name ->
  _analyze_device self pr row = Some d ->
  exists size_str size_gb,
    column_or (r_size row) "0B" = Some size_str
    /\ _parse_size_to_gb size_str = Ok size_gb
    /\ d = {| dd_device_path := "/dev/" ++ name;
              dd_device_type :=
                _classify_device_type self
                  (_get_device_features pr ("/dev/" ++ name));
              dd_model := column_or (r_model row) "Unknown";
              dd_serial := column_or (r_serial row) "Unknown";
              dd_size_gb := size_gb;
              dd_interface := column_or (r_tran row) "unknown";
              dd_encryption_status := _check_encryption pr ("/dev/" ++ name);
              dd_hpa_dco_present := _check_hpa_dco pr ("/dev/" ++ name);
              dd_secure_erase_supported :=
                _check_secure_erase_support pr ("/dev/" ++ name)
                  (_classify_device_type self
                     (_get_device_features pr ("/dev/" ++ name)));
              dd_features := _get_device_features pr ("/dev/" ++ name) |}.
Proof.
  intros Hn H. unfold _analyze_device in H. rewrite Hn in H.
  destruct (column_or (r_size row) "0B") as [size_str|]; [|discriminate].
  destruct (_parse_size_to_gb size_str) as [size_gb|e] eqn:Ep; [|discriminate].
  injection H as <-. exists size_str, size_gb.
  split; [reflexivity|]. split; [exact Ep|reflexivity].
Qed.

(** X19: the check for a hidden area does not read the state that
    [hdparm -N] reports: for every output that says the HPA is disabled
    the check answers that an HPA or DCO is present, and the disk is
    detected with [hpa_dco_present] set. *)
Theorem X19_disabled_hpa_counts_as_present (self : DetectionEngine)
    (pr : Probes) (row : lsblk_row) (name stdout : string)
    (d : DetectedDevice) :
  r_name row = Text name ->
  hdparm_N pr ("/dev/" ++ name) = Ok stdout ->
  str_in "hpa is disabled" (lower stdout) = true ->
  _analyze_device self pr row = Some d ->
  _check_hpa_dco pr ("/dev/" ++ name) = true
  /\ dd_hpa_dco_present d = true.
Proof.
  intros Hn Hh Hs Hd.
  assert (Hc : _check_hpa_dco pr ("/dev/" ++ name) = true).
  { unfold _check_hpa_dco. rewrite Hh.
    assert (Hhpa : str_in "hpa" (lower stdout) = true).
    { apply str_in_trans with (y := "hpa is disabled"%string);
        [reflexivity|exact Hs]. }
    rewrite Hhpa. reflexivity. }
  split; [exact Hc|].
  destruct (@analyze_device_some self pr row name d Hn Hd) as (s & q & _ & _ & ->).
  exact Hc.
Qed.

(** X20: the BitLocker test is not tied to the mount line of the device:
    a device that is not a LUKS volume counts as BitLocker as soon as the
    output of [mount] names its path in one place and has the word
    bitlocker in another, before or after, and the rules then give it the
    crypto erase. *)
Theorem X20_bitlocker_of_another_volume (pr : Probes)
    (device_path one other : string) (returncode : Z)
    (device_info : DeviceInfo) :
  cryptsetup_isLuks pr device_path = Ok returncode ->
  returncode <> 0 ->
  mount pr = Ok (one ++ other) \/ mount pr = Ok (other ++ one) ->
  str_in device_path one = true ->
  str_in "bitlocker" (lower other) = true ->
  encryption_status device_info = _check_encryption pr device_path ->
  _check_encryption pr device_path = "BitLocker"%string
  /\ _rule_based_method_selection device_info = CRYPTO_ERASE.
Proof.
  intros Hl Hrc Hm Hp Hb He.
  assert (Hc : _check_encryption pr device_path = "BitLocker"%string).
  { unfold _check_encryption. rewrite Hl.
    destruct (returncode =? 0) eqn:E; [apply Z.eqb_eq in E; contradiction|].
    destruct Hm as [-> | ->]; rewrite lower_app.
    - rewrite (@str_in_app_l device_path one other Hp),
        (@str_in_app_r "bitlocker" (lower one) (lower other) Hb).
      reflexivity.
    - rewrite (@str_in_app_r device_path other one Hp),
        (@str_in_app_l "bitlocker" (lower other) (lower one) Hb).
      reflexivity. }
  split; [exact Hc|].
  unfold _rule_based_method_selection. rewrite He, Hc. reflexivity.
Qed.

(** X21: without [smartctl] no probe text is kept for a disk ([hdparm]
    and [nvme] are then not asked), the classifier sees the same vector
    for every disk, and the rules type the disk UNKNOWN: the rule-based
    selection then never chooses a secure erase or the multipass
    overwrite, whatever the disk is. *)
Theorem X21_no_smartctl_no_device_type (self : DetectionEngine)
    (pr : Probes) (row : lsblk_row) (name e : string) (d : DetectedDevice) :
  r_name row = Text name ->
  smartctl_a pr ("/dev/" ++ name) = Exc e ->
  _analyze_device self pr row = Some d ->
  dd_features d = []
  /\ _extract_feature_vector (dd_features d) = [0; 0; 0; 0; 25]%Q
  /\ dd_device_type d = _classify_device_type self []
  /\ (device_classifier self = None ->
      dd_device_type d = UNKNOWN
      /\ forall device_info,
           as_DeviceInfo d = Some device_info ->
           _rule_based_method_selection device_info = CRYPTO_ERASE
           \/ _rule_based_method_selection device_info = SINGLE_PASS_RANDOM).
Proof.
  intros Hn Hs Hd.
  destruct (@analyze_device_some self pr row name d Hn Hd) as (s & q & _ & _ & ->).
  assert (Hf : _get_device_features pr ("/dev/" ++ name) = []).
  { unfold _get_device_features. rewrite Hs. reflexivity. }
  cbn [dd_features dd_device_type]. rewrite Hf.
  split; [reflexivity|]. split; [reflexivity|]. split; [reflexivity|].
  intro Hc.
  assert (Ht : _classify_device_type self [] = UNKNOWN).
  { unfold _classify_device_type. rewrite Hc. reflexivity. }
  split; [exact Ht|].
  intros device_info Hi. unfold as_DeviceInfo in Hi.
  cbn [dd_model dd_serial dd_interface dd_device_path dd_device_type
       dd_size_gb dd_encryption_status dd_hpa_dco_present
       dd_secure_erase_supported dd_features] in Hi.
  destruct (column_or (r_model row) "Unknown"); [|discriminate].
  destruct (column_or (r_serial row) "Unknown"); [|discriminate].
  destruct (column_or (r_tran row) "unknown"); [|discriminate].
  injection Hi as <-.
  unfold _rule_based_method_selection.
  cbn [encryption_status device_type secure_erase_supported].
  rewrite Ht.
  destruct (in_list _ _); [left|right]; reflexivity.
Qed.

End Probing.

Lemma X19_disabled_hpa_counts_as_present_witness :
  Detection._check_hpa_dco Detection.probes_example "/dev/sdb" = true.
Proof.
  exact (proj1 (@X19_disabled_hpa_counts_as_present Detection.exact
                  Detection.rules_only Detection.probes_example
                  Detection.row_sdb "sdb" Detection.hdparm_N_disabled _
                  eq_refl eq_refl eq_refl eq_refl)).
Defined.

Lemma X20_bitlocker_of_another_volume_witness :
  Detection._check_encryption Detection.probes_example "/dev/sdb"
  = "BitLocker"%string
  /\ _rule_based_method_selection
       {| device_path := "/dev/sdb"; device_type := HDD;
          model := "Samsung SSD 850"; serial := "S21N-0001";
          size_gb := (2385 # 10)%Q; interface := "sata";
          encryption_status := "BitLocker"; hpa_dco_present := true;
          secure_erase_supported := false; features := [] |}
     = CRYPTO_ERASE.
Proof.
  apply (@X20_bitlocker_of_another_volume Detection.probes_example
           "/dev/sdb" "/dev/sdb1 on /mnt/data type ext4 (rw,relatime)"
           " /dev/sdc2 on /mnt/win type fuse.dislocker (bitlocker)" 1);
    [reflexivity|discriminate|left; reflexivity|reflexivity|reflexivity
    |reflexivity].
Defined.

Lemma X21_no_smartctl_no_device_type_witness :
  exists d,
    @Detection._analyze_device Detection.exact Detection.rules_only
      Detection.no_tools Detection.row_sdb = Some d
    /\ Detection.dd_device_type d = UNKNOWN.
Proof.
  eexists. split; [reflexivity|].
  apply (proj2 (proj2 (proj2
           (@X21_no_smartctl_no_device_type Detection.exact
              Detection.rules_only Detection.no_tools Detection.row_sdb
              "sdb" _ _ eq_refl eq_refl eq_refl)))).
  reflexivity.
Defined.

(* ================================================================== *)
(** * Unmounting *)
(* ================================================================== *)

Section Unmounting.
Import Detection Unmount.

Lemma append_assoc (a b c : string) :
  ((a ++ b) ++ c)%string = (a ++ b ++ c)%string.
Proof. induction a as [|x a IH]; [reflexivity|]. simpl. now rewrite IH. Qed.

Lemma append_empty_r (a : string) : (a ++ "")%string = a.
Proof. induction a as [|x a IH]; [reflexivity|]. simpl. now rewrite IH. Qed.

Lemma split_from_no_backslash (s cur : string) :
  no_backslash s = true ->
  split_from separator O cur s = [(cur ++ s)%string].
Proof.
  revert cur. induction s as [|c s IH]; intros cur H.
  - simpl. now rewrite append_empty_r.
  - unfold no_backslash in H. cbn [string_forallb] in H.
    apply andb_true_iff in H. destruct H as [Hc Hs].
    cbn [split_from].
    assert (Hp : prefix separator (String c s) = false).
    { unfold separator. cbn [prefix].
      destruct (ascii_dec "\" c) as [<-|]; [discriminate Hc|reflexivity]. }
    rewrite Hp, (IH _ Hs), append_assoc. reflexivity.
Qed.

Lemma lstrip_no_backslash (s : string) :
  no_backslash s = true -> no_backslash (lstrip s) = true.
Proof.
  induction s as [|c s IH]; intro H; [exact H|].
  cbn [lstrip]. destruct (is_space c); [|exact H].
  apply IH. unfold no_backslash in H. cbn [string_forallb] in H.
  apply andb_true_iff in H. exact (proj2 H).
Qed.

Lemma rstrip_no_backslash (s : string) :
  no_backslash s = true -> no_backslash (rstrip s) = true.
Proof.
  induction s as [|c s IH]; intro H; [exact H|].
  unfold no_backslash in H. cbn [string_forallb] in H.
  apply andb_true_iff in H. destruct H as [Hc Hs].
  specialize (IH Hs). cbn [rstrip].
  destruct (rstrip s) as [|x t].
  - destruct (is_space c); [reflexivity|].
    unfold no_backslash. cbn [string_forallb]. now rewrite Hc.
  - unfold no_backslash. cbn [string_forallb]. rewrite Hc. exact IH.
Qed.

Lemma rstrip_idempotent (s : string) : rstrip (rstrip s) = rstrip s.
Proof.
  induction s as [|c s IH]; [reflexivity|].
  cbn [rstrip]. destruct (rstrip s) as [|x t] eqn:E.
  - destruct (is_space c) eqn:Ec; [reflexivity|].
    cbn [rstrip]. now rewrite Ec.
  - cbn [rstrip]. cbn [rstrip] in IH.
    destruct (match rstrip t with
              | EmptyString =>
                  if is_space x then EmptyString else String x EmptyString
              | String a s0 => String x (String a s0)
              end) as [|y u] eqn:E2; [discriminate IH|].
    now rewrite IH.
Qed.

Lemma lstrip_fixed (c : ascii) (s : string) :
  is_space c = false -> lstrip (String c s) = String c s.
Proof. intro H. cbn [lstrip]. now rewrite H. Qed.

(** Stripping a stripped text changes nothing. *)
Lemma strip_idempotent (s : string) : strip (strip s) = strip s.
Proof.
  unfold strip.
  assert (H : lstrip (rstrip (lstrip s)) = rstrip (lstrip s)).
  { assert (Hl : lstrip s = EmptyString
                 \/ exists c t, lstrip s = String c t /\ is_space c = false).
    { induction s as [|c s IH]; [left; reflexivity|].
      cbn [lstrip]. destruct (is_space c) eqn:Ec; [exact IH|].
      right. exists c, s. split; [reflexivity|exact Ec]. }
    destruct Hl as [->|(c & t & -> & Hc)]; [reflexivity|].
    cbn [rstrip]. destruct (rstrip t); [rewrite Hc|];
      apply lstrip_fixed; exact Hc. }
  rewrite H. apply rstrip_idempotent.
Qed.

Lemma strip_no_backslash (s : string) :
  no_backslash s = true -> no_backslash (strip s) = true.
Proof.
  intro H. unfold strip. apply rstrip_no_backslash, lstrip_no_backslash, H.
Qed.

(** X22: the listing of the partitions is split at a backslash followed
    by the letter n, not at the line ends.  For every listing without a
    backslash at most one [umount] is run, and its argument is the whole
    stripped listing behind [/dev/], line ends included; the function
    returns True unless that call raises. *)
Theorem X22_listing_is_not_split_at_line_ends (stdout : string)
    (umount : string -> result Z) :
  no_backslash stdout = true ->
  _unmount_device (Ok stdout) umount
  = match strip stdout with
    | EmptyString => (true, [])
    | listing =>
        (match umount ("/dev/" ++ listing) with
         | Ok _ => true
         | Exc _ => false
         end, [("/dev/" ++ listing)%string])
    end.
Proof.
  intro H. unfold _unmount_device, split.
  rewrite (@split_from_no_backslash (strip stdout) EmptyString
             (@strip_no_backslash stdout H)).
  cbn [append umount_all]. rewrite strip_idempotent.
  destruct (strip stdout) as [|c t]; [reflexivity|].
  destruct (umount _); reflexivity.
Qed.

End Unmounting.

Lemma X22_listing_is_not_split_at_line_ends_witness :
  Unmount.no_backslash Unmount.lsblk_sdb = true
  /\ snd (Unmount._unmount_device (Ok Unmount.lsblk_sdb) (fun _ => Ok 32))
     = [String "/" (String "d" (String "e" (String "v" (String "/"
        (String "s" (String "d" (String "b" (String "010"
        (String "s" (String "d" (String "b" (String "1" (String "010"
        (String "s" (String "d" (String "b" (String "2"
         EmptyString)))))))))))))))))].
Proof.
  split; [reflexivity|].
  rewrite (@X22_listing_is_not_split_at_line_ends Unmount.lsblk_sdb
             (fun _ => Ok 32) eq_refl).
  reflexivity.
Defined.

(* ================================================================== *)
(** * The list of detected devices *)
(* ================================================================== *)

Section Listing.
Import Detection.
Context {B : Binary64}.

Lemma analyze_device_none (self : DetectionEngine) (pr : Probes)
    (row : lsblk_row) :
  _analyze_device self pr row = None
  <-> r_name row = Absent \/ r_size row = Null
      \/ exists s e, r_size row = Text s /\ _parse_size_to_gb s = Exc e.
Proof.
  unfold _analyze_device. split.
  - intro H. destruct (r_name row) as [| |name]; [left; reflexivity| |].
    + destruct (r_size row) as [| |s]; cbn [column_or] in H.
      * destruct (_parse_size_to_gb "0B") eqn:E; [discriminate H|].
        vm_compute in E. discriminate E.
      * right. left. reflexivity.
      * destruct (_parse_size_to_gb s) as [q|e] eqn:E; [discriminate H|].
        right. right. exists s, e. split; [reflexivity|exact E].
    + destruct (r_size row) as [| |s]; cbn [column_or] in H.
      * destruct (_parse_size_to_gb "0B") eqn:E; [discriminate H|].
        vm_compute in E. discriminate E.
      * right. left. reflexivity.
      * destruct (_parse_size_to_gb s) as [q|e] eqn:E; [discriminate H|].
        right. right. exists s, e. split; [reflexivity|exact E].
  - intros [H|[H|(s & e & H & E)]].
    + rewrite H. reflexivity.
    + rewrite H. destruct (r_name row); reflexivity.
    + rewrite H. cbn [column_or]. rewrite E.
      destruct (r_name row); reflexivity.
Qed.

(** X24: which rows of [lsblk] become devices.  The list is empty when
    [lsblk] fails; otherwise it holds exactly the analysed rows of type
    disk.  A disk row is left out, without any error for the caller, in
    three cases only: it has no name, its size is null, or its size has a
    unit letter and a malformed number.  A row whose name is null is
    kept, under the path /dev/None. *)
Theorem X24_rows_that_become_devices (self : DetectionEngine)
    (pr : Probes) (rows : list lsblk_row) :
  (forall e, detect_devices self pr (Exc e) = [])
  /\ (forall d,
        In d (detect_devices self pr (Ok rows))
        <-> exists row,
              In row rows /\ r_type row = Text "disk"
              /\ _analyze_device self pr row = Some d)
  /\ (forall row,
        _analyze_device self pr row = None
        <-> r_name row = Absent \/ r_size row = Null
            \/ exists s e,
                 r_size row = Text s /\ _parse_size_to_gb s = Exc e)
  /\ (forall row d,
        r_name row = Null -> _analyze_device self pr row = Some d ->
        dd_device_path d = "/dev/None"%string).
Proof.
  split; [reflexivity|]. split; [|split].
  - intro d. unfold detect_devices. rewrite in_flat_map. split.
    + intros (row & Hin & Hd). exists row. split; [exact Hin|].
      destruct (r_type row) as [| |t]; try contradiction.
      destruct (String.eqb t "disk") eqn:Et; [|contradiction].
      apply String.eqb_eq in Et. subst t. split; [reflexivity|].
      destruct (_analyze_device self pr row) as [d'|]; [|contradiction].
      destruct Hd as [<-|[]]. reflexivity.
    + intros (row & Hin & Ht & Hd). exists row. split; [exact Hin|].
      rewrite Ht, Hd. left. reflexivity.
  - intro row. apply analyze_device_none.
  - intros row d Hn Hd. unfold _analyze_device in Hd. rewrite Hn in Hd.
    destruct (column_or (r_size row) "0B"); [|discriminate Hd].
    destruct (_parse_size_to_gb _); [|discriminate Hd].
    injection Hd as <-. reflexivity.
Qed.

End Listing.

(* ================================================================== *)
(** * The verdict on the log *)
(* ================================================================== *)

Section LogVerdict.
Context {HL : Hashlib} {FR : FloatRepr} {B64 : Base64} {EC : Ecdsa}.
Import Logger.

Lemma add_entry_verdict (lg : TamperProofLogger) (now : Q)
    (uuid message level : string) :
  verify_chain_integrity (snd (add_entry lg now uuid message level))
  = verify_chain_integrity lg.
Proof.
  destruct (verify_chain_integrity lg) eqn:E.
  - apply add_entry_valid. exact E.
  - rewrite verify_is_walk in *. simpl.
    rewrite walk_chain_app, E. reflexivity.
Qed.

(** X23: an append never changes the verdict of the integrity check, so a
    log that fails the check is never repaired and fails it after every
    later entry.  Certificate generation does not consult the check: it
    leaves the verdict as it was, whether it returns or raises, and when
    the signer has a private key and no step raises (preparing the data,
    writing the JSON file, rendering the PDF) it issues a certificate also
    over a log that fails the check. *)
Theorem X23_log_verdict_is_never_changed
    (lg : TamperProofLogger) (now : Q) (uuid message level : string)
    (gen : Cert.CertificateGenerator) (dr : Cert.Draws)
    (operation : WipeOperation) (dir : string) :
  verify_chain_integrity (snd (add_entry lg now uuid message level))
  = verify_chain_integrity lg
  /\ let out := Cert.generate_certificate gen dr operation dir in
     verify_chain_integrity (Cert.logger (snd out))
     = verify_chain_integrity (Cert.logger gen)
     /\ (forall sk,
           Cert.private_key (Cert.signer gen) = Some sk ->
           Cert.prepare_fault dr = None ->
           Cert.json_fault dr = None ->
           Cert.pdf_fault dr = None ->
           exists doc, fst out = Ok (JDict doc)).
Proof.
  split; [apply add_entry_verdict|]. cbv zeta.
  pose (m1 := ("Starting certificate generation for "
               ++ device_path (WipeCore.device_info operation))%string).
  pose (lg1 := snd (add_entry (Cert.logger gen) (Cert.log_time_1 dr)
                      (Cert.log_uuid_1 dr) m1 "INFO")).
  pose proof (add_entry_verdict (Cert.logger gen) (Cert.log_time_1 dr)
                (Cert.log_uuid_1 dr) m1 "INFO") as V1.
  unfold Cert.generate_certificate, Cert._sign_certificate, Cert.sign_data.
  simpl.
  destruct (Cert.private_key (Cert.signer gen)) as [sk|];
    destruct (Cert.prepare_fault dr) as [e0|];
    destruct (Cert.json_fault dr) as [ej|];
    destruct (Cert.pdf_fault dr) as [ep|]; simpl;
    try (split; [exact V1|intros; discriminate]).
  split.
  - rewrite <- V1.
    exact (add_entry_verdict lg1 (Cert.log_time_2 dr) (Cert.log_uuid_2 dr)
             _ "INFO").
  - intros sk' _ _ _ _. eexists. reflexivity.
Qed.

End LogVerdict.
